(** * manta/cluster.py: sparsity scoring, cluster selection and hub thresholds

    A shallow embedding of [manta/cluster.py].  Numbers are rationals
    ([Q]): every finite floating point number is one, and comparisons of
    rationals are exact.  Sums and quotients of rationals are exact too,
    where the program rounds to binary64; the accumulation of the sparsity
    score is therefore also given with binary64 arithmetic, in the module
    [Binary64].  Numpy integer arrays are lists, Python exceptions an
    explicit error result, and the sources of randomness of the module
    ([KMeans], [np.random.randint] and [perm_graph]) oracles indexed by the
    number of random draws made so far. *)

From Stdlib Require Import String.
From Stdlib Require Import List ZArith QArith Qabs Qround Lia Lqa Bool Arith.
From Stdlib Require Import Permutation.
From Stdlib Require SpecFloat.
Import ListNotations.

Open Scope Q_scope.

(** ** Python exceptions and results *)

Inductive exn : Type :=
| ZeroDivisionError
| IndexError
| KeyError
| ValueError
| UnboundLocalError.

Inductive result (A : Type) : Type :=
| Ok (a : A)
| Raise (e : exn).

Arguments Ok {A} a.
Arguments Raise {A} e.

(** ** Numbers *)

Definition Qltb (x y : Q) : bool := negb (Qle_bool y x).

Fixpoint Qsum (l : list Q) : Q :=
  match l with
  | [] => 0
  | x :: rest => x + Qsum rest
  end.

(** ** Graphs

    A [networkx.Graph]: nodes in insertion order, and the edges as
    [list(graph.edges)] enumerates them, each with its attribute
    dictionary (the attributes the module reads or writes). *)

Definition node : Type := Z.

Inductive hub_label : Type := positive_hub | negative_hub.

Record edge : Type := mkEdge {
  endpoint1 : node;
  endpoint2 : node;
  weight : Q;
  hub : option hub_label;
  reliability_score : option Q
}.

Record Graph : Type := mkGraph {
  nodes : list node;
  edges : list edge;
  cluster_attr : list (node * Z)
}.

Definition edge_key (e : edge) : node * node := (endpoint1 e, endpoint2 e).

Definition swap_key (k : node * node) : node * node := (snd k, fst k).

Definition key_eqb (a b : node * node) : bool :=
  (fst a =? fst b)%Z && (snd a =? snd b)%Z.

Definition connects (u v : node) (e : edge) : bool :=
  key_eqb (edge_key e) (u, v) || key_eqb (edge_key e) (v, u).

Definition mem_node (n : node) (l : list node) : bool :=
  existsb (Z.eqb n) l.

Definition mem_key (k : node * node) (l : list (node * node)) : bool :=
  existsb (key_eqb k) l.

(** The invariants networkx maintains for a [Graph]: nodes are distinct,
    every edge joins two nodes of the graph, and an unordered pair of nodes
    carries at most one edge. *)

Fixpoint distinct_nodes (l : list node) : bool :=
  match l with
  | [] => true
  | n :: rest => negb (mem_node n rest) && distinct_nodes rest
  end.

Fixpoint simple_edges (l : list edge) : bool :=
  match l with
  | [] => true
  | e :: rest =>
      negb (existsb (connects (endpoint1 e) (endpoint2 e)) rest)
      && simple_edges rest
  end.

Definition wf_graph (g : Graph) : bool :=
  distinct_nodes (nodes g)
  && forallb (fun e => mem_node (endpoint1 e) (nodes g)
                       && mem_node (endpoint2 e) (nodes g)) (edges g)
  && simple_edges (edges g).

(** [graph[u][v]['weight']] *)
Definition graph_weight (graph : Graph) (u v : node) : option Q :=
  option_map weight (find (connects u v) (edges graph)).

(** ** Indexing helpers *)

(** [np.where(clusters == cluster_id)[0]] *)
Fixpoint np_where_eq_from (i : nat) (clusters : list Z) (cluster_id : Z)
  : list nat :=
  match clusters with
  | [] => []
  | c :: rest =>
      if (c =? cluster_id)%Z
      then i :: np_where_eq_from (S i) rest cluster_id
      else np_where_eq_from (S i) rest cluster_id
  end.

Definition np_where_eq (clusters : list Z) (cluster_id : Z) : list nat :=
  np_where_eq_from 0 clusters cluster_id.

(** [set(clusters)]: the distinct cluster ids; the iteration order of a
    Python set is unspecified, one enumeration is fixed here. *)
Definition py_set (clusters : list Z) : list Z := nodup Z.eq_dec clusters.

(** [rev_index.get(item, item)] on a dictionary from matrix positions to
    node identifiers. *)
Definition rev_index_get (rev_index : list (nat * node)) (item : nat) : node :=
  match find (fun kv => Nat.eqb (fst kv) item) rev_index with
  | Some kv => snd kv
  | None => Z.of_nat item
  end.

(** [adj_index] and [rev_index] as [cluster_graph] builds them (lines
    60-63): position [i] is paired with [list(graph.nodes)[i]]. *)
Definition make_rev_index (graph : Graph) : list (nat * node) :=
  combine (seq 0 (length (nodes graph))) (nodes graph).

(** ** sparsity_score (lines 175-227) *)

Section Sparsity.

(** The orientation in which a subgraph view reports an edge can differ
    from the orientation in [graph.edges] (the comment at line 219); it
    is left unspecified: [view_swaps node_ids u v] tells whether the view
    induced by [node_ids] reports the edge [(u, v)] as [(v, u)]. *)
Variable view_swaps : list node -> node -> node -> bool.

Definition flip_edge (e : edge) : edge :=
  mkEdge (endpoint2 e) (endpoint1 e) (weight e) (hub e) (reliability_score e).

(** [graph.subgraph(node_ids)] *)
Definition subgraph (graph : Graph) (node_ids : list node) : Graph :=
  {| nodes := filter (fun n => mem_node n node_ids) (nodes graph);
     cluster_attr := cluster_attr graph;
     edges :=
       map (fun e => if view_swaps node_ids (endpoint1 e) (endpoint2 e)
                     then flip_edge e else e)
           (filter (fun e => mem_node (endpoint1 e) node_ids
                             && mem_node (endpoint2 e) node_ids)
                   (edges graph)) |}.

(** Lines 210-214: the loop over the weights of one cluster. *)
Definition score_inside (cut_score : Q) (weights : list Q) (sparsity : Q) : Q :=
  fold_left (fun sparsity w =>
               if Qltb w 0 then sparsity + cut_score
               else sparsity - cut_score)
            weights sparsity.

(** Lines 202-214: one iteration of the loop over the cluster ids. *)
Definition score_cluster (graph : Graph) (clusters : list Z)
           (rev_index : list (nat * node)) (cut_score : Q)
           (acc : Q * list (node * node)) (cluster_id : Z)
  : Q * list (node * node) :=
  let node_ids := np_where_eq clusters cluster_id in
  let node_ids := map (rev_index_get rev_index) node_ids in
  let cluster := subgraph graph node_ids in
  let edges_seen := snd acc ++ map edge_key (edges cluster) in
  let weights := map weight (edges cluster) in
  (score_inside cut_score weights (fst acc), edges_seen).

(** Lines 221-226: the loop over the cut edges. *)
Fixpoint score_cuts (graph : Graph) (cut_score : Q)
         (cuts : list (node * node)) (sparsity : Q) : result Q :=
  match cuts with
  | [] => Ok sparsity
  | edge :: rest =>
      match graph_weight graph (fst edge) (snd edge) with
      | None => Raise KeyError
      | Some cut =>
          score_cuts graph cut_score rest
                     (if Qltb 0 cut then sparsity + cut_score
                      else sparsity - cut_score)
      end
  end.

Definition sparsity_score (graph : Graph) (clusters : list Z)
           (rev_index : list (nat * node)) : result Q :=
  match length (edges graph) with
  | O => Raise ZeroDivisionError
  | S _ =>
      let cut_score := 1 / inject_Z (Z.of_nat (length (edges graph))) in
      let acc := fold_left (score_cluster graph clusters rev_index cut_score)
                           (py_set clusters) (0, []) in
      let sparsity := fst acc in
      let edges_seen := snd acc in
      let all_edges := map edge_key (edges graph) in
      let cuts := filter (fun edge => negb (mem_key edge edges_seen)
                                      && negb (mem_key (swap_key edge) edges_seen))
                         all_edges in
      score_cuts graph cut_score cuts sparsity
  end.

End Sparsity.

(** ** sparsity_score with binary64 arithmetic

    The loops of [sparsity_score] once more, with the quotient of line 199
    and every [+=] and [-=] rounded to the nearest binary64 number, ties to
    even, as Python floats are.  The weights are compared with 0 only, and
    stay rationals.  A rounded sum depends on the order of its terms: the
    order in which [set(clusters)] and a subgraph view enumerate is
    unspecified, and the enumeration fixed above ([py_set], [subgraph]) is
    one of those the program can follow. *)

Module Binary64.

Definition float : Type := SpecFloat.spec_float.

Definition prec : Z := 53.
Definition emax : Z := 1024.

(** [float(n)] *)
Definition of_nat (n : nat) : float :=
  SpecFloat.binary_normalize prec emax (Z.of_nat n) 0 false.

Definition add : float -> float -> float := SpecFloat.SFadd prec emax.
Definition sub : float -> float -> float := SpecFloat.SFsub prec emax.
Definition div : float -> float -> float := SpecFloat.SFdiv prec emax.
Definition ltb : float -> float -> bool := SpecFloat.SFltb.

Section Sparsity.

Variable view_swaps : list node -> node -> node -> bool.

(** Lines 210-214. *)
Definition score_inside (cut_score : float) (weights : list Q)
           (sparsity : float) : float :=
  fold_left (fun sparsity w =>
               if Qltb w 0 then add sparsity cut_score
               else sub sparsity cut_score)
            weights sparsity.

(** Lines 202-214. *)
Definition score_cluster (graph : Graph) (clusters : list Z)
           (rev_index : list (nat * node)) (cut_score : float)
           (acc : float * list (node * node)) (cluster_id : Z)
  : float * list (node * node) :=
  let node_ids := np_where_eq clusters cluster_id in
  let node_ids := map (rev_index_get rev_index) node_ids in
  let cluster := subgraph view_swaps graph node_ids in
  let edges_seen := snd acc ++ map edge_key (edges cluster) in
  let weights := map weight (edges cluster) in
  (score_inside cut_score weights (fst acc), edges_seen).

(** Lines 221-226. *)
Fixpoint score_cuts (graph : Graph) (cut_score : float)
         (cuts : list (node * node)) (sparsity : float) : result float :=
  match cuts with
  | [] => Ok sparsity
  | edge :: rest =>
      match graph_weight graph (fst edge) (snd edge) with
      | None => Raise KeyError
      | Some cut =>
          score_cuts graph cut_score rest
                     (if Qltb 0 cut then add sparsity cut_score
                      else sub sparsity cut_score)
      end
  end.

Definition sparsity_score (graph : Graph) (clusters : list Z)
           (rev_index : list (nat * node)) : result float :=
  match length (edges graph) with
  | O => Raise ZeroDivisionError
  | S _ =>
      let cut_score := div (of_nat 1) (of_nat (length (edges graph))) in
      let acc := fold_left (score_cluster graph clusters rev_index cut_score)
                           (py_set clusters) (of_nat 0, []) in
      let sparsity := fst acc in
      let edges_seen := snd acc in
      let all_edges := map edge_key (edges graph) in
      let cuts := filter (fun edge => negb (mem_key edge edges_seen)
                                      && negb (mem_key (swap_key edge) edges_seen))
                         all_edges in
      score_cuts graph cut_score cuts sparsity
  end.

End Sparsity.

End Binary64.

(** ** Output, randomness and the monad of the selection routines

    [sys.stdout.write] appends an event to the output; every call of
    [KMeans(...).fit], [KMeans(...).fit_predict], [np.random.randint] or
    [perm_graph] consumes one random draw.  An exception leaves the
    output written so far in place. *)

Inductive event : Type :=
| RandomSparsity (score : Q)
| SparsityLevel (k : Z) (score : Q)
| LowestScore (k : Z) (score : Q)
| WarnRandomBest
| WarnOnlyKMeans
| IterationLowest (j : nat) (k : Z) (score : Q)
| UsingIterations (iters : list nat).

Record world : Type := mkWorld {
  draws : nat;
  stdout : list event
}.

Definition M (A : Type) : Type := world -> world * result A.

Definition ret {A} (a : A) : M A := fun w => (w, Ok a).

Definition raise {A} (e : exn) : M A := fun w => (w, Raise e).

Definition bind {A B} (m : M A) (k : A -> M B) : M B :=
  fun w =>
    match m w with
    | (w', Ok a) => k a w'
    | (w', Raise e) => (w', Raise e)
    end.

Definition lift {A} (r : result A) : M A := fun w => (w, r).

Definition write (ev : event) : M unit :=
  fun w => (mkWorld (draws w) (stdout w ++ [ev]), Ok tt).

Definition draw : M nat :=
  fun w => (mkWorld (S (draws w)) (stdout w), Ok (draws w)).

Definition rbind {A B} (r : result A) (k : A -> result B) : result B :=
  match r with
  | Ok a => k a
  | Raise e => Raise e
  end.

Declare Scope py_scope.
Delimit Scope py_scope with py.
Notation "x <- m ;; k" := (bind m (fun x => k))
  (at level 61, m at next level, right associativity) : py_scope.
Notation "m ;; k" := (bind m (fun _ => k))
  (at level 61, right associativity) : py_scope.
Notation "x <-? r ;; k" := (rbind r (fun x => k))
  (at level 61, r at next level, right associativity) : py_scope.
Open Scope py_scope.

(** ** numpy helpers *)

Definition matrix : Type := list (list Q).

(** [range(lo, hi)] *)
Definition py_range (lo hi : Z) : list Z :=
  map (fun i => (lo + Z.of_nat i)%Z) (seq 0 (Z.to_nat (hi - lo))).

Fixpoint argmin_from (best_i : nat) (best : Q) (i : nat) (l : list Q) : nat :=
  match l with
  | [] => best_i
  | x :: rest =>
      if Qltb x best then argmin_from i x (S i) rest
      else argmin_from best_i best (S i) rest
  end.

(** [np.argmin]: the first position of the minimum. *)
Definition np_argmin (l : list Q) : result nat :=
  match l with
  | [] => Raise ValueError
  | x :: rest => Ok (argmin_from 0%nat x 1%nat rest)
  end.

(** [np.min] *)
Definition np_min (l : list Q) : result Q :=
  match l with
  | [] => Raise ValueError
  | x :: rest => Ok (fold_left (fun m y => if Qltb y m then y else m) rest x)
  end.

(** [l[i]] for a non-negative position. *)
Definition py_index {A} (l : list A) (i : nat) : result A :=
  match nth_error l i with
  | Some a => Ok a
  | None => Raise IndexError
  end.

(** [l[-1]] *)
Definition py_last {A} (l : list A) : result A :=
  match rev l with
  | a :: _ => Ok a
  | [] => Raise IndexError
  end.

(** [np.where(np.array(xs) < bound)[0]] *)
Fixpoint np_where_lt_from (i : nat) (xs : list Q) (bound : Q) : list nat :=
  match xs with
  | [] => []
  | x :: rest =>
      if Qltb x bound then i :: np_where_lt_from (S i) rest bound
      else np_where_lt_from (S i) rest bound
  end.

Definition np_where_lt (xs : list Q) (bound : Q) : list nat :=
  np_where_lt_from 0 xs bound.

(** [np.mean]; of a non-empty vector (the mean of an empty vector is not a
    number in numpy, and is not reached with the centroids of a fitted
    k-means model, which have one coordinate per column). *)
Definition np_mean (v : list Q) : Q :=
  Qsum v / inject_Z (Z.of_nat (length v)).

Fixpoint zip_sub (a b : list Q) : list Q :=
  match a, b with
  | x :: a', y :: b' => (x - y) :: zip_sub a' b'
  | _, _ => []
  end.

(** [a - b] on one-dimensional arrays, with numpy's broadcasting of a
    one-element array. *)
Definition vec_sub (a b : list Q) : result (list Q) :=
  if Nat.eqb (length a) (length b) then Ok (zip_sub a b)
  else match a, b with
       | _, [y] => Ok (map (fun x => x - y) a)
       | [x], _ => Ok (map (fun y => x - y) b)
       | _, _ => Raise ValueError
       end.

(** [min(diff)] on a Python list: the first smallest element. *)
Definition py_min (diff : list Q) : result Q := np_min diff.

(** [diff.index(x)] *)
Fixpoint list_index_from (i : nat) (x : Q) (diff : list Q) : result nat :=
  match diff with
  | [] => Raise ValueError
  | y :: rest => if Qeq_bool y x then Ok i else list_index_from (S i) x rest
  end.

Definition list_index (x : Q) (diff : list Q) : result nat :=
  list_index_from 0 x diff.

(** ** Dictionaries keyed by [range(n)]

    [clusdict] (lines 280-284) maps every key of [range(topscore)] to a
    dictionary that maps every key of [range(len(centroids)-1)] to a list;
    a dictionary whose keys are exactly [0 .. n-1] is kept as the list of
    its values, and a key outside the range raises [KeyError]. *)

Definition clusdict_t : Type := list (list (list nat)).

Definition dict_lookup {A} (d : list A) (key : nat) : result A :=
  match nth_error d key with
  | Some a => Ok a
  | None => Raise KeyError
  end.

Definition dict_lookup_Z {A} (d : list A) (key : Z) : result A :=
  if (key <? 0)%Z then Raise KeyError else dict_lookup d (Z.to_nat key).

Fixpoint dict_update {A} (d : list A) (key : nat) (a : A) : list A :=
  match d, key with
  | [], _ => []
  | _ :: rest, O => a :: rest
  | x :: rest, S key' => x :: dict_update rest key' a
  end.

Definition make_clusdict (topscore : Z) (n_iters : nat) : clusdict_t :=
  repeat (repeat [] n_iters) (Z.to_nat topscore).

(** [clusdict[c][j].append(m)] *)
Definition clusdict_append (clusdict : clusdict_t) (c j m : nat)
  : result clusdict_t :=
  row <-? dict_lookup clusdict c ;;
  cell <-? dict_lookup row j ;;
  Ok (dict_update clusdict c (dict_update row j (cell ++ [m]))).

(** ** Centroid matching (lines 285-294) *)

(** Lines 291-293: [diff] for one centroid of an earlier snapshot. *)
Fixpoint center_diffs (iter : list Q) (core_centers : list (list Q))
  : result (list Q) :=
  match core_centers with
  | [] => Ok []
  | core :: rest =>
      d <-? vec_sub iter core ;;
      ds <-? center_diffs iter rest ;;
      Ok (Qabs (np_mean d) :: ds)
  end.

(** Lines 289-294: the loop over the centroids of snapshot [j]. *)
Fixpoint match_centers (core_centers : list (list Q))
         (iter_centers : list (list Q)) (j m : nat) (clusdict : clusdict_t)
  : result clusdict_t :=
  match iter_centers with
  | [] => Ok clusdict
  | iter :: rest =>
      diff <-? center_diffs iter core_centers ;;
      lowest <-? py_min diff ;;
      c <-? list_index lowest diff ;;
      clusdict <-? clusdict_append clusdict c j m ;;
      match_centers core_centers rest j (S m) clusdict
  end.

(** Lines 286-294: the loop over [range(0, len(centroids)-1)]; [earlier]
    holds [centroids[j:len(centroids)-1]]. *)
Fixpoint match_iterations (core_centers : list (list Q))
         (earlier : list (list (list Q))) (j : nat) (clusdict : clusdict_t)
  : result clusdict_t :=
  match earlier with
  | [] => Ok clusdict
  | iter_centers :: rest =>
      clusdict <-? match_centers core_centers iter_centers j 0 clusdict ;;
      match_iterations core_centers rest (S j) clusdict
  end.

(** ** Stability of the nodes (lines 297-305) *)

(** Line 300: [sep_clusters[j][i] in clusdict[sep_clusters[-1][i]][j]] *)
Definition stable_in (sep_clusters : list (list Z)) (clusdict : clusdict_t)
           (i j : nat) : result bool :=
  labels <-? py_index sep_clusters j ;;
  label <-? py_index labels i ;;
  final <-? py_last sep_clusters ;;
  core <-? py_index final i ;;
  row <-? dict_lookup_Z clusdict core ;;
  cell <-? dict_lookup row j ;;
  Ok (existsb (fun m => (label =? Z.of_nat m)%Z) cell).

(** Lines 299-301: the loop over [j] for one node [i]. *)
Fixpoint node_stability (sep_clusters : list (list Z)) (clusdict : clusdict_t)
         (i : nat) (js : list nat) (prob : Q) : result Q :=
  match js with
  | [] => Ok prob
  | j :: rest =>
      stable <-? stable_in sep_clusters clusdict i j ;;
      node_stability sep_clusters clusdict i rest
        (if stable
         then prob + 1 / inject_Z (Z.of_nat (length sep_clusters) - 1)
         else prob)
  end.

(** Lines 297-301: [clusprobs]. *)
Fixpoint stability (sep_clusters : list (list Z)) (clusdict : clusdict_t)
         (positions : list nat) : result (list Q) :=
  match positions with
  | [] => Ok []
  | i :: rest =>
      prob <-? node_stability sep_clusters clusdict i
                 (seq 0 (length sep_clusters - 1)) 0 ;;
      probs <-? stability sep_clusters clusdict rest ;;
      Ok (prob :: probs)
  end.

(** Line 305: [bestcluster[np.where(clusprobs < 0.5)] = 100] *)
Fixpoint mark_fuzzy (bestcluster : list Z) (clusprobs : list Q) : list Z :=
  match bestcluster, clusprobs with
  | label :: rest, prob :: probs =>
      (if Qltb prob (1 # 2) then 100%Z else label) :: mark_fuzzy rest probs
  | _, _ => bestcluster
  end.

(** ** Cluster selection (lines 230-348) *)

Section Selection.

Variable view_swaps : list node -> node -> node -> bool.

(** The k-means primitive of scikit-learn, a black box: the fit made at
    random draw [d] with [n_clusters] clusters on the rows of a matrix
    gives the labels of the rows and the cluster centres, or raises. *)
Variable KMeans_fit : nat -> Z -> matrix -> result (list Z * list (list Q)).

(** The bits [np.random.randint(2, size=...)] produces at draw [d]. *)
Variable random_bit : nat -> nat -> bool.

(** [KMeans(n_clusters).fit_predict(X)] *)
Definition KMeans_fit_predict (n_clusters : Z) (X : matrix) : M (list Z) :=
  d <- draw ;;
  fitted <- lift (KMeans_fit d n_clusters X) ;;
  ret (fst fitted).

(** [KMeans(n_clusters).fit(X).cluster_centers_] *)
Definition KMeans_cluster_centers (n_clusters : Z) (X : matrix)
  : M (list (list Q)) :=
  d <- draw ;;
  fitted <- lift (KMeans_fit d n_clusters X) ;;
  ret (snd fitted).

(** [np.random.randint(2, size=size)] *)
Definition np_random_randint2 (size : nat) : M (list Z) :=
  d <- draw ;;
  ret (map (fun i => if random_bit d i then 1%Z else 0%Z) (seq 0 size)).

(** *** cluster_hard (lines 310-348) *)

(** Lines 329-334. *)
Fixpoint hard_sweep (graph : Graph) (rev_index : list (nat * node))
         (scoremat : matrix) (ks : list Z) (scores : list Q) : M (list Q) :=
  match ks with
  | [] => ret scores
  | i :: rest =>
      clusters <- KMeans_fit_predict i scoremat ;;
      score <- lift (sparsity_score view_swaps graph clusters rev_index) ;;
      write (SparsityLevel i score) ;;
      hard_sweep graph rev_index scoremat rest (scores ++ [score])
  end.

Definition cluster_hard (graph : Graph) (rev_index : list (nat * node))
           (scoremat : matrix) (max_clusters min_clusters : Z)
           (cluster : string) : M (list Z) :=
  randomclust <- np_random_randint2 (length scoremat) ;;
  score0 <- lift (sparsity_score view_swaps graph randomclust rev_index) ;;
  let scores := [score0] in
  write (RandomSparsity score0) ;;
  if String.eqb cluster "KMeans" then
    scores <- hard_sweep graph rev_index scoremat
                (py_range min_clusters (max_clusters + 1)) scores ;;
    best <- lift (np_argmin scores) ;;
    let topscore := (Z.of_nat best + min_clusters - 1)%Z in
    (if (min_clusters <=? topscore)%Z
     then lowest <- lift (np_min scores) ;;
          write (LowestScore topscore lowest)
     else write WarnRandomBest) ;;
    bestcluster <- KMeans_fit_predict topscore scoremat ;;
    ret bestcluster
  else
    write WarnOnlyKMeans ;;
    (* line 348: [bestcluster] was never bound *)
    raise UnboundLocalError.

(** *** cluster_fuzzy (lines 230-306) *)

(** Lines 250-253. *)
Fixpoint fuzzy_sweep (graph : Graph) (rev_index : list (nat * node))
         (scoremat : matrix) (ks : list Z) (scores : list Q) : M (list Q) :=
  match ks with
  | [] => ret scores
  | i :: rest =>
      clusters <- KMeans_fit_predict i scoremat ;;
      score <- lift (sparsity_score view_swaps graph clusters rev_index) ;;
      fuzzy_sweep graph rev_index scoremat rest (scores ++ [score])
  end.

(** Lines 246-259: the loop over the snapshots [diffs[j:]]; [topscore]
    is the variable of that name, unbound ([None]) until line 254 binds
    it. *)
Fixpoint score_snapshots (graph : Graph) (rev_index : list (nat * node))
         (snapshots : list matrix) (j : nat) (max_clusters min_clusters : Z)
         (cluster : string) (difscores : list Q) (topscores : list Z)
         (topscore : option Z) : M (list Q * list Z) :=
  match snapshots with
  | [] => ret (difscores, topscores)
  | scoremat :: rest =>
      swept <-
        (if String.eqb cluster "KMeans" then
           scores <- fuzzy_sweep graph rev_index scoremat
                       (py_range min_clusters (max_clusters + 1)) [] ;;
           best <- lift (np_argmin scores) ;;
           lowest <- lift (np_min scores) ;;
           write (IterationLowest j (Z.of_nat best + min_clusters)%Z lowest) ;;
           ret (scores, Some (Z.of_nat best + min_clusters)%Z)
         else ret ([], topscore)) ;;
      let scores := fst swept in
      let topscore := snd swept in
      best <- lift (np_argmin scores) ;;
      difscore <- lift (py_index scores best) ;;
      bound <- match topscore with
               | Some k => ret k
               | None => raise UnboundLocalError
               end ;;
      score_snapshots graph rev_index rest (S j) max_clusters min_clusters
                      cluster (difscores ++ [difscore]) (topscores ++ [bound])
                      topscore
  end.

(** Lines 272-277: the loop over [separating_iters[1:]]. *)
Fixpoint fit_separating (diffs : list matrix) (topscores : list Z)
         (cluster : string) (iters : list nat)
         (sep_clusters : list (list Z)) (centroids : list (list (list Q)))
  : M (list (list Z) * list (list (list Q))) :=
  match iters with
  | [] => ret (sep_clusters, centroids)
  | j :: rest =>
      scoremat <- lift (py_index diffs j) ;;
      if String.eqb cluster "KMeans" then
        k <- lift (py_index topscores j) ;;
        labels <- KMeans_fit_predict k scoremat ;;
        centers <- KMeans_cluster_centers k scoremat ;;
        fit_separating diffs topscores cluster rest
                       (sep_clusters ++ [labels]) (centroids ++ [centers])
      else
        fit_separating diffs topscores cluster rest sep_clusters centroids
  end.

(** Lines 260-306, given the scores of the snapshots. *)
Definition select_fuzzy (diffs : list matrix) (cluster : string)
           (difscores : list Q) (topscores : list Z) : M (list Z) :=
  let separating_iters := np_where_lt difscores (- (1 # 2)) in
  write (UsingIterations separating_iters) ;;
  last_iter <- lift (py_last separating_iters) ;;
  topscore <- lift (py_index topscores last_iter) ;;
  fits <- fit_separating diffs topscores cluster (tl separating_iters) [] [] ;;
  let sep_clusters := fst fits in
  let centroids := snd fits in
  let clusdict := make_clusdict topscore (length centroids - 1) in
  core_centers <- lift (py_last centroids) ;;
  clusdict <- lift (match_iterations core_centers (removelast centroids)
                                     0 clusdict) ;;
  final <- lift (py_last sep_clusters) ;;
  clusprobs <- lift (stability sep_clusters clusdict
                               (seq 0 (length final))) ;;
  ret (mark_fuzzy final clusprobs).

Definition cluster_fuzzy (graph : Graph) (rev_index : list (nat * node))
           (diffs : list matrix) (max_clusters min_clusters : Z)
           (cluster : string) : M (list Z) :=
  scored <- score_snapshots graph rev_index diffs 0 max_clusters min_clusters
                            cluster [] [] None ;;
  select_fuzzy diffs cluster (fst scored) (snd scored).

End Selection.

(** ** Percentiles and hub positions *)

Fixpoint insert_sorted (x : Q) (l : list Q) : list Q :=
  match l with
  | [] => [x]
  | y :: rest => if Qle_bool x y then x :: l else y :: insert_sorted x rest
  end.

Definition np_sort (l : list Q) : list Q := fold_right insert_sorted [] l.

(** [np.percentile(a, q)] with numpy's default linear interpolation on the
    flattened, sorted matrix.  A percentile outside [0, 100] raises
    [ValueError]; for a percentile within the range an empty matrix raises
    [IndexError].  The result is a number ([Some]); [None] stands for
    not-a-number in the comparisons below. *)
Definition np_percentile (a : matrix) (q : Q) : result (option Q) :=
  if Qltb q 0 || Qltb 100 q then Raise ValueError
  else
    let arr := np_sort (concat a) in
    match arr with
    | [] => Raise IndexError
    | first :: _ =>
        let n := Z.of_nat (length arr) in
        let virtual := q / 100 * inject_Z (n - 1) in
        let lo := Qfloor virtual in
        let hi := Z.min (lo + 1) (n - 1) in
        let below := nth (Z.to_nat lo) arr first in
        let above := nth (Z.to_nat hi) arr first in
        Ok (Some (below + (above - below) * (virtual - inject_Z lo)))
    end.

(** [x <= thresh] and [x >= thresh]; a comparison with not-a-number is
    false. *)
Definition le_thresh (thresh : option Q) (x : Q) : bool :=
  match thresh with
  | Some t => Qle_bool x t
  | None => false
  end.

Definition ge_thresh (thresh : option Q) (x : Q) : bool :=
  match thresh with
  | Some t => Qle_bool t x
  | None => false
  end.

Fixpoint row_where (p : Q -> bool) (i j : nat) (row : list Q)
  : list (nat * nat) :=
  match row with
  | [] => []
  | x :: rest =>
      if p x then (i, j) :: row_where p i (S j) rest
      else row_where p i (S j) rest
  end.

Fixpoint argwhere_from (p : Q -> bool) (i : nat) (a : matrix)
  : list (nat * nat) :=
  match a with
  | [] => []
  | row :: rest => row_where p i 0 row ++ argwhere_from p (S i) rest
  end.

(** [list(map(tuple, np.argwhere(cond(a))))]: the positions, row by row. *)
Definition np_argwhere (p : Q -> bool) (a : matrix) : list (nat * nat) :=
  argwhere_from p 0 a.

(** [a[(i, j)]] *)
Definition matrix_get (a : matrix) (i j : nat) : result Q :=
  row <-? py_index a i ;;
  py_index row j.

(** Lines 105-108 of [central_edge]: the two thresholds and the flagged
    positions. *)
Definition hub_positions (scoremat : matrix) (percentile : Q)
  : result (option Q * option Q * list (nat * nat) * list (nat * nat)) :=
  negthresh <-? np_percentile scoremat percentile ;;
  posthresh <-? np_percentile scoremat (100 - percentile) ;;
  let neghubs := np_argwhere (le_thresh negthresh) scoremat in
  let poshubs := np_argwhere (ge_thresh posthresh) scoremat in
  Ok (negthresh, posthresh, neghubs, poshubs).

(** ** Python dictionaries in insertion order *)

Fixpoint dict_set {K V} (eqb : K -> K -> bool) (d : list (K * V))
         (k : K) (v : V) : list (K * V) :=
  match d with
  | [] => [(k, v)]
  | kv :: rest =>
      if eqb (fst kv) k then (fst kv, v) :: rest
      else kv :: dict_set eqb rest k v
  end.

Definition dict_find {K V} (eqb : K -> K -> bool) (d : list (K * V)) (k : K)
  : result V :=
  match find (fun kv => eqb (fst kv) k) d with
  | Some kv => Ok (snd kv)
  | None => Raise KeyError
  end.

(** [adj_index] (lines 109-111). *)
Definition make_adj_index (graph : Graph) : list (node * nat) :=
  fold_left (fun adj_index i =>
               match nth_error (nodes graph) i with
               | Some n => dict_set Z.eqb adj_index n i
               | None => adj_index
               end)
            (seq 0 (length (nodes graph))) [].

(** [nx.set_edge_attributes(graph, values, name)]: an entry whose key is
    not an edge of the graph is skipped; the attribute dictionary of an
    undirected edge is the same under both orientations of its key. *)
Definition with_edges (graph : Graph) (es : list edge) : Graph :=
  {| nodes := nodes graph; edges := es; cluster_attr := cluster_attr graph |}.

Definition set_hub (key : node * node) (value : hub_label) (e : edge) : edge :=
  if connects (fst key) (snd key) e
  then mkEdge (endpoint1 e) (endpoint2 e) (weight e) (Some value)
              (reliability_score e)
  else e.

Definition set_reliability (key : node * node) (value : Q) (e : edge) : edge :=
  if connects (fst key) (snd key) e
  then mkEdge (endpoint1 e) (endpoint2 e) (weight e) (hub e) (Some value)
  else e.

Definition set_edge_attributes_hub (graph : Graph)
           (values : list (node * node * hub_label)) : Graph :=
  fold_left (fun g kv => with_edges g (map (set_hub (fst kv) (snd kv)) (edges g)))
            values graph.

Definition set_edge_attributes_reliability (graph : Graph)
           (values : list (node * node * Q)) : Graph :=
  fold_left (fun g kv =>
               with_edges g (map (set_reliability (fst kv) (snd kv)) (edges g)))
            values graph.

(** What the diffusion reads of a graph: the nodes and the weighted edges. *)
Definition weighted_edges (graph : Graph) : list (node * node * Q) :=
  map (fun e => (endpoint1 e, endpoint2 e, weight e)) (edges graph).

(** ** central_edge (lines 84-135) and cluster_graph (lines 38-81) *)

Section Pipeline.

Variable view_swaps : list node -> node -> node -> bool.
Variable KMeans_fit : nat -> Z -> matrix -> result (list Z * list (list Q)).
Variable random_bit : nat -> nat -> bool.

(** Modelled from the spec: [manta.perms.diffusion(graph, limit,
    iterations, norm)] is not part of this module.  By its contract it is
    a fixed-point iteration over the weighted adjacency matrix, reading no
    attribute but [weight]: a function of the nodes and the weighted edges
    of the graph; an argument left to its default is [None].  It returns
    the score matrix, the memory flag and the list of snapshots. *)
Variable diffusion :
  list node -> list (node * node * Q) -> option Q -> Z -> option bool ->
  matrix * bool * list matrix.

(** Modelled from the spec: [manta.perms.perm_graph] is not part of this
    module; it permutes the graph at random and returns a matrix of
    reliability scores, here the one it gives at random draw [d]. *)
Variable perm_graph :
  nat -> Graph -> matrix -> Q -> Z -> list (nat * nat) -> list (nat * nat) ->
  Q -> result matrix.

(** Lines 121-126 and 127-132: one of the two loops over the hubs;
    [score] is [None] when [permutations > 0] does not hold. *)
Fixpoint label_hubs (graph : Graph) (adj_index : list (node * nat))
         (score : option matrix) (value : hub_label)
         (hubs : list (nat * nat))
         (edge_vals : list (node * node * hub_label))
         (edge_scores : list (node * node * Q))
  : result (list (node * node * hub_label) * list (node * node * Q)) :=
  match hubs with
  | [] => Ok (edge_vals, edge_scores)
  | edge :: rest =>
      node1 <-? py_index (nodes graph) (fst edge) ;;
      node2 <-? py_index (nodes graph) (snd edge) ;;
      let edge_vals := dict_set key_eqb edge_vals (node1, node2) value in
      edge_scores <-?
        match score with
        | Some score =>
            i1 <-? dict_find Z.eqb adj_index node1 ;;
            i2 <-? dict_find Z.eqb adj_index node2 ;;
            s <-? matrix_get score i1 i2 ;;
            Ok (dict_set key_eqb edge_scores (node1, node2) s)
        | None => Ok edge_scores
        end ;;
      label_hubs graph adj_index score value rest edge_vals edge_scores
  end.

Definition central_edge (graph : Graph) (percentile : Q) (permutations : Z)
           (error : Q) : M Graph :=
  let scoremat :=
    fst (fst (diffusion (nodes graph) (weighted_edges graph) None 3
                        (Some false))) in
  flagged <- lift (hub_positions scoremat percentile) ;;
  let neghubs := snd (fst flagged) in
  let poshubs := snd flagged in
  let adj_index := make_adj_index graph in
  score <- (if (0 <? permutations)%Z
            then d <- draw ;;
                 score <- lift (perm_graph d graph scoremat percentile
                                           permutations poshubs neghubs
                                           error) ;;
                 ret (Some score)
            else ret None) ;;
  labelled <- lift (label_hubs graph adj_index score negative_hub neghubs
                               [] []) ;;
  labelled <- lift (label_hubs graph adj_index score positive_hub poshubs
                               (fst labelled) (snd labelled)) ;;
  let graph := set_edge_attributes_hub graph (fst labelled) in
  if (0 <? permutations)%Z
  then ret (set_edge_attributes_reliability graph (snd labelled))
  else ret graph.

(** Lines 77-80: [clusdict] and [nx.set_node_attributes]. *)
Fixpoint assign_clusters (graph_nodes : list node) (i : nat)
         (bestcluster : list Z) (clusdict : list (node * Z))
  : result (list (node * Z)) :=
  match graph_nodes with
  | [] => Ok clusdict
  | n :: rest =>
      c <-? py_index bestcluster i ;;
      assign_clusters rest (S i) bestcluster (dict_set Z.eqb clusdict n c)
  end.

Definition set_node_attributes_cluster (graph : Graph)
           (values : list (node * Z)) : Graph :=
  {| nodes := nodes graph;
     edges := edges graph;
     cluster_attr :=
       fold_left (fun attrs kv =>
                    if mem_node (fst kv) (nodes graph)
                    then dict_set Z.eqb attrs (fst kv) (snd kv)
                    else attrs)
                 values (cluster_attr graph) |}.

Definition cluster_graph (graph : Graph) (limit : Q)
           (max_clusters min_clusters iterations : Z) (cluster : string)
  : M (Graph * matrix) :=
  let rev_index := make_rev_index graph in
  let diffused := diffusion (nodes graph) (weighted_edges graph) (Some limit)
                            iterations None in
  let scoremat := fst (fst diffused) in
  let memory := snd (fst diffused) in
  let diffs := snd diffused in
  bestcluster <-
    (if negb memory
     then cluster_hard view_swaps KMeans_fit random_bit graph rev_index
                       scoremat max_clusters min_clusters cluster
     else cluster_fuzzy view_swaps KMeans_fit graph rev_index diffs
                        max_clusters min_clusters cluster) ;;
  clusdict <- lift (assign_clusters (nodes graph) 0 bestcluster []) ;;
  ret (set_node_attributes_cluster graph clusdict, scoremat).

End Pipeline.

(** ** Test data *)

Definition wedge (u v : node) (w : Q) : edge := mkEdge u v w None None.
Arguments wedge (u v)%_Z w%_Q.

(** Two triangles of weight 1 joined by an edge of weight -5 (the scenario
    of the documentation), and the same graph with a pendant node. *)
Definition two_triangles : Graph :=
  {| nodes := [10; 11; 12; 13; 14; 15]%Z;
     edges := [wedge 10 11 1; wedge 11 12 1; wedge 10 12 1;
               wedge 13 14 1; wedge 14 15 1; wedge 13 15 1;
               wedge 12 13 (-5 # 1)];
     cluster_attr := [] |}.

Definition pendant_graph : Graph :=
  {| nodes := [10; 11; 12; 13; 14; 15; 16]%Z;
     edges := [wedge 10 11 1; wedge 11 12 1; wedge 10 12 1;
               wedge 13 14 1; wedge 14 15 1; wedge 13 15 1;
               wedge 12 13 (-5 # 1); wedge 15 16 1];
     cluster_attr := [] |}.

Definition edgeless_graph : Graph :=
  {| nodes := [10; 11]%Z; edges := []; cluster_attr := [] |}.


Definition no_swaps : list node -> node -> node -> bool := fun _ _ _ => false.
Definition all_swaps : list node -> node -> node -> bool := fun _ _ _ => true.

(** A stand-in for k-means that respects its interface: [n_clusters] must
    lie between 1 and the number of rows, row [r] gets the label
    [floor(r[0]) mod n_clusters], and centre [c] has all coordinates [c]. *)
Definition toy_KMeans_fit (d : nat) (n_clusters : Z) (X : matrix)
  : result (list Z * list (list Q)) :=
  if (n_clusters <? 1)%Z || (Z.of_nat (length X) <? n_clusters)%Z
  then Raise ValueError
  else Ok (map (fun row => (Qfloor (hd 0%Q row) mod n_clusters)%Z) X,
           map (fun c => repeat (inject_Z c) (length (hd [] X)))
               (py_range 0 n_clusters)).

(** A matrix whose rows the stand-in labels as given. *)
Definition snapshot (labels : list Z) : matrix :=
  map (fun l => inject_Z l :: repeat 0 (length labels - 1)) labels.

(** Random bits that split the first three positions from the others. *)
Definition split_bits (d i : nat) : bool := (3 <=? i)%nat.

Definition world0 : world := mkWorld 0 [].

Definition toy_diffusion (scoremat : matrix) (memory : bool) (diffs : list matrix)
  : list node -> list (node * node * Q) -> option Q -> Z -> option bool ->
    matrix * bool * list matrix :=
  fun _ _ _ _ _ => (scoremat, memory, diffs).

Definition no_perm_graph
  : nat -> Graph -> matrix -> Q -> Z -> list (nat * nat) -> list (nat * nat) ->
    Q -> result matrix :=
  fun _ _ scoremat _ _ _ _ _ => Ok scoremat.

Definition fuzzy_diffs : list matrix :=
  [snapshot [0; 0; 0; 1; 1; 1; 1]%Z;
   snapshot [0; 1; 0; 1; 0; 1; 0]%Z;
   snapshot [0; 0; 0; 1; 1; 1; 1]%Z;
   snapshot [0; 0; 0; 1; 1; 1; 1]%Z;
   snapshot [0; 0; 0; 1; 1; 1; 0]%Z].

Definition hub_triangle : Graph :=
  {| nodes := [1; 2; 3]%Z;
     edges := [wedge 1 2 1; wedge 2 3 1; wedge 1 3 (-1)];
     cluster_attr := [] |}.

Definition hub_scoremat : matrix :=
  [[0; 5; -3]; [5; 0; 1]; [-3; 1; 0]].

(** The scores of the snapshots of [fuzzy_diffs] on the pendant graph. *)
Definition fuzzy_world1 : world :=
  Eval vm_compute in
    fst (score_snapshots no_swaps toy_KMeans_fit pendant_graph
                         (make_rev_index pendant_graph) fuzzy_diffs 0 2 2
                         "KMeans" [] [] None world0).

Definition fuzzy_difscores : list Q :=
  Eval vm_compute in
    match snd (score_snapshots no_swaps toy_KMeans_fit pendant_graph
                               (make_rev_index pendant_graph) fuzzy_diffs 0 2 2
                               "KMeans" [] [] None world0) with
    | Ok scored => fst scored
    | Raise _ => []
    end.

Definition fuzzy_topscores : list Z :=
  Eval vm_compute in
    match snd (score_snapshots no_swaps toy_KMeans_fit pendant_graph
                               (make_rev_index pendant_graph) fuzzy_diffs 0 2 2
                               "KMeans" [] [] None world0) with
    | Ok scored => snd scored
    | Raise _ => []
    end.

(** Five identical snapshots with two clear clusters, and a k-means
    stand-in that finds the same two clusters in every fit but numbers
    them the other way round in the fits made at draws 6 and 8. *)
Definition stable_diffs : list matrix :=
  repeat (snapshot [0; 0; 0; 1; 1; 1]%Z) 5.

Definition renumbering_KMeans_fit (d : nat) (n_clusters : Z) (X : matrix)
  : result (list Z * list (list Q)) :=
  match toy_KMeans_fit d n_clusters X with
  | Ok fitted =>
      if Nat.eqb d 6 || Nat.eqb d 8
      then Ok (map (fun l => (n_clusters - 1 - l)%Z) (fst fitted),
               rev (snd fitted))
      else Ok fitted
  | Raise e => Raise e
  end.

(** ** Notions used to state the properties *)

(** The position of a node in [graph.nodes], and the cluster an assignment
    vector gives to a node. *)
Fixpoint position (u : node) (ns : list node) : option nat :=
  match ns with
  | [] => None
  | n :: rest => if (n =? u)%Z then Some 0%nat else option_map S (position u rest)
  end.

Definition cluster_of (graph : Graph) (clusters : list Z) (u : node) : option Z :=
  match position u (nodes graph) with
  | Some i => nth_error clusters i
  | None => None
  end.

(** An edge is inside a cluster when both endpoints have the same cluster
    id, and a cut edge otherwise. *)
Definition inside (graph : Graph) (clusters : list Z) (e : edge) : bool :=
  match cluster_of graph clusters (endpoint1 e),
        cluster_of graph clusters (endpoint2 e) with
  | Some a, Some b => (a =? b)%Z
  | _, _ => false
  end.

(** The per-edge unit [1/|E|]. *)
Definition per_edge_unit (graph : Graph) : Q :=
  1 / inject_Z (Z.of_nat (length (edges graph))).

Definition inside_term (unit w : Q) : Q := if Qltb w 0 then unit else - unit.
Definition cut_term (unit w : Q) : Q := if Qltb 0 w then unit else - unit.

(** The term one edge contributes to the sparsity score. *)
Definition edge_term (graph : Graph) (clusters : list Z) (e : edge) : Q :=
  if inside graph clusters e
  then inside_term (per_edge_unit graph) (weight e)
  else cut_term (per_edge_unit graph) (weight e).

(** The node identifiers of cluster [c] (lines 204-205). *)
Definition cluster_nodes (graph : Graph) (clusters : list Z) (c : Z)
  : list node :=
  map (rev_index_get (make_rev_index graph)) (np_where_eq clusters c).

(** Both endpoints of the edge lie in cluster [c]. *)
Definition in_cluster (graph : Graph) (clusters : list Z) (c : Z) (e : edge)
  : bool :=
  mem_node (endpoint1 e) (cluster_nodes graph clusters c)
  && mem_node (endpoint2 e) (cluster_nodes graph clusters c).

(** The world after the random baseline has been drawn and its score
    written (lines 323-327). *)
Definition after_baseline (w : world) (score0 : Q) : world :=
  mkWorld (S (draws w)) (stdout w ++ [RandomSparsity score0]).

(** The random assignment [np.random.randint] gives in world [w]. *)
Definition randomclust_of (random_bit : nat -> nat -> bool) (w : world)
           (scoremat : matrix) : list Z :=
  map (fun i => if random_bit (draws w) i then 1%Z else 0%Z)
      (seq 0 (length scoremat)).

(** A run that ends in an exception. *)
Definition raises {A} (r : world * result A) : Prop :=
  exists e, snd r = Raise e.

(** The ['hub'] values [central_edge] computes without permutations
    (lines 105-108 and 121-132), and the score matrix it computes them
    from (line 104). *)
Definition hub_values (graph : Graph) (scoremat : matrix) (percentile : Q)
  : result (list (node * node * hub_label)) :=
  flagged <-? hub_positions scoremat percentile ;;
  labelled <-? label_hubs graph (make_adj_index graph) None negative_hub
                 (snd (fst flagged)) [] [] ;;
  labelled <-? label_hubs graph (make_adj_index graph) None positive_hub
                 (snd flagged) (fst labelled) (snd labelled) ;;
  Ok (fst labelled).

Definition central_scoremat
           (diffusion : list node -> list (node * node * Q) -> option Q -> Z ->
                        option bool -> matrix * bool * list matrix)
           (graph : Graph) : matrix :=
  fst (fst (diffusion (nodes graph) (weighted_edges graph) None 3%Z
                      (Some false))).

(** The score matrix has no position beyond the nodes of the graph. *)
Definition fits_nodes (graph : Graph) (scoremat : matrix) : bool :=
  (length scoremat <=? length (nodes graph))%nat
  && forallb (fun row => (length row <=? length (nodes graph))%nat) scoremat.

(** The ['hub'] attribute of an edge after the entries of [values] have
    been written in order. *)
Definition final_hub (values : list (node * node * hub_label)) (e : edge)
           (h : option hub_label) : option hub_label :=
  fold_left (fun h kv =>
               if connects (fst (fst kv)) (snd (fst kv)) e
               then Some (snd kv) else h)
            values h.

Definition relabel (values : list (node * node * hub_label)) (e : edge)
  : edge :=
  mkEdge (endpoint1 e) (endpoint2 e) (weight e)
         (final_hub values e (hub e)) (reliability_score e).

(** The centroid matching [clusdict] maps cluster [label] of the [j]-th
    earlier snapshot to cluster [core] of the final snapshot. *)
Definition matched (clusdict : clusdict_t) (core : Z) (j : nat) (label : Z)
  : bool :=
  (0 <=? core)%Z
  && existsb (fun m => (label =? Z.of_nat m)%Z)
             (nth j (nth (Z.to_nat core) clusdict []) []).

(** For node [i]: whether its cluster in the [j]-th earlier snapshot maps
    to its cluster in the final snapshot (the last of [sep_clusters]);
    the number of earlier snapshots where it does; and the stability
    fraction, taken as 0 when there is no earlier snapshot. *)
Definition stable_at (sep_clusters : list (list Z)) (clusdict : clusdict_t)
           (i j : nat) : bool :=
  matched clusdict (nth i (last sep_clusters []) 0%Z) j
          (nth i (nth j sep_clusters []) 0%Z).

Definition stable_count (sep_clusters : list (list Z)) (clusdict : clusdict_t)
           (i : nat) : nat :=
  length (filter (stable_at sep_clusters clusdict i)
                 (seq 0 (length sep_clusters - 1))).

Definition stability_fraction (sep_clusters : list (list Z))
           (clusdict : clusdict_t) (i : nat) : Q :=
  match (length sep_clusters - 1)%nat with
  | O => 0
  | S _ => inject_Z (Z.of_nat (stable_count sep_clusters clusdict i))
           / inject_Z (Z.of_nat (length sep_clusters - 1))
  end.

(** An edge the score penalises: a negative edge inside a cluster or a
    positive cut edge (lines 211-212 and 223-224); the others are
    rewarded. *)
Definition penalised (graph : Graph) (clusters : list Z) (e : edge) : bool :=
  if inside graph clusters e then Qltb (weight e) 0 else Qltb 0 (weight e).

(** Lines 291-294: the cluster of the final snapshot to which a centroid
    [iter] of an earlier snapshot is matched, [diff.index(min(diff))]. *)
Definition nearest_core (core_centers : list (list Q)) (iter : list Q)
  : result nat :=
  diff <-? center_diffs iter core_centers ;;
  lowest <-? py_min diff ;;
  list_index lowest diff.

(** The key [(node1, node2)] that lines 122-123 compute for a matrix
    position, and whether some position of [hubs] gives the key [key]. *)
Definition hub_key (graph_nodes : list node) (position : nat * nat)
  : option (node * node) :=
  match nth_error graph_nodes (fst position),
        nth_error graph_nodes (snd position) with
  | Some node1, Some node2 => Some (node1, node2)
  | _, _ => None
  end.

Definition in_keys (graph_nodes : list node) (hubs : list (nat * nat))
           (key : node * node) : bool :=
  existsb (fun ab => match hub_key graph_nodes ab with
                     | Some k => key_eqb k key
                     | None => false
                     end) hubs.

(** A list in ascending order. *)
Fixpoint ascending (l : list Q) : Prop :=
  match l with
  | [] => True
  | x :: rest => Forall (Qle x) rest /\ ascending rest
  end.

(** [rev_index = {v: k for k, v in adj_index.items()}] (line 63), as the
    dictionary comprehension builds it. *)
Definition invert_index (adj_index : list (node * nat)) : list (nat * node) :=
  fold_left (fun rev_index kv => dict_set Nat.eqb rev_index (snd kv) (fst kv))
            adj_index [].

(** Lines 64-76 of [cluster_graph]: the diffusion and the strategy the
    memory flag selects. *)
Definition select_clusters
           (view_swaps : list node -> node -> node -> bool)
           (KMeans_fit : nat -> Z -> matrix -> result (list Z * list (list Q)))
           (random_bit : nat -> nat -> bool)
           (diffusion : list node -> list (node * node * Q) -> option Q -> Z ->
                        option bool -> matrix * bool * list matrix)
           (graph : Graph) (limit : Q)
           (max_clusters min_clusters iterations : Z) (cluster : string)
  : M (list Z) :=
  let rev_index := make_rev_index graph in
  let diffused := diffusion (nodes graph) (weighted_edges graph) (Some limit)
                            iterations None in
  if negb (snd (fst diffused))
  then cluster_hard view_swaps KMeans_fit random_bit graph rev_index
                    (fst (fst diffused)) max_clusters min_clusters cluster
  else cluster_fuzzy view_swaps KMeans_fit graph rev_index (snd diffused)
                     max_clusters min_clusters cluster.

(** ** central_node (lines 138-172) *)

(** The node attributes [hub] and [hub p-value] of a graph. *)
Record node_hubs : Type := mkNodeHubs {
  node_hub : list (node * string);
  node_hub_pvalue : list (node * Q)
}.

Definition has_hub (e : edge) : bool :=
  match hub e with
  | Some _ => true
  | None => false
  end.

(** [nx.get_edge_attributes(graph, "hub")]: the edges that carry a [hub]
    attribute, keyed by their endpoints. *)
Definition get_edge_attributes_hub (graph : Graph)
  : list (node * node * hub_label) :=
  flat_map (fun e => match hub e with
                     | Some h => [(edge_key e, h)]
                     | None => []
                     end)
           (edges graph).

Definition incident (n : node) (e : edge) : bool :=
  (endpoint1 e =? n)%Z || (endpoint2 e =? n)%Z.

(** [graph[node]]: the edges at [node], one for each neighbour; [KeyError]
    for a node that is not in the graph. *)
Definition graph_getitem (graph : Graph) (n : node) : result (list edge) :=
  if mem_node n (nodes graph)
  then Ok (filter (incident n) (edges graph))
  else Raise KeyError.

(** [a / b] on two lengths. *)
Definition len_div (a b : nat) : result Q :=
  match b with
  | O => Raise ZeroDivisionError
  | S _ => Ok (inject_Z (Z.of_nat a) / inject_Z (Z.of_nat b))
  end.

(** Lines 150-154: the endpoints of the hub edges; the order of
    [list(set(hubs))] is unspecified, one enumeration is fixed here. *)
Definition hub_endpoints (edges_hub : list (node * node * hub_label))
  : list node :=
  nodup Z.eq_dec
        (flat_map (fun kv => [fst (fst kv); snd (fst kv)]) edges_hub).

(** Lines 158-161. *)
Definition count_hub_edges (adj : list edge) : nat :=
  fold_left (fun hub_edges e => if has_hub e then S hub_edges else hub_edges)
            adj 0%nat.

(** [nx.set_node_attributes(graph, values, name)] on the attribute [name]
    of the nodes: a key that is not a node of the graph is skipped. *)
Definition set_node_attributes {V} (graph : Graph)
           (values attrs : list (node * V)) : list (node * V) :=
  fold_left (fun attrs kv =>
               if mem_node (fst kv) (nodes graph)
               then dict_set Z.eqb attrs (fst kv) (snd kv)
               else attrs)
            values attrs.

Section Significance.

(** Modelled from the documentation of the library:
    [scipy.stats.binom_test(x, n, p, alternative='greater')] is not part of
    this module.  It raises [ValueError] unless [x <= n] and
    [0 <= p <= 1]; otherwise it returns the probability [binom_sf x n p]
    of at least [x] successes in [n] trials of success probability [p]. *)
Variable binom_sf : nat -> nat -> Q -> Q.

Definition binom_test (x n : nat) (p : Q) : result Q :=
  if (n <? x)%nat then Raise ValueError
  else if Qltb 1 p || Qltb p 0 then Raise ValueError
  else Ok (binom_sf x n p).

(** Lines 157-170: the loop over the endpoints of the hub edges. *)
Fixpoint test_hubs (graph : Graph) (len_edges : nat) (hubs : list node)
         (sighubs : list (node * string)) (pvals : list (node * Q))
  : result (list (node * string) * list (node * Q)) :=
  match hubs with
  | [] => Ok (sighubs, pvals)
  | n :: rest =>
      adj <-? graph_getitem graph n ;;
      let hub_edges := count_hub_edges adj in
      p <-? len_div len_edges (length (edges graph)) ;;
      pval <-? binom_test hub_edges (length adj) p ;;
      if Qltb pval (5 # 100)
      then test_hubs graph len_edges rest
                     (dict_set Z.eqb sighubs n "hub"%string)
                     (dict_set Z.eqb pvals n pval)
      else test_hubs graph len_edges rest sighubs pvals
  end.

(** [central_node] changes the two node attributes of the graph and
    returns nothing: the attributes before the call are an argument, the
    attributes after it the result. *)
Definition central_node (graph : Graph) (attrs : node_hubs)
  : result node_hubs :=
  let edges := get_edge_attributes_hub graph in
  let hubs := hub_endpoints edges in
  tested <-? test_hubs graph (length edges) hubs [] [] ;;
  Ok {| node_hub := set_node_attributes graph (fst tested) (node_hub attrs);
        node_hub_pvalue :=
          set_node_attributes graph (snd tested) (node_hub_pvalue attrs) |}.

End Significance.

(** A star of five hub edges around node 0 in a graph of twenty edges, and
    the exact binomial tail as a stand-in for the test. *)
Definition star_graph : Graph :=
  {| nodes := map Z.of_nat (seq 0 21);
     edges := map (fun i => mkEdge 0%Z (Z.of_nat i) 1 (Some positive_hub) None)
                  (seq 1 5)
              ++ map (fun i => wedge (Z.of_nat i) (Z.of_nat (S i)) 1)
                     (seq 5 15);
     cluster_attr := [] |}.

Definition choose (n k : nat) : Z :=
  (Z.of_nat (fact n) / (Z.of_nat (fact k) * Z.of_nat (fact (n - k))))%Z.

Definition exact_binom_sf (x n : nat) (p : Q) : Q :=
  Qsum (map (fun k => inject_Z (choose n k) * p ^ Z.of_nat k
                      * (1 - p) ^ Z.of_nat (n - k))
            (seq x (S n - x))).

(** The quantities [central_node] hands to the test for a node, and the
    nodes it labels. *)
Definition degree (graph : Graph) (n : node) : nat :=
  length (filter (incident n) (edges graph)).

Definition hub_degree (graph : Graph) (n : node) : nat :=
  length (filter has_hub (filter (incident n) (edges graph))).

Definition hub_ratio (graph : Graph) : Q :=
  inject_Z (Z.of_nat (length (filter has_hub (edges graph))))
  / inject_Z (Z.of_nat (length (edges graph))).

Definition node_pvalue (binom_sf : nat -> nat -> Q -> Q) (graph : Graph)
           (n : node) : Q :=
  binom_sf (hub_degree graph n) (degree graph n) (hub_ratio graph).

Definition touches_hub_edge (graph : Graph) (n : node) : bool :=
  existsb (fun e => has_hub e && incident n e) (edges graph).

Definition significant (binom_sf : nat -> nat -> Q -> Q) (graph : Graph)
           (n : node) : bool :=
  touches_hub_edge graph n && Qltb (node_pvalue binom_sf graph n) (5 # 100).

(** What [central_edge] without permutations decides of an edge. *)
Definition labelled_edge (e : edge) : node * node * Q * option hub_label :=
  (endpoint1 e, endpoint2 e, weight e, hub e).






(** A path of nine edges of weight -1. *)
Definition nine_edge_path : Graph :=
  {| nodes := map Z.of_nat (seq 0 10);
     edges := map (fun i => wedge (Z.of_nat i) (Z.of_nat (S i)) (-1))
                  (seq 0 9);
     cluster_attr := [] |}.

(** The binary64 per-edge unit, and the running binary64 sum of one term
    per edge of [order], started at 0: the unit is added for a penalised
    edge and subtracted for a rewarded one. *)
Definition binary64_unit (graph : Graph) : Binary64.float :=
  Binary64.div (Binary64.of_nat 1) (Binary64.of_nat (length (edges graph))).

Definition binary64_sum (graph : Graph) (clusters : list Z)
           (order : list edge) : Binary64.float :=
  fold_left (fun sparsity e =>
               if penalised graph clusters e
               then Binary64.add sparsity (binary64_unit graph)
               else Binary64.sub sparsity (binary64_unit graph))
            order (Binary64.of_nat 0).

(** Lines 297-301 for one node in binary64: [clusprobs[i]] starts at 0.0
    and the binary64 quotient [1/(len(sep_clusters)-1)] is added for every
    earlier snapshot in which the test of line 300 holds; [stable] lists
    the outcomes of the test in the order of the snapshots. *)
Definition binary64_clusprob (earlier : nat) (stable : list bool)
  : Binary64.float :=
  fold_left (fun prob (st : bool) =>
               if st
               then Binary64.add prob
                                 (Binary64.div (Binary64.of_nat 1)
                                               (Binary64.of_nat earlier))
               else prob)
            stable (Binary64.of_nat 0).

(** * Properties *)

(** ** Comparisons and membership *)

Lemma Qltb_lt (x y : Q) : Qltb x y = true <-> x < y.
Proof.
  unfold Qltb. rewrite negb_true_iff. split; intro H.
  - apply Qnot_le_lt. intro L. apply Qle_bool_iff in L. congruence.
  - destruct (Qle_bool y x) eqn:E; trivial.
    apply Qle_bool_iff in E. apply Qlt_not_le in H. contradiction.
Qed.

Lemma Qltb_ge (x y : Q) : Qltb x y = false <-> y <= x.
Proof.
  unfold Qltb. rewrite negb_false_iff. apply Qle_bool_iff.
Qed.

Lemma key_eqb_eq (a b : node * node) : key_eqb a b = true <-> a = b.
Proof.
  destruct a as [a1 a2], b as [b1 b2]. unfold key_eqb; simpl.
  rewrite andb_true_iff, !Z.eqb_eq. split.
  - intros [-> ->]; reflexivity.
  - intro H; inversion H; auto.
Qed.

Lemma mem_node_In (n : node) (l : list node) : mem_node n l = true <-> In n l.
Proof.
  unfold mem_node. rewrite existsb_exists. split.
  - intros [x [Hx E]]. apply Z.eqb_eq in E. subst; assumption.
  - intro H. exists n. split; [assumption | apply Z.eqb_refl].
Qed.

Lemma mem_key_In (k : node * node) (l : list (node * node)) :
  mem_key k l = true <-> In k l.
Proof.
  unfold mem_key. rewrite existsb_exists. split.
  - intros [x [Hx E]]. apply key_eqb_eq in E. subst; assumption.
  - intro H. exists k. split; [assumption | now apply key_eqb_eq].
Qed.

Lemma connects_iff (u v : node) (e : edge) :
  connects u v e = true <->
  edge_key e = (u, v) \/ edge_key e = (v, u).
Proof.
  unfold connects. rewrite orb_true_iff, !key_eqb_eq. reflexivity.
Qed.

Lemma connects_self (e : edge) : connects (endpoint1 e) (endpoint2 e) e = true.
Proof. apply connects_iff. left. reflexivity. Qed.

(** ** Sums of rationals *)


Lemma Qsum_map_plus {A} (f g : A -> Q) (l : list A) :
  Qsum (map (fun x => f x + g x) l) == Qsum (map f l) + Qsum (map g l).
Proof.
  induction l as [|x l IH]; simpl.
  - lra.
  - rewrite IH. lra.
Qed.

Lemma Qsum_map_ext {A} (f g : A -> Q) (l : list A) :
  (forall x, In x l -> f x == g x) ->
  Qsum (map f l) == Qsum (map g l).
Proof.
  induction l as [|x l IH]; simpl; intro H.
  - reflexivity.
  - rewrite (H x) by (left; reflexivity).
    rewrite IH by (intros; apply H; right; assumption). reflexivity.
Qed.

Lemma Qsum_map_zero {A} (l : list A) : Qsum (map (fun _ => 0) l) == 0.
Proof.
  induction l as [|x l IH]; simpl; [reflexivity | rewrite IH; lra].
Qed.

Lemma Qsum_bounded {A} (f : A -> Q) (c : Q) (l : list A) :
  (forall x, In x l -> - c <= f x <= c) ->
  - (inject_Z (Z.of_nat (length l)) * c) <= Qsum (map f l)
  /\ Qsum (map f l) <= inject_Z (Z.of_nat (length l)) * c.
Proof.
  induction l as [|x l IH]; intro H.
  - cbn [length map Qsum]. change (inject_Z (Z.of_nat 0)) with 0. lra.
  - destruct (H x (or_introl eq_refl)) as [L U].
    destruct IH as [L' U']; [intros; apply H; right; assumption|].
    cbn [length map Qsum].
    rewrite Nat2Z.inj_succ. unfold Z.succ. rewrite inject_Z_plus.
    change (inject_Z 1) with 1. split; nra.
Qed.

(** A sum in which at most one index contributes. *)
Lemma Qsum_single (p : Z -> bool) (t : Q) (ids : list Z) (c0 : Z) :
  NoDup ids ->
  (forall c, In c ids -> p c = true -> c = c0) ->
  Qsum (map (fun c => if p c then t else 0) ids)
  == if existsb p ids then t else 0.
Proof.
  induction ids as [|c ids IH]; intros ND H; simpl.
  - reflexivity.
  - inversion ND as [|? ? Hnotin ND']; subst.
    destruct (p c) eqn:Pc; simpl.
    + assert (c = c0) by (apply H; [left; reflexivity | assumption]). subst c.
      assert (Z : Qsum (map (fun c => if p c then t else 0) ids) == 0).
      { rewrite <- (Qsum_map_zero ids). apply Qsum_map_ext.
        intros x Hx. destruct (p x) eqn:Px; [|reflexivity].
        exfalso. apply Hnotin.
        rewrite <- (H x (or_intror Hx) Px). assumption. }
      rewrite Z. lra.
    + rewrite IH; [lra | assumption |].
      intros; apply H; [right|]; assumption.
Qed.

(** ** Positions, cluster ids and the nodes of a cluster *)

Lemma np_where_eq_from_In (k : nat) (clusters : list Z) (c : Z) (i : nat) :
  In i (np_where_eq_from k clusters c) <->
  exists j, i = (k + j)%nat /\ nth_error clusters j = Some c.
Proof.
  revert k. induction clusters as [|x clusters IH]; intro k; simpl.
  - split; [tauto | intros [[|j] [_ H]]; discriminate].
  - assert (Hrec : In i (np_where_eq_from (S k) clusters c) <->
                   exists j, i = (k + S j)%nat /\ nth_error clusters j = Some c).
    { rewrite IH. split; intros [j [E H]]; exists j; split; trivial; lia. }
    destruct (Z.eqb_spec x c) as [->|Hne]; simpl; rewrite Hrec; split.
    + intros [<- | [j [E H]]].
      * exists 0%nat. split; [lia | reflexivity].
      * exists (S j). split; assumption.
    + intros [[|j] [E H]].
      * left. lia.
      * right. exists j. split; assumption.
    + intros [j [E H]]. exists (S j). split; assumption.
    + intros [[|j] [E H]].
      * simpl in H. congruence.
      * exists j. split; assumption.
Qed.

Lemma rev_index_get_combine (ns : list node) (k j : nat) (u : node) :
  nth_error ns j = Some u ->
  rev_index_get (combine (seq k (length ns)) ns) (k + j) = u.
Proof.
  revert k j. induction ns as [|n ns IH]; intros k j H.
  - destruct j; discriminate.
  - unfold rev_index_get. simpl. destruct j as [|j]; simpl in H.
    + replace (k + 0)%nat with k by lia. rewrite Nat.eqb_refl. simpl. congruence.
    + destruct (Nat.eqb_spec k (k + S j)) as [E|_]; [lia|].
      replace (k + S j)%nat with (S k + j)%nat by lia.
      apply (IH (S k) j H).
Qed.

Lemma cluster_nodes_In (graph : Graph) (clusters : list Z) (c : Z) (u : node) :
  length clusters = length (nodes graph) ->
  In u (cluster_nodes graph clusters c) <->
  exists j, nth_error clusters j = Some c /\ nth_error (nodes graph) j = Some u.
Proof.
  intro Hlen. unfold cluster_nodes, make_rev_index, np_where_eq.
  rewrite in_map_iff. split.
  - intros [i [Hget Hin]]. apply np_where_eq_from_In in Hin.
    destruct Hin as [j [-> Hj]]. exists j. split; [assumption|].
    assert (Hlt : (j < length (nodes graph))%nat).
    { rewrite <- Hlen. apply nth_error_Some. congruence. }
    destruct (nth_error (nodes graph) j) as [u'|] eqn:E.
    + rewrite (rev_index_get_combine _ 0%nat j _ E) in Hget. congruence.
    + apply nth_error_None in E. lia.
  - intros [j [Hc Hu]]. exists j. split.
    + apply (rev_index_get_combine _ 0%nat j _ Hu).
    + apply np_where_eq_from_In. exists j. split; [reflexivity | assumption].
Qed.

Lemma position_nth (u : node) (ns : list node) (i : nat) :
  position u ns = Some i -> nth_error ns i = Some u.
Proof.
  revert i. induction ns as [|n ns IH]; intros i H; simpl in H.
  - discriminate.
  - destruct (Z.eqb_spec n u) as [->|Hne].
    + inversion H. reflexivity.
    + destruct (position u ns) as [j|]; [|discriminate].
      inversion H. simpl. apply IH. reflexivity.
Qed.

Lemma nth_position (u : node) (ns : list node) (i : nat) :
  distinct_nodes ns = true ->
  nth_error ns i = Some u -> position u ns = Some i.
Proof.
  revert i. induction ns as [|n ns IH]; intros i D H.
  - destruct i; discriminate.
  - simpl in D. apply andb_true_iff in D. destruct D as [Dn D].
    destruct i as [|i]; simpl in H |- *.
    + inversion H. rewrite Z.eqb_refl. reflexivity.
    + destruct (Z.eqb_spec n u) as [->|Hne].
      * apply nth_error_In in H. apply mem_node_In in H.
        rewrite H in Dn. discriminate.
      * rewrite (IH i D H). reflexivity.
Qed.

Lemma cluster_nodes_cluster_of (graph : Graph) (clusters : list Z) (c : Z)
      (u : node) :
  distinct_nodes (nodes graph) = true ->
  length clusters = length (nodes graph) ->
  mem_node u (cluster_nodes graph clusters c) = true <->
  cluster_of graph clusters u = Some c.
Proof.
  intros D Hlen. rewrite mem_node_In, (cluster_nodes_In _ _ _ _ Hlen).
  unfold cluster_of. split.
  - intros [j [Hc Hu]]. rewrite (nth_position _ _ _ D Hu). assumption.
  - destruct (position u (nodes graph)) as [i|] eqn:E; [|discriminate].
    intro Hc. exists i. split; [assumption | apply position_nth; assumption].
Qed.

Lemma in_cluster_iff (graph : Graph) (clusters : list Z) (c : Z) (e : edge) :
  distinct_nodes (nodes graph) = true ->
  length clusters = length (nodes graph) ->
  in_cluster graph clusters c e = true <->
  cluster_of graph clusters (endpoint1 e) = Some c
  /\ cluster_of graph clusters (endpoint2 e) = Some c.
Proof.
  intros D Hlen. unfold in_cluster. rewrite andb_true_iff.
  rewrite !(cluster_nodes_cluster_of _ _ _ _ D Hlen). reflexivity.
Qed.

Lemma cluster_of_In (graph : Graph) (clusters : list Z) (u : node) (c : Z) :
  cluster_of graph clusters u = Some c -> In c (py_set clusters).
Proof.
  unfold cluster_of, py_set. destruct (position u (nodes graph)); [|discriminate].
  intro H. apply nodup_In. eapply nth_error_In; eassumption.
Qed.

Lemma in_cluster_inside (graph : Graph) (clusters : list Z) (e : edge) :
  distinct_nodes (nodes graph) = true ->
  length clusters = length (nodes graph) ->
  existsb (fun c => in_cluster graph clusters c e) (py_set clusters)
  = inside graph clusters e.
Proof.
  intros D Hlen. apply eq_true_iff_eq. rewrite existsb_exists. unfold inside.
  split.
  - intros [c [_ H]]. apply (in_cluster_iff _ _ _ _ D Hlen) in H.
    destruct H as [-> ->]. apply Z.eqb_refl.
  - destruct (cluster_of graph clusters (endpoint1 e)) as [a|] eqn:Ea;
      [|discriminate].
    destruct (cluster_of graph clusters (endpoint2 e)) as [b|] eqn:Eb;
      [|discriminate].
    intro H. apply Z.eqb_eq in H. subst b. exists a. split.
    + eapply cluster_of_In; eassumption.
    + apply (in_cluster_iff _ _ _ _ D Hlen). split; assumption.
Qed.

(** ** The loops of sparsity_score *)

Lemma filter_map_comm {A B} (p : B -> bool) (f : A -> B) (l : list A) :
  filter p (map f l) = map f (filter (fun a => p (f a)) l).
Proof.
  induction l as [|a l IH]; simpl; [reflexivity|].
  destruct (p (f a)); simpl; rewrite IH; reflexivity.
Qed.

Lemma score_inside_sum (cut_score : Q) (weights : list Q) (sparsity : Q) :
  score_inside cut_score weights sparsity
  == sparsity + Qsum (map (inside_term cut_score) weights).
Proof.
  unfold score_inside. revert sparsity.
  induction weights as [|w ws IH]; intro sp; simpl.
  - lra.
  - rewrite IH. unfold inside_term. destruct (Qltb w 0); lra.
Qed.

Section SparsityLoops.

Variable view_swaps : list node -> node -> node -> bool.
Variable graph : Graph.
Variable clusters : list Z.

Let view (c : Z) (e : edge) : edge :=
  if view_swaps (cluster_nodes graph clusters c) (endpoint1 e) (endpoint2 e)
  then flip_edge e else e.

Lemma subgraph_edges (c : Z) :
  edges (subgraph view_swaps graph (cluster_nodes graph clusters c))
  = map (view c) (filter (in_cluster graph clusters c) (edges graph)).
Proof. reflexivity. Qed.

Lemma view_weight (c : Z) (e : edge) : weight (view c e) = weight e.
Proof. unfold view. destruct (view_swaps _ _ _); reflexivity. Qed.

Lemma view_key (c : Z) (e : edge) :
  edge_key (view c e) = edge_key e
  \/ edge_key (view c e) = swap_key (edge_key e).
Proof. unfold view. destruct (view_swaps _ _ _); [right | left]; reflexivity. Qed.

Lemma fold_clusters (cut_score : Q) (ids : list Z)
      (acc : Q * list (node * node)) :
  fst (fold_left (score_cluster view_swaps graph clusters
                                (make_rev_index graph) cut_score) ids acc)
  == fst acc
     + Qsum (map (fun c =>
                    Qsum (map (fun e => inside_term cut_score (weight e))
                              (filter (in_cluster graph clusters c)
                                      (edges graph)))) ids)
  /\ snd (fold_left (score_cluster view_swaps graph clusters
                                   (make_rev_index graph) cut_score) ids acc)
     = snd acc
       ++ flat_map (fun c =>
                      map edge_key
                          (edges (subgraph view_swaps graph
                                           (cluster_nodes graph clusters c))))
                   ids.
Proof.
  revert acc. induction ids as [|c ids IH]; intro acc.
  - simpl. split; [lra | rewrite app_nil_r; reflexivity].
  - cbn [fold_left flat_map map Qsum].
    destruct (IH (score_cluster view_swaps graph clusters
                                (make_rev_index graph) cut_score acc c))
      as [Hs He].
    split.
    + rewrite Hs. unfold score_cluster at 1. cbn [fst].
      rewrite score_inside_sum.
      change (map (rev_index_get (make_rev_index graph))
                  (np_where_eq clusters c))
        with (cluster_nodes graph clusters c).
      rewrite subgraph_edges, !map_map.
      rewrite (Qsum_map_ext
                 (fun x => inside_term cut_score (weight (view c x)))
                 (fun e => inside_term cut_score (weight e))).
      * lra.
      * intros x _. rewrite view_weight. reflexivity.
    + rewrite He. unfold score_cluster at 1. cbn [snd].
      rewrite <- app_assoc. reflexivity.
Qed.

Hypothesis nodes_distinct : distinct_nodes (nodes graph) = true.
Hypothesis clusters_length : length clusters = length (nodes graph).

Lemma seen_inside (e : edge) :
  In e (edges graph) ->
  let edges_seen :=
    flat_map (fun c =>
                map edge_key
                    (edges (subgraph view_swaps graph
                                     (cluster_nodes graph clusters c))))
             (py_set clusters) in
  negb (mem_key (edge_key e) edges_seen)
  && negb (mem_key (swap_key (edge_key e)) edges_seen)
  = negb (inside graph clusters e).
Proof.
  intros He es. rewrite <- negb_orb. f_equal.
  apply eq_true_iff_eq. rewrite orb_true_iff, !mem_key_In.
  rewrite <- (in_cluster_inside graph clusters e nodes_distinct clusters_length).
  rewrite existsb_exists. unfold es. rewrite !in_flat_map. split.
  - assert (Hboth : forall k, (k = edge_key e \/ k = swap_key (edge_key e)) ->
             (exists c, In c (py_set clusters) /\
                In k (map edge_key
                          (edges (subgraph view_swaps graph
                                     (cluster_nodes graph clusters c))))) ->
             exists c, In c (py_set clusters)
                       /\ in_cluster graph clusters c e = true).
    { intros k Hk [c [Hc Hin]]. exists c. split; [assumption|].
      rewrite subgraph_edges, map_map in Hin.
      apply in_map_iff in Hin. destruct Hin as [e' [Hkey Hf]].
      apply filter_In in Hf. destruct Hf as [_ Hin'].
      unfold in_cluster in Hin' |- *.
      apply andb_true_iff in Hin'. destruct Hin' as [H1 H2].
      assert (Hk' : edge_key e' = edge_key e
                    \/ edge_key e' = swap_key (edge_key e)).
      { destruct (view_key c e') as [V|V]; rewrite V in Hkey;
          destruct Hk as [Hk|Hk]; subst k.
        - left; assumption.
        - right; assumption.
        - right. unfold swap_key in *. destruct (edge_key e'), (edge_key e).
          simpl in *. inversion Hkey. reflexivity.
        - left. unfold swap_key in *. destruct (edge_key e'), (edge_key e).
          simpl in *. inversion Hkey. reflexivity. }
      unfold edge_key, swap_key in Hk'. simpl in Hk'.
      destruct Hk' as [Hk'|Hk']; inversion Hk' as [[Ha Hb]];
        rewrite <- ?Ha, <- ?Hb; rewrite ?H1, ?H2; reflexivity. }
    intros [H|H].
    + apply (Hboth (edge_key e)); [left; reflexivity | assumption].
    + apply (Hboth (swap_key (edge_key e))); [right; reflexivity | assumption].
  - intros [c [Hc Hin]].
    assert (Hv : In (edge_key (view c e))
                    (map edge_key
                         (edges (subgraph view_swaps graph
                                    (cluster_nodes graph clusters c))))).
    { rewrite subgraph_edges. apply in_map. apply in_map.
      apply filter_In. split; assumption. }
    destruct (view_key c e) as [V|V]; rewrite V in Hv.
    + left. exists c. split; assumption.
    + right. exists c. split; assumption.
Qed.

Lemma inside_sum_swap (t : edge -> Q) (l : list edge) :
  Qsum (map (fun c => Qsum (map t (filter (in_cluster graph clusters c) l)))
            (py_set clusters))
  == Qsum (map (fun e => if inside graph clusters e then t e else 0) l).
Proof.
  induction l as [|e l IH].
  - simpl. apply Qsum_map_zero.
  - cbn [map Qsum]. rewrite <- IH.
    rewrite <- (in_cluster_inside graph clusters e nodes_distinct
                                  clusters_length).
    destruct (cluster_of graph clusters (endpoint1 e)) as [c0|] eqn:E0.
    + rewrite <- (Qsum_single (fun c => in_cluster graph clusters c e)
                              (t e) (py_set clusters) c0).
      * rewrite <- Qsum_map_plus. apply Qsum_map_ext. intros c _.
        cbn [filter]. destruct (in_cluster graph clusters c e); simpl; lra.
      * apply NoDup_nodup.
      * intros c _ H.
        apply (in_cluster_iff graph clusters c e nodes_distinct
                              clusters_length) in H.
        destruct H as [H _]. congruence.
    + assert (Hno : forall c, in_cluster graph clusters c e = false).
      { intro c. destruct (in_cluster graph clusters c e) eqn:H; trivial.
        apply (in_cluster_iff graph clusters c e nodes_distinct
                              clusters_length) in H.
        destruct H as [H _]. congruence. }
      assert (Hex : existsb (fun c => in_cluster graph clusters c e)
                            (py_set clusters) = false).
      { apply not_true_is_false. intro H. apply existsb_exists in H.
        destruct H as [c [_ H]]. rewrite Hno in H. discriminate. }
      rewrite Hex.
      rewrite (Qsum_map_ext
                 (fun c => Qsum (map t (filter (in_cluster graph clusters c)
                                               (e :: l))))
                 (fun c => Qsum (map t (filter (in_cluster graph clusters c)
                                               l)))).
      * lra.
      * intros c _. cbn [filter]. rewrite Hno. reflexivity.
Qed.

End SparsityLoops.

Lemma connects_sym (e a : edge) :
  connects (endpoint1 e) (endpoint2 e) a
  = connects (endpoint1 a) (endpoint2 a) e.
Proof.
  apply eq_true_iff_eq. rewrite !connects_iff. unfold edge_key.
  split; intros [H|H]; inversion H; auto.
Qed.

Lemma find_own_edge (l : list edge) (e : edge) :
  simple_edges l = true -> In e l ->
  find (connects (endpoint1 e) (endpoint2 e)) l = Some e.
Proof.
  induction l as [|a l IH]; intros S Hin; [contradiction|].
  simpl in S. apply andb_true_iff in S. destruct S as [Sa S].
  apply negb_true_iff in Sa. simpl.
  destruct Hin as [->|Hin].
  - rewrite connects_self. reflexivity.
  - destruct (connects (endpoint1 e) (endpoint2 e) a) eqn:C.
    + exfalso. rewrite connects_sym in C.
      assert (H : existsb (connects (endpoint1 a) (endpoint2 a)) l = true).
      { apply existsb_exists. exists e. split; assumption. }
      congruence.
    + apply IH; assumption.
Qed.

Lemma graph_weight_own (graph : Graph) (e : edge) :
  simple_edges (edges graph) = true -> In e (edges graph) ->
  graph_weight graph (endpoint1 e) (endpoint2 e) = Some (weight e).
Proof.
  intros S Hin. unfold graph_weight. rewrite (find_own_edge _ _ S Hin).
  reflexivity.
Qed.

Lemma score_cuts_sum (graph : Graph) (cut_score : Q) (l : list edge)
      (sparsity : Q) :
  (forall e, In e l ->
             graph_weight graph (endpoint1 e) (endpoint2 e) = Some (weight e)) ->
  exists s, score_cuts graph cut_score (map edge_key l) sparsity = Ok s
            /\ s == sparsity
                    + Qsum (map (fun e => cut_term cut_score (weight e)) l).
Proof.
  revert sparsity. induction l as [|e l IH]; intros sp H.
  - exists sp. split; [reflexivity | simpl; lra].
  - cbn [map score_cuts edge_key fst snd].
    rewrite (H e (or_introl eq_refl)).
    destruct (IH (if Qltb 0 (weight e) then sp + cut_score else sp - cut_score))
      as [s [Hs Heq]]; [intros; apply H; right; assumption|].
    exists s. split; [exact Hs|].
    rewrite Heq. cbn [Qsum]. unfold cut_term at 2.
    destruct (Qltb 0 (weight e)); lra.
Qed.

Lemma split_sum {A} (p : A -> bool) (f g : A -> Q) (l : list A) :
  Qsum (map (fun e => if p e then f e else 0) l)
  + Qsum (map g (filter (fun e => negb (p e)) l))
  == Qsum (map (fun e => if p e then f e else g e) l).
Proof.
  induction l as [|e l IH]; simpl.
  - lra.
  - destruct (p e); simpl; lra.
Qed.

(** The score is the sum of one term per edge of the graph. *)
Lemma sparsity_score_sum view_swaps (graph : Graph) (clusters : list Z) :
  wf_graph graph = true ->
  (0 < length (edges graph))%nat ->
  length clusters = length (nodes graph) ->
  exists s,
    sparsity_score view_swaps graph clusters (make_rev_index graph) = Ok s
    /\ s == Qsum (map (edge_term graph clusters) (edges graph)).
Proof.
  intros WF Hpos Hlen. unfold wf_graph in WF.
  apply andb_true_iff in WF. destruct WF as [WF S].
  apply andb_true_iff in WF. destruct WF as [D _].
  unfold sparsity_score.
  destruct (length (edges graph)) as [|m] eqn:Em; [lia|].
  rewrite <- Em. fold (per_edge_unit graph).
  destruct (fold_clusters view_swaps graph clusters (per_edge_unit graph)
                          (py_set clusters) (0, [])) as [Hs He].
  cbv zeta. rewrite He. cbn [snd app].
  rewrite filter_map_comm.
  rewrite (filter_ext_in _ (fun e => negb (inside graph clusters e))).
  2:{ intros e Hin. apply (seen_inside view_swaps graph clusters D Hlen e Hin). }
  destruct (score_cuts_sum graph (per_edge_unit graph)
              (filter (fun e => negb (inside graph clusters e)) (edges graph))
              (fst (fold_left
                      (score_cluster view_swaps graph clusters
                                     (make_rev_index graph) (per_edge_unit graph))
                      (py_set clusters) (0, []))))
    as [s [Hrun Hval]].
  { intros e Hin. apply filter_In in Hin. destruct Hin as [Hin _].
    apply graph_weight_own; assumption. }
  exists s. split; [exact Hrun|].
  rewrite Hval, Hs. cbn [fst].
  rewrite (inside_sum_swap graph clusters D Hlen).
  rewrite <- (split_sum (inside graph clusters)
                        (fun e => inside_term (per_edge_unit graph) (weight e))
                        (fun e => cut_term (per_edge_unit graph) (weight e))).
  lra.
Qed.

Lemma per_edge_unit_pos (graph : Graph) :
  (0 < length (edges graph))%nat -> 0 < per_edge_unit graph.
Proof.
  intro H. unfold per_edge_unit. apply Qlt_shift_div_l.
  - change 0 with (inject_Z 0). rewrite <- Zlt_Qlt. lia.
  - rewrite Qmult_0_l. reflexivity.
Qed.

Lemma per_edge_unit_total (graph : Graph) :
  (0 < length (edges graph))%nat ->
  inject_Z (Z.of_nat (length (edges graph))) * per_edge_unit graph == 1.
Proof.
  intro H. unfold per_edge_unit. field.
  intro E.
  pose proof (proj1 (inject_Z_injective _ 0%Z) E) as E'. lia.
Qed.

Lemma edge_term_unit (graph : Graph) (clusters : list Z) (e : edge) :
  edge_term graph clusters e == per_edge_unit graph
  \/ edge_term graph clusters e == - per_edge_unit graph.
Proof.
  unfold edge_term, inside_term, cut_term.
  destruct (inside graph clusters e);
    [destruct (Qltb (weight e) 0) | destruct (Qltb 0 (weight e))];
    (left; reflexivity) || (right; reflexivity).
Qed.

(** *** The same loops in binary64 *)

Lemma fold_left_ext_in {A B} (f g : A -> B -> A) (l : list B) (a : A) :
  (forall x a', In x l -> f a' x = g a' x) ->
  fold_left f l a = fold_left g l a.
Proof.
  revert a. induction l as [|x l IH]; intros a H; [reflexivity|].
  cbn [fold_left]. rewrite (H x a (or_introl eq_refl)).
  apply IH. intros y a' Hy. apply H. right. exact Hy.
Qed.

Lemma filter_partition_perm {A} (p : A -> bool) (l : list A) :
  Permutation (filter p l ++ filter (fun e => negb (p e)) l) l.
Proof.
  induction l as [|e l IH]; [constructor|].
  cbn [filter]. destruct (p e); cbn [negb app].
  - apply perm_skip. exact IH.
  - apply Permutation_sym, Permutation_cons_app, Permutation_sym. exact IH.
Qed.

Lemma flat_map_filter_perm {A C} (p : C -> A -> bool) (ids : list C)
      (l : list A) :
  NoDup ids ->
  (forall c c' e, In c ids -> In c' ids ->
                  p c e = true -> p c' e = true -> c = c') ->
  Permutation
    (flat_map (fun c => filter (p c) l) ids
     ++ filter (fun e => negb (existsb (fun c => p c e) ids)) l)
    l.
Proof.
  revert l. induction ids as [|c ids IH]; intros l D Hdisj.
  - cbn [flat_map existsb negb app].
    rewrite forallb_filter_id; [apply Permutation_refl|].
    apply forallb_forall. reflexivity.
  - inversion D as [|? ? Hc Dids]; subst.
    set (l' := filter (fun e => negb (p c e)) l).
    assert (HA : forall c', In c' ids -> filter (p c') l = filter (p c') l').
    { intros c' Hc'. unfold l'. clear IH.
      induction l as [|e l IHl]; [reflexivity|].
      cbn [filter]. destruct (p c e) eqn:Ec; cbn [negb filter].
      - destruct (p c' e) eqn:Ec'; [|exact IHl].
        exfalso. apply Hc.
        rewrite (Hdisj c c' e (or_introl eq_refl) (or_intror Hc') Ec Ec').
        exact Hc'.
      - destruct (p c' e); rewrite IHl; reflexivity. }
    assert (HB : filter (fun e => negb (existsb (fun c0 => p c0 e) (c :: ids))) l
                 = filter (fun e => negb (existsb (fun c0 => p c0 e) ids)) l').
    { unfold l'. clear. induction l as [|e l IHl]; [reflexivity|].
      cbn [filter].
      assert (Hh : existsb (fun c0 => p c0 e) (c :: ids)
                   = p c e || existsb (fun c0 => p c0 e) ids)
        by reflexivity.
      rewrite Hh. destruct (p c e); cbn [orb negb filter].
      - exact IHl.
      - destruct (existsb (fun c0 => p c0 e) ids); cbn [negb];
          rewrite IHl; reflexivity. }
    cbn [flat_map]. rewrite HB, <- app_assoc.
    assert (HF : flat_map (fun c0 => filter (p c0) l) ids
                 = flat_map (fun c0 => filter (p c0) l') ids).
    { rewrite !flat_map_concat_map. f_equal. apply map_ext_in. exact HA. }
    rewrite HF.
    apply Permutation_trans with (filter (p c) l ++ l').
    + apply Permutation_app_head. apply IH; [exact Dids|].
      intros c1 c2 e H1 H2. apply Hdisj; right; assumption.
    + apply filter_partition_perm.
Qed.

Section Binary64Loops.

Variable view_swaps : list node -> node -> node -> bool.
Variable graph : Graph.
Variable clusters : list Z.
Variable cut_score : Binary64.float.

Let inside_step (sparsity : Binary64.float) (e : edge) : Binary64.float :=
  if Qltb (weight e) 0 then Binary64.add sparsity cut_score
  else Binary64.sub sparsity cut_score.

Let cut_step (sparsity : Binary64.float) (e : edge) : Binary64.float :=
  if Qltb 0 (weight e) then Binary64.add sparsity cut_score
  else Binary64.sub sparsity cut_score.

Lemma binary64_score_inside (ids : list node) (l : list edge)
      (sparsity : Binary64.float) :
  Binary64.score_inside
    cut_score
    (map weight
         (map (fun e => if view_swaps ids (endpoint1 e) (endpoint2 e)
                        then flip_edge e else e) l))
    sparsity
  = fold_left inside_step l sparsity.
Proof.
  unfold Binary64.score_inside. revert sparsity.
  induction l as [|e l IH]; intro sp; [reflexivity|].
  cbn [map fold_left]. rewrite IH. f_equal. unfold inside_step.
  destruct (view_swaps ids (endpoint1 e) (endpoint2 e)); reflexivity.
Qed.

Lemma binary64_fold_clusters (ids : list Z)
      (acc : Binary64.float * list (node * node)) :
  fst (fold_left (Binary64.score_cluster view_swaps graph clusters
                                         (make_rev_index graph) cut_score)
                 ids acc)
  = fold_left inside_step
              (flat_map (fun c => filter (in_cluster graph clusters c)
                                         (edges graph)) ids)
              (fst acc)
  /\ snd (fold_left (Binary64.score_cluster view_swaps graph clusters
                                            (make_rev_index graph) cut_score)
                    ids acc)
     = snd acc
       ++ flat_map (fun c =>
                      map edge_key
                          (edges (subgraph view_swaps graph
                                           (cluster_nodes graph clusters c))))
                   ids.
Proof.
  revert acc. induction ids as [|c ids IH]; intro acc.
  - simpl. split; [reflexivity | rewrite app_nil_r; reflexivity].
  - cbn [fold_left flat_map].
    destruct (IH (Binary64.score_cluster view_swaps graph clusters
                                         (make_rev_index graph) cut_score
                                         acc c)) as [Hs He].
    split.
    + rewrite Hs. unfold Binary64.score_cluster at 1. cbn [fst].
      rewrite fold_left_app. f_equal.
      apply (binary64_score_inside (cluster_nodes graph clusters c)).
    + rewrite He. unfold Binary64.score_cluster at 1. cbn [snd].
      rewrite <- app_assoc. reflexivity.
Qed.

Lemma binary64_score_cuts (l : list edge) (sparsity : Binary64.float) :
  (forall e, In e l ->
             graph_weight graph (endpoint1 e) (endpoint2 e)
             = Some (weight e)) ->
  Binary64.score_cuts graph cut_score (map edge_key l) sparsity
  = Ok (fold_left cut_step l sparsity).
Proof.
  revert sparsity. induction l as [|e l IH]; intros sp H; [reflexivity|].
  cbn [map Binary64.score_cuts edge_key fst snd fold_left].
  rewrite (H e (or_introl eq_refl)).
  apply IH. intros e' He'. apply H. right. exact He'.
Qed.

Hypothesis nodes_distinct : distinct_nodes (nodes graph) = true.
Hypothesis clusters_length : length clusters = length (nodes graph).

Lemma in_cluster_is_inside (c : Z) (e : edge) :
  in_cluster graph clusters c e = true -> inside graph clusters e = true.
Proof.
  intro H.
  apply (in_cluster_iff graph clusters c e nodes_distinct clusters_length)
    in H.
  destruct H as [H1 H2]. unfold inside. rewrite H1, H2. apply Z.eqb_refl.
Qed.

Lemma edges_by_cluster_perm (l : list edge) :
  Permutation
    (flat_map (fun c => filter (in_cluster graph clusters c) l)
              (py_set clusters)
     ++ filter (fun e => negb (inside graph clusters e)) l)
    l.
Proof.
  rewrite (filter_ext (fun e => negb (inside graph clusters e))
                      (fun e => negb (existsb (fun c => in_cluster graph clusters c e)
                                              (py_set clusters)))).
  - apply flat_map_filter_perm; [apply NoDup_nodup|].
    intros c c' e _ _ H H'.
    apply (in_cluster_iff graph clusters c e nodes_distinct clusters_length)
      in H.
    apply (in_cluster_iff graph clusters c' e nodes_distinct clusters_length)
      in H'.
    destruct H as [H _], H' as [H' _]. congruence.
  - intro e.
    rewrite (in_cluster_inside graph clusters e nodes_distinct
                               clusters_length).
    reflexivity.
Qed.

End Binary64Loops.

Lemma edge_term_bounds (graph : Graph) (clusters : list Z)
      (order : list edge) :
  (0 < length (edges graph))%nat ->
  length order = length (edges graph) ->
  - (1) <= Qsum (map (edge_term graph clusters) order)
  /\ Qsum (map (edge_term graph clusters) order) <= 1.
Proof.
  intros Hpos Hlen.
  pose proof (per_edge_unit_pos graph Hpos) as Upos.
  pose proof (per_edge_unit_total graph Hpos) as Utot.
  destruct (Qsum_bounded (edge_term graph clusters) (per_edge_unit graph)
                         order) as [L U].
  { intros e _. destruct (edge_term_unit graph clusters e) as [H|H];
      rewrite H; split; lra. }
  rewrite Hlen, Utot in L, U. split; assumption.
Qed.

(** C1, as the code has it: for a well-formed graph with at least one edge
    and an assignment vector over its nodes, [sparsity_score] returns the
    running binary64 sum, started at 0, of exactly one term per edge of
    the graph; the term is the binary64 quotient [1/|E|], added for a
    negative edge inside a cluster and for a positive cut edge, subtracted
    for a positive edge inside a cluster and for a negative cut edge.  The
    sum of the same terms without rounding lies in [-1, 1]. *)
Theorem sparsity_score_binary64_terms
        view_swaps (graph : Graph) (clusters : list Z) :
  wf_graph graph = true ->
  (0 < length (edges graph))%nat ->
  length clusters = length (nodes graph) ->
  exists order,
    Permutation order (edges graph)
    /\ Binary64.sparsity_score view_swaps graph clusters
                               (make_rev_index graph)
       = Ok (binary64_sum graph clusters order)
    /\ - (1) <= Qsum (map (edge_term graph clusters) order)
    /\ Qsum (map (edge_term graph clusters) order) <= 1
    /\ forall e, In e order ->
         (penalised graph clusters e = true <->
          (inside graph clusters e = true /\ weight e < 0)
          \/ (inside graph clusters e = false /\ 0 < weight e)).
Proof.
  intros WF Hpos Hlen. unfold wf_graph in WF.
  apply andb_true_iff in WF. destruct WF as [WF S].
  apply andb_true_iff in WF. destruct WF as [D _].
  set (insides := flat_map (fun c => filter (in_cluster graph clusters c)
                                            (edges graph))
                           (py_set clusters)).
  set (cuts := filter (fun e => negb (inside graph clusters e))
                      (edges graph)).
  pose proof (edges_by_cluster_perm graph clusters D Hlen (edges graph))
    as Hperm.
  fold insides cuts in Hperm.
  exists (insides ++ cuts). split; [exact Hperm|]. split; [|split; [|split]].
  - unfold Binary64.sparsity_score.
    destruct (length (edges graph)) as [|m] eqn:Em; [lia|].
    rewrite <- Em. fold (binary64_unit graph).
    destruct (binary64_fold_clusters view_swaps graph clusters
                                     (binary64_unit graph) (py_set clusters)
                                     (Binary64.of_nat 0, [])) as [Hs He].
    cbv zeta. rewrite He. cbn [snd app].
    rewrite filter_map_comm.
    rewrite (filter_ext_in _ (fun e => negb (inside graph clusters e))).
    2:{ intros e Hin.
        apply (seen_inside view_swaps graph clusters D Hlen e Hin). }
    fold cuts. rewrite binary64_score_cuts.
    2:{ intros e Hin. apply filter_In in Hin. destruct Hin as [Hin _].
        apply graph_weight_own; assumption. }
    rewrite Hs. cbn [fst]. fold insides. f_equal.
    unfold binary64_sum. rewrite fold_left_app.
    rewrite (fold_left_ext_in
               (fun sparsity e =>
                  if penalised graph clusters e
                  then Binary64.add sparsity (binary64_unit graph)
                  else Binary64.sub sparsity (binary64_unit graph))
               (fun sparsity e =>
                  if Qltb (weight e) 0
                  then Binary64.add sparsity (binary64_unit graph)
                  else Binary64.sub sparsity (binary64_unit graph))
               insides).
    2:{ intros e a Hin. unfold insides in Hin. apply in_flat_map in Hin.
        destruct Hin as [c [_ Hin]]. apply filter_In in Hin.
        destruct Hin as [_ Hin]. unfold penalised.
        rewrite (in_cluster_is_inside graph clusters D Hlen c e Hin).
        reflexivity. }
    symmetry. apply fold_left_ext_in.
    intros e a Hin. unfold cuts in Hin. apply filter_In in Hin.
    destruct Hin as [_ Hin]. apply negb_true_iff in Hin.
    unfold penalised. rewrite Hin. reflexivity.
  - apply edge_term_bounds; [exact Hpos|].
    apply Permutation_length. exact Hperm.
  - apply edge_term_bounds; [exact Hpos|].
    apply Permutation_length. exact Hperm.
  - intros e _. unfold penalised.
    destruct (inside graph clusters e); rewrite Qltb_lt; split.
    + intro H. left. split; [reflexivity | exact H].
    + intros [[_ H]|[H _]]; [exact H | discriminate].
    + intro H. right. split; [reflexivity | exact H].
    + intros [[H _]|[_ H]]; [discriminate | exact H].
Qed.

Lemma sparsity_score_binary64_terms_witness :
  exists order,
    Permutation order (edges two_triangles)
    /\ Binary64.sparsity_score no_swaps two_triangles [0; 0; 0; 1; 1; 1]%Z
                               (make_rev_index two_triangles)
       = Ok (binary64_sum two_triangles [0; 0; 0; 1; 1; 1]%Z order).
Proof.
  destruct (sparsity_score_binary64_terms
              no_swaps two_triangles [0; 0; 0; 1; 1; 1]%Z
              eq_refl ltac:(simpl; lia) eq_refl)
    as [order [Hperm [Hrun _]]].
  exists order. split; assumption.
Defined.

(** C1, as the claim has it, fails: on a path of nine edges of weight -1
    with all nodes in one cluster, every edge is penalised and the nine
    additions of the binary64 quotient 1/9 give 1 + 2^-52, which is
    above 1. *)
Lemma sparsity_score_exceeds_one :
  Binary64.sparsity_score no_swaps nine_edge_path (repeat 0%Z 10)
                          (make_rev_index nine_edge_path)
  = Ok (SpecFloat.S754_finite false 4503599627370497 (-52))
  /\ Binary64.ltb (Binary64.of_nat 1)
                  (SpecFloat.S754_finite false 4503599627370497 (-52))
     = true
  /\ wf_graph nine_edge_path = true
  /\ length (repeat 0%Z 10) = length (nodes nine_edge_path).
Proof. vm_compute. repeat split; reflexivity. Qed.



(** ** The minimum and its position *)

Lemma argmin_from_first (best_i : nat) (best : Q) (i : nat) (l : list Q) :
  Forall (Qle best) l -> argmin_from best_i best i l = best_i.
Proof.
  revert i. induction l as [|x l IH]; intros i H; simpl.
  - reflexivity.
  - inversion H as [|? ? Hx Hl]; subst.
    assert (F : Qltb x best = false) by (apply Qltb_ge; assumption).
    rewrite F. apply IH. assumption.
Qed.

Lemma np_argmin_first (s0 : Q) (rest : list Q) :
  Forall (Qle s0) rest -> np_argmin (s0 :: rest) = Ok 0%nat.
Proof.
  intro H. simpl. rewrite argmin_from_first by assumption. reflexivity.
Qed.

(** ** cluster_hard *)

Ltac run_monad :=
  unfold KMeans_fit_predict, KMeans_cluster_centers, np_random_randint2;
  unfold bind, ret, lift, write, draw, raise; cbn [draws stdout fst snd].

(** C2: when the random baseline attains the minimum of the scores,
    [cluster_hard] writes the warning and then fits k-means with
    [min_clusters - 1] clusters: [topscore] is not reset to
    [min_clusters] after the warning. *)
Theorem cluster_hard_baseline_wins
        view_swaps KMeans_fit random_bit
        (graph : Graph) (rev_index : list (nat * node)) (scoremat : matrix)
        (max_clusters min_clusters : Z) (w w2 : world) (score0 : Q)
        (rest : list Q) :
  sparsity_score view_swaps graph (randomclust_of random_bit w scoremat)
                 rev_index = Ok score0 ->
  hard_sweep view_swaps KMeans_fit graph rev_index scoremat
             (py_range min_clusters (max_clusters + 1)) [score0]
             (after_baseline w score0) = (w2, Ok (score0 :: rest)) ->
  Forall (Qle score0) rest ->
  cluster_hard view_swaps KMeans_fit random_bit graph rev_index scoremat
               max_clusters min_clusters "KMeans" w
  = (mkWorld (S (draws w2)) (stdout w2 ++ [WarnRandomBest]),
     match KMeans_fit (draws w2) (min_clusters - 1)%Z scoremat with
     | Ok fitted => Ok (fst fitted)
     | Raise e => Raise e
     end).
Proof.
  intros Hbase Hsweep Hmin.
  unfold cluster_hard, np_random_randint2.
  unfold bind at 1 2. unfold draw, ret. cbn [draws stdout].
  unfold bind at 1. unfold lift at 1.
  unfold randomclust_of in Hbase. rewrite Hbase.
  unfold bind at 1. unfold write at 1. cbn [draws stdout].
  cbn [String.eqb Ascii.eqb Bool.eqb].
  unfold bind at 1. unfold after_baseline in Hsweep. rewrite Hsweep.
  unfold bind at 1. unfold lift at 1.
  rewrite (np_argmin_first score0 rest Hmin).
  replace (Z.of_nat 0 + min_clusters - 1)%Z with (min_clusters - 1)%Z by lia.
  assert (F : (min_clusters <=? min_clusters - 1)%Z = false)
    by (apply Z.leb_gt; lia).
  rewrite F. run_monad.
  destruct (KMeans_fit (draws w2) (min_clusters - 1)%Z scoremat); reflexivity.
Qed.

Lemma cluster_hard_baseline_wins_witness :
  cluster_hard no_swaps toy_KMeans_fit split_bits two_triangles
               (make_rev_index two_triangles)
               (snapshot [0; 1; 0; 1; 0; 1]%Z) 3 2 "KMeans" world0
  = (mkWorld 4 [RandomSparsity (-823543 # 823543);
                SparsityLevel 2 (117649 # 823543);
                SparsityLevel 3 (117649 # 823543);
                WarnRandomBest],
     Ok [0; 0; 0; 0; 0; 0]%Z).
Proof.
  apply (cluster_hard_baseline_wins
           no_swaps toy_KMeans_fit split_bits two_triangles
           (make_rev_index two_triangles) (snapshot [0; 1; 0; 1; 0; 1]%Z)
           3 2 world0
           (mkWorld 3 [RandomSparsity (-823543 # 823543);
                       SparsityLevel 2 (117649 # 823543);
                       SparsityLevel 3 (117649 # 823543)])
           (-823543 # 823543) [117649 # 823543; 117649 # 823543]).
  - reflexivity.
  - reflexivity.
  - repeat (apply Forall_cons; [unfold Qle; simpl; lia|]). apply Forall_nil.
Defined.

(** C4: with a [cluster] argument other than ['KMeans'], [cluster_hard]
    scores the random baseline, writes the unsupported-method warning and
    then raises [UnboundLocalError] at its [return]: no assignment is
    returned.  (On a graph without edges the baseline score raises
    first.) *)
Theorem cluster_hard_unsupported_method
        view_swaps KMeans_fit random_bit
        (graph : Graph) (rev_index : list (nat * node)) (scoremat : matrix)
        (max_clusters min_clusters : Z) (cluster : string) (w : world) :
  String.eqb cluster "KMeans" = false ->
  cluster_hard view_swaps KMeans_fit random_bit graph rev_index scoremat
               max_clusters min_clusters cluster w
  = match sparsity_score view_swaps graph
                         (randomclust_of random_bit w scoremat) rev_index with
    | Ok score0 =>
        (mkWorld (S (draws w))
                 (stdout (after_baseline w score0) ++ [WarnOnlyKMeans]),
         Raise UnboundLocalError)
    | Raise e => (mkWorld (S (draws w)) (stdout w), Raise e)
    end.
Proof.
  intro Hm. unfold cluster_hard. rewrite Hm. run_monad.
  unfold randomclust_of.
  destruct (sparsity_score view_swaps graph _ rev_index); reflexivity.
Qed.

Lemma cluster_hard_unsupported_method_witness :
  cluster_hard no_swaps toy_KMeans_fit split_bits two_triangles
               (make_rev_index two_triangles)
               (snapshot [0; 1; 0; 1; 0; 1]%Z) 3 2 "DBSCAN" world0
  = (mkWorld 1 [RandomSparsity (-823543 # 823543); WarnOnlyKMeans],
     Raise UnboundLocalError).
Proof.
  exact (cluster_hard_unsupported_method
           no_swaps toy_KMeans_fit split_bits two_triangles
           (make_rev_index two_triangles) (snapshot [0; 1; 0; 1; 0; 1]%Z)
           3 2 "DBSCAN" world0 eq_refl).
Defined.

(** ** Graphs without edges *)

Lemma bind_raises {A B} (m : M A) (k : A -> M B) (w : world) :
  raises (m w) -> raises (bind m k w).
Proof.
  intros [e H]. unfold bind. destruct (m w) as [w' [a|e']]; simpl in H.
  - discriminate.
  - exists e'. reflexivity.
Qed.

Lemma sparsity_score_edgeless view_swaps (ns : list node)
      (attrs : list (node * Z)) (clusters : list Z)
      (rev_index : list (nat * node)) :
  sparsity_score view_swaps (mkGraph ns [] attrs) clusters rev_index
  = Raise ZeroDivisionError.
Proof. reflexivity. Qed.

Lemma cluster_hard_edgeless view_swaps KMeans_fit random_bit
      (ns : list node) (attrs : list (node * Z))
      (rev_index : list (nat * node)) (scoremat : matrix)
      (max_clusters min_clusters : Z) (cluster : string) (w : world) :
  cluster_hard view_swaps KMeans_fit random_bit (mkGraph ns [] attrs)
               rev_index scoremat max_clusters min_clusters cluster w
  = (mkWorld (S (draws w)) (stdout w), Raise ZeroDivisionError).
Proof. reflexivity. Qed.

Lemma fuzzy_sweep_edgeless view_swaps KMeans_fit
      (ns : list node) (attrs : list (node * Z))
      (rev_index : list (nat * node)) (scoremat : matrix)
      (i : Z) (ks : list Z) (scores : list Q) (w : world) :
  raises (fuzzy_sweep view_swaps KMeans_fit (mkGraph ns [] attrs) rev_index
                      scoremat (i :: ks) scores w).
Proof.
  cbn [fuzzy_sweep]. run_monad.
  destruct (KMeans_fit (draws w) i scoremat) as [fitted|e].
  - exists ZeroDivisionError. reflexivity.
  - exists e. reflexivity.
Qed.

Lemma cluster_fuzzy_edgeless view_swaps KMeans_fit
      (ns : list node) (attrs : list (node * Z))
      (rev_index : list (nat * node)) (diffs : list matrix)
      (max_clusters min_clusters : Z) (cluster : string) (w : world) :
  raises (cluster_fuzzy view_swaps KMeans_fit (mkGraph ns [] attrs) rev_index
                        diffs max_clusters min_clusters cluster w).
Proof.
  unfold cluster_fuzzy. destruct diffs as [|scoremat diffs].
  - exists IndexError. reflexivity.
  - apply bind_raises. cbn [score_snapshots].
    destruct (String.eqb cluster "KMeans").
    + apply bind_raises.
      destruct (py_range min_clusters (max_clusters + 1)) as [|i ks].
      * exists ValueError. reflexivity.
      * apply bind_raises. apply fuzzy_sweep_edgeless.
    + exists ValueError. reflexivity.
Qed.

(** C7: on a graph without edges [sparsity_score] divides by
    [len(graph.edges) = 0] (line 199); [cluster_hard] raises
    [ZeroDivisionError] when it scores the random baseline, and
    [cluster_graph] never returns a result, whatever the diffusion, the
    k-means fits and the random bits are. *)
Theorem edgeless_graph_raises
        view_swaps KMeans_fit random_bit diffusion
        (ns : list node) (attrs : list (node * Z)) :
  (forall clusters rev_index,
      sparsity_score view_swaps (mkGraph ns [] attrs) clusters rev_index
      = Raise ZeroDivisionError)
  /\ (forall rev_index scoremat max_clusters min_clusters cluster w,
         snd (cluster_hard view_swaps KMeans_fit random_bit
                           (mkGraph ns [] attrs) rev_index scoremat
                           max_clusters min_clusters cluster w)
         = Raise ZeroDivisionError)
  /\ (forall limit max_clusters min_clusters iterations cluster w,
         raises (cluster_graph view_swaps KMeans_fit random_bit diffusion
                               (mkGraph ns [] attrs) limit max_clusters
                               min_clusters iterations cluster w)).
Proof.
  split; [|split].
  - intros. apply sparsity_score_edgeless.
  - intros. rewrite cluster_hard_edgeless. reflexivity.
  - intros. unfold cluster_graph. apply bind_raises.
    destruct (negb _).
    + exists ZeroDivisionError. rewrite cluster_hard_edgeless. reflexivity.
    + apply cluster_fuzzy_edgeless.
Qed.

(** ** Scores of the snapshots *)

Ltac bind_inv H :=
  unfold bind at 1 in H;
  match type of H with
  | (let (_, _) := ?m in _) = _ =>
      let w := fresh "w" in
      let a := fresh "a" in
      let e := fresh "e" in
      let E := fresh "E" in
      destruct m as [w [a|e]] eqn:E; [|discriminate H]
  end.

Lemma np_where_lt_from_none (i : nat) (xs : list Q) (bound : Q) :
  Forall (Qle bound) xs -> np_where_lt_from i xs bound = [].
Proof.
  revert i. induction xs as [|x xs IH]; intros i H; simpl.
  - reflexivity.
  - inversion H as [|? ? Hx Hxs]; subst.
    assert (F : Qltb x bound = false) by (apply Qltb_ge; assumption).
    rewrite F. apply IH. assumption.
Qed.

Lemma np_where_lt_from_In (k : nat) (xs : list Q) (bound : Q) (i : nat) :
  In i (np_where_lt_from k xs bound) ->
  (k <= i < k + length xs)%nat.
Proof.
  revert k. induction xs as [|x xs IH]; intros k H; simpl in H.
  - contradiction.
  - simpl. destruct (Qltb x bound).
    + destruct H as [<-|H]; [lia|]. apply IH in H. lia.
    + apply IH in H. lia.
Qed.

Lemma py_index_nth {A} (l : list A) (i : nat) (d : A) :
  (i < length l)%nat -> py_index l i = Ok (nth i l d).
Proof.
  intro H. unfold py_index.
  rewrite (nth_error_nth' l d H). reflexivity.
Qed.

Lemma score_snapshots_lengths
      view_swaps KMeans_fit (graph : Graph) (rev_index : list (nat * node))
      (snapshots : list matrix) (j : nat) (max_clusters min_clusters : Z)
      (cluster : string) (difscores : list Q) (topscores : list Z)
      (topscore : option Z) (w w' : world) (ds : list Q) (ts : list Z) :
  score_snapshots view_swaps KMeans_fit graph rev_index snapshots j
                  max_clusters min_clusters cluster difscores topscores
                  topscore w = (w', Ok (ds, ts)) ->
  length ds = (length difscores + length snapshots)%nat
  /\ length ts = (length topscores + length snapshots)%nat.
Proof.
  revert j difscores topscores topscore w.
  induction snapshots as [|scoremat rest IH];
    intros j difscores topscores topscore w H.
  - cbn [score_snapshots] in H. unfold ret in H. inversion H. simpl. lia.
  - cbn [score_snapshots] in H.
    bind_inv H. bind_inv H. bind_inv H. bind_inv H.
    apply IH in H. rewrite !length_app in H. simpl in H |- *. lia.
Qed.

(** C3: when the scores of all snapshots are at or above the threshold
    -0.5, [separating_iters] is empty and [separating_iters[-1]] (line 266)
    raises [IndexError]: the function ends in an exception that nothing
    handles, after writing the empty list of iterations. *)
Theorem cluster_fuzzy_no_separating_snapshot
        view_swaps KMeans_fit
        (graph : Graph) (rev_index : list (nat * node)) (diffs : list matrix)
        (max_clusters min_clusters : Z) (cluster : string) (w w1 : world)
        (difscores : list Q) (topscores : list Z) :
  score_snapshots view_swaps KMeans_fit graph rev_index diffs 0
                  max_clusters min_clusters cluster [] [] None w
  = (w1, Ok (difscores, topscores)) ->
  Forall (Qle (- (1 # 2))) difscores ->
  cluster_fuzzy view_swaps KMeans_fit graph rev_index diffs
                max_clusters min_clusters cluster w
  = (mkWorld (draws w1) (stdout w1 ++ [UsingIterations []]), Raise IndexError).
Proof.
  intros Hscore Hnone. unfold cluster_fuzzy.
  unfold bind at 1. rewrite Hscore. cbn [fst snd].
  unfold select_fuzzy, np_where_lt.
  rewrite (np_where_lt_from_none 0 difscores _ Hnone).
  reflexivity.
Qed.

Lemma cluster_fuzzy_no_separating_snapshot_witness :
  cluster_fuzzy no_swaps toy_KMeans_fit pendant_graph
                (make_rev_index pendant_graph)
                [snapshot [0; 1; 0; 1; 0; 1; 1]%Z;
                 snapshot [0; 1; 0; 1; 0; 1; 0]%Z] 2 2 "KMeans" world0
  = (mkWorld 2 [IterationLowest 0 2 (0 # 16777216);
                IterationLowest 1 2 (4194304 # 16777216);
                UsingIterations []],
     Raise IndexError).
Proof.
  apply (cluster_fuzzy_no_separating_snapshot
           no_swaps toy_KMeans_fit pendant_graph (make_rev_index pendant_graph)
           [snapshot [0; 1; 0; 1; 0; 1; 1]%Z; snapshot [0; 1; 0; 1; 0; 1; 0]%Z]
           2 2 "KMeans" world0
           (mkWorld 2 [IterationLowest 0 2 (0 # 16777216);
                       IterationLowest 1 2 (4194304 # 16777216)])
           [0 # 16777216; 4194304 # 16777216] [2; 2]%Z).
  - reflexivity.
  - repeat (apply Forall_cons; [unfold Qle; simpl; lia|]). apply Forall_nil.
Defined.

(** ** Two separating snapshots *)

Lemma stability_no_earlier (labels : list Z) (clusdict : clusdict_t)
      (positions : list nat) :
  stability [labels] clusdict positions = Ok (map (fun _ => 0) positions).
Proof.
  induction positions as [|i positions IH]; simpl.
  - reflexivity.
  - rewrite IH. reflexivity.
Qed.

Lemma mark_fuzzy_all_zero (labels : list Z) (k : nat) :
  mark_fuzzy labels (map (fun _ => 0) (seq k (length labels)))
  = map (fun _ => 100%Z) labels.
Proof.
  revert k. induction labels as [|l labels IH]; intro k; simpl.
  - reflexivity.
  - rewrite IH. reflexivity.
Qed.

(** C10: with exactly two separating snapshots [a] and [b], only snapshot
    [b] is fitted, the loop over the earlier snapshots runs over an empty
    range, every stability fraction is 0 and every node of the returned
    assignment carries the sentinel 100. *)
Theorem cluster_fuzzy_two_separating_snapshots
        view_swaps KMeans_fit
        (graph : Graph) (rev_index : list (nat * node)) (diffs : list matrix)
        (max_clusters min_clusters : Z) (w w1 : world)
        (difscores : list Q) (topscores : list Z) (a b : nat)
        (labels labels' : list Z) (centers centers' : list (list Q)) :
  score_snapshots view_swaps KMeans_fit graph rev_index diffs 0
                  max_clusters min_clusters "KMeans" [] [] None w
  = (w1, Ok (difscores, topscores)) ->
  np_where_lt difscores (- (1 # 2)) = [a; b] ->
  KMeans_fit (draws w1) (nth b topscores 0%Z) (nth b diffs [])
  = Ok (labels, centers') ->
  KMeans_fit (S (draws w1)) (nth b topscores 0%Z) (nth b diffs [])
  = Ok (labels', centers) ->
  cluster_fuzzy view_swaps KMeans_fit graph rev_index diffs
                max_clusters min_clusters "KMeans" w
  = (mkWorld (S (S (draws w1))) (stdout w1 ++ [UsingIterations [a; b]]),
     Ok (map (fun _ => 100%Z) labels))
  /\ stability [labels] (make_clusdict (nth b topscores 0%Z) 0)
               (seq 0 (length labels))
     = Ok (map (fun _ => 0) (seq 0 (length labels)))
  /\ forall clusdict i, stability_fraction [labels] clusdict i = 0.
Proof.
  intros Hscore Hsep Hfit1 Hfit2.
  split; [|split; [apply stability_no_earlier | reflexivity]].
  destruct (score_snapshots_lengths _ _ _ _ _ _ _ _ _ _ _ _ _ _ _ _ Hscore)
    as [Hd Ht].
  simpl in Hd, Ht.
  assert (Hb : (b < length difscores)%nat).
  { assert (H : In b (np_where_lt difscores (- (1 # 2))))
      by (rewrite Hsep; right; left; reflexivity).
    apply np_where_lt_from_In in H. lia. }
  unfold cluster_fuzzy. unfold bind at 1. rewrite Hscore. cbn [fst snd].
  unfold select_fuzzy. rewrite Hsep.
  unfold bind at 1. unfold write at 1.
  unfold bind at 1. unfold lift at 1. cbn [py_last rev app].
  unfold bind at 1. unfold lift at 1.
  rewrite (py_index_nth topscores b 0%Z) by lia.
  cbn [tl fit_separating].
  unfold bind at 1.
  unfold bind at 1. unfold lift at 1.
  rewrite (py_index_nth diffs b []) by lia.
  cbn [String.eqb Ascii.eqb Bool.eqb].
  unfold bind at 1. unfold lift at 1.
  rewrite (py_index_nth topscores b 0%Z) by lia.
  run_monad. rewrite Hfit1. cbn [fst snd draws stdout]. rewrite Hfit2. cbn [fst snd app].
  cbn [length Nat.sub py_last rev app removelast match_iterations].
  rewrite stability_no_earlier, mark_fuzzy_all_zero. reflexivity.
Qed.

Lemma cluster_fuzzy_two_separating_snapshots_witness :
  cluster_fuzzy no_swaps toy_KMeans_fit pendant_graph
                (make_rev_index pendant_graph)
                [snapshot [0; 0; 0; 1; 1; 1; 1]%Z;
                 snapshot [0; 0; 0; 1; 1; 1; 0]%Z] 2 2 "KMeans" world0
  = (mkWorld 4 [IterationLowest 0 2 (-16777216 # 16777216);
                IterationLowest 1 2 (-12582912 # 16777216);
                UsingIterations [0; 1]%nat],
     Ok [100; 100; 100; 100; 100; 100; 100]%Z).
Proof.
  apply (cluster_fuzzy_two_separating_snapshots
           no_swaps toy_KMeans_fit pendant_graph (make_rev_index pendant_graph)
           [snapshot [0; 0; 0; 1; 1; 1; 1]%Z; snapshot [0; 0; 0; 1; 1; 1; 0]%Z]
           2 2 world0
           (mkWorld 2 [IterationLowest 0 2 (-16777216 # 16777216);
                       IterationLowest 1 2 (-12582912 # 16777216)])
           [-16777216 # 16777216; -12582912 # 16777216] [2; 2]%Z 0%nat 1%nat
           [0; 0; 0; 1; 1; 1; 0]%Z [0; 0; 0; 1; 1; 1; 0]%Z
           (map (fun c => repeat (inject_Z c) 7) [0; 1]%Z)
           (map (fun c => repeat (inject_Z c) 7) [0; 1]%Z));
    reflexivity.
Defined.

(** ** Hub positions *)

Lemma row_where_In (p : Q -> bool) (i j : nat) (row : list Q) (i' j' : nat) :
  In (i', j') (row_where p i j row) <->
  i' = i /\ (j <= j')%nat
  /\ exists x, nth_error row (j' - j) = Some x /\ p x = true.
Proof.
  revert j. induction row as [|x row IH]; intro j; simpl.
  - split; [tauto|]. intros [_ [_ [y [H _]]]].
    destruct (j' - j)%nat; discriminate.
  - assert (Hrec : In (i', j') (row_where p i (S j) row) <->
                   i' = i /\ (S j <= j')%nat
                   /\ exists y, nth_error row (j' - S j) = Some y /\ p y = true)
      by apply IH.
    assert (Hstep : forall y, (S j <= j')%nat ->
               (nth_error (x :: row) (j' - j) = Some y
                <-> nth_error row (j' - S j) = Some y)).
    { intros y Hle. replace (j' - j)%nat with (S (j' - S j)) by lia.
      reflexivity. }
    destruct (p x) eqn:Px; simpl; rewrite Hrec; split.
    + intros [H | [Hi [Hj [y [Hy Py]]]]].
      * inversion H; subst. split; [reflexivity|]. split; [lia|].
        exists x. rewrite Nat.sub_diag. split; [reflexivity | assumption].
      * split; [assumption|]. split; [lia|]. exists y.
        split; [apply Hstep; assumption | assumption].
    + intros [Hi [Hj [y [Hy Py]]]].
      destruct (Nat.eq_dec j j') as [<-|Hne].
      * left. subst. reflexivity.
      * right. split; [assumption|]. split; [lia|]. exists y.
        split; [apply Hstep; [lia | assumption] | assumption].
    + intros [Hi [Hj [y [Hy Py]]]].
      split; [assumption|]. split; [lia|]. exists y.
      split; [apply Hstep; assumption | assumption].
    + intros [Hi [Hj [y [Hy Py]]]].
      destruct (Nat.eq_dec j j') as [<-|Hne].
      * rewrite Nat.sub_diag in Hy. simpl in Hy. congruence.
      * split; [assumption|]. split; [lia|]. exists y.
        split; [apply Hstep; [lia | assumption] | assumption].
Qed.

Lemma argwhere_from_In (p : Q -> bool) (i : nat) (a : matrix) (i' j' : nat) :
  In (i', j') (argwhere_from p i a) <->
  (i <= i')%nat
  /\ exists row x, nth_error a (i' - i) = Some row
                   /\ nth_error row j' = Some x /\ p x = true.
Proof.
  revert i. induction a as [|r a IH]; intro i; simpl.
  - split; [tauto|]. intros [_ [row [x [H _]]]].
    destruct (i' - i)%nat; discriminate.
  - rewrite in_app_iff, row_where_In, IH. split.
    + intros [[Hi [_ [x [Hx Px]]]] | [Hi [row [x [Hrow [Hx Px]]]]]].
      * subst. split; [lia|]. exists r, x. rewrite Nat.sub_diag.
        rewrite Nat.sub_0_r in Hx. repeat split; assumption.
      * split; [lia|]. exists row, x.
        replace (i' - i)%nat with (S (i' - S i)) by lia.
        repeat split; assumption.
    + intros [Hi [row [x [Hrow [Hx Px]]]]].
      destruct (Nat.eq_dec i i') as [<-|Hne].
      * left. split; [reflexivity|]. split; [lia|].
        rewrite Nat.sub_diag in Hrow. simpl in Hrow. inversion Hrow; subst.
        exists x. rewrite Nat.sub_0_r. split; assumption.
      * right. split; [lia|]. exists row, x.
        replace (i' - i)%nat with (S (i' - S i)) in Hrow by lia.
        repeat split; assumption.
Qed.



Lemma matrix_get_Ok (a : matrix) (i j : nat) (x : Q) :
  matrix_get a i j = Ok x <->
  exists row, nth_error a i = Some row /\ nth_error row j = Some x.
Proof.
  unfold matrix_get, rbind, py_index. split.
  - destruct (nth_error a i) as [row|]; [|discriminate].
    destruct (nth_error row j) as [y|] eqn:E; [|discriminate].
    intro H. inversion H; subst. exists row. split; [reflexivity | assumption].
  - intros [row [-> ->]]. reflexivity.
Qed.

Lemma np_argwhere_In (p : Q -> bool) (a : matrix) (i j : nat) :
  In (i, j) (np_argwhere p a) <->
  exists x, matrix_get a i j = Ok x /\ p x = true.
Proof.
  unfold np_argwhere. rewrite argwhere_from_In, Nat.sub_0_r. split.
  - intros [_ [row [x [Hr [Hx Px]]]]]. exists x. split; [|assumption].
    apply matrix_get_Ok. exists row. split; assumption.
  - intros [x [Hg Px]]. apply matrix_get_Ok in Hg. destruct Hg as [row [Hr Hx]].
    split; [lia|]. exists row, x. repeat split; assumption.
Qed.

Lemma insert_sorted_In (x y : Q) (l : list Q) :
  In y (insert_sorted x l) <-> y = x \/ In y l.
Proof.
  induction l as [|z l IH]; simpl.
  - split; [intros [H|[]]; left; congruence | intros [H|[]]; left; congruence].
  - destruct (Qle_bool x z); simpl.
    + intuition congruence.
    + rewrite IH. tauto.
Qed.

Lemma insert_sorted_ascending (x : Q) (l : list Q) :
  ascending l -> ascending (insert_sorted x l).
Proof.
  induction l as [|z l IH]; intro H.
  - simpl. split; [constructor | exact I].
  - destruct H as [Hz Hl]. cbn [insert_sorted].
    destruct (Qle_bool x z) eqn:E.
    + apply Qle_bool_iff in E. split; [|split; assumption].
      constructor; [assumption|].
      rewrite Forall_forall in Hz |- *. intros y Hy.
      apply Qle_trans with z; [assumption | apply Hz; assumption].
    + assert (Hzx : z <= x).
      { apply Qlt_le_weak. apply Qnot_le_lt. intro L.
        apply Qle_bool_iff in L. congruence. }
      split; [|apply IH; assumption].
      apply Forall_forall. intros y Hy. apply insert_sorted_In in Hy.
      destruct Hy as [->|Hy]; [assumption|].
      rewrite Forall_forall in Hz. apply Hz. assumption.
Qed.

Lemma np_sort_In (y : Q) (l : list Q) : In y (np_sort l) <-> In y l.
Proof.
  induction l as [|x l IH]; simpl; [tauto|].
  rewrite insert_sorted_In, IH. intuition congruence.
Qed.

Lemma np_sort_ascending (l : list Q) : ascending (np_sort l).
Proof.
  induction l as [|x l IH]; simpl; [exact I|].
  apply insert_sorted_ascending. assumption.
Qed.

Lemma ascending_nth (l : list Q) (d : Q) (i j : nat) :
  ascending l -> (i <= j)%nat -> (j < length l)%nat ->
  nth i l d <= nth j l d.
Proof.
  revert i j. induction l as [|x l IH]; intros i j H Hij Hj.
  - simpl in Hj. lia.
  - destruct H as [Hx Hl]. destruct i as [|i], j as [|j]; simpl in *.
    + apply Qle_refl.
    + rewrite Forall_forall in Hx. apply Hx. apply nth_In. lia.
    + lia.
    + apply IH; [assumption | lia | lia].
Qed.

Lemma np_percentile_between (a : matrix) (q : Q) :
  0 <= q -> q <= 100 -> concat a <> [] ->
  exists t lo hi,
    np_percentile a q = Ok (Some t)
    /\ In lo (concat a) /\ In hi (concat a)
    /\ lo <= t /\ t <= hi
    /\ forall x, In x (concat a) -> lo <= x /\ x <= hi.
Proof.
  intros L U Hne. unfold np_percentile.
  assert (F1 : Qltb q 0 = false) by (apply Qltb_ge; assumption).
  assert (F2 : Qltb 100 q = false) by (apply Qltb_ge; assumption).
  rewrite F1, F2. cbn [orb].
  pose proof (np_sort_ascending (concat a)) as Hasc.
  assert (Hin : forall y, In y (np_sort (concat a)) <-> In y (concat a))
    by (intro y; apply np_sort_In).
  destruct (np_sort (concat a)) as [|first arr] eqn:Earr.
  { exfalso. destruct (concat a) as [|x l]; [congruence|].
    apply (proj2 (Hin x)). left. reflexivity. }
  set (full := first :: arr) in *.
  set (n := Z.of_nat (length full)).
  assert (Hn : (1 <= n)%Z) by (unfold n, full; simpl; lia).
  set (virtual := q / 100 * inject_Z (n - 1)).
  assert (Hn1 : 0 <= inject_Z (n - 1)).
  { change 0 with (inject_Z 0). rewrite <- Zle_Qle. lia. }
  assert (Hq : 0 <= q / 100 /\ q / 100 <= 1).
  { split; [apply Qle_shift_div_l | apply Qle_shift_div_r]; lra. }
  assert (Hv0 : 0 <= virtual) by (unfold virtual; nra).
  assert (Hv1 : virtual <= inject_Z (n - 1)) by (unfold virtual; nra).
  set (lo := Qfloor virtual).
  assert (Hlo0 : (0 <= lo)%Z).
  { unfold lo. rewrite <- (Qfloor_Z 0). apply Qfloor_resp_le. exact Hv0. }
  assert (Hlo1 : (lo <= n - 1)%Z).
  { unfold lo. rewrite <- (Qfloor_Z (n - 1)). apply Qfloor_resp_le.
    exact Hv1. }
  assert (Hf0 : 0 <= virtual - inject_Z lo).
  { pose proof (Qfloor_le virtual). fold lo in H. lra. }
  assert (Hf1 : virtual - inject_Z lo <= 1).
  { pose proof (Qlt_floor virtual) as H. fold lo in H.
    rewrite inject_Z_plus in H. change (inject_Z 1) with 1 in H. lra. }
  set (hi := Z.min (lo + 1) (n - 1)).
  assert (Hhi : (lo <= hi <= n - 1)%Z) by (unfold hi; lia).
  set (below := nth (Z.to_nat lo) full first).
  set (above := nth (Z.to_nat hi) full first).
  assert (Hlen : length full = Z.to_nat n) by (unfold n; lia).
  assert (Hba : below <= above).
  { apply ascending_nth; [assumption | lia | lia]. }
  assert (Hmin : nth 0 full first <= below).
  { apply ascending_nth; [assumption | lia | lia]. }
  assert (Hmax : above <= nth (length full - 1) full first).
  { apply ascending_nth; [assumption | lia | lia]. }
  exists (below + (above - below) * (virtual - inject_Z lo)),
    (nth 0 full first), (nth (length full - 1) full first).
  split; [reflexivity|].
  split; [apply Hin, nth_In; lia|].
  split; [apply Hin, nth_In; lia|].
  split; [nra|]. split; [nra|].
  intros x Hx. apply Hin in Hx.
  destruct (In_nth _ _ first Hx) as [k [Hk <-]].
  split; apply ascending_nth; try assumption; lia.
Qed.

Lemma In_concat_matrix_get (a : matrix) (x : Q) :
  In x (concat a) -> exists i j, matrix_get a i j = Ok x.
Proof.
  intro H. apply in_concat in H. destruct H as [row [Hrow Hx]].
  apply In_nth_error in Hrow. destruct Hrow as [i Hi].
  apply In_nth_error in Hx. destruct Hx as [j Hj].
  exists i, j. apply matrix_get_Ok. exists row. split; assumption.
Qed.

Lemma np_percentile_valid (a : matrix) (q : Q) :
  0 <= q -> q <= 100 -> concat a <> [] ->
  exists t, np_percentile a q = Ok (Some t).
Proof.
  intros L U Hne.
  destruct (np_percentile_between a q L U Hne) as [t [lo [hi [H _]]]].
  exists t. exact H.
Qed.


Lemma flagged_positions_valid (scoremat : matrix) (percentile : Q) :
  0 <= percentile -> percentile <= 100 -> concat scoremat <> [] ->
  exists flagged,
    hub_positions scoremat percentile = Ok flagged
    /\ snd (fst flagged)
       = np_argwhere (le_thresh (fst (fst (fst flagged)))) scoremat
    /\ snd flagged = np_argwhere (ge_thresh (snd (fst (fst flagged)))) scoremat.
Proof.
  intros L U Hne.
  destruct (np_percentile_valid scoremat percentile L U Hne) as [nt Hn].
  destruct (np_percentile_valid scoremat (100 - percentile)) as [pt Hp];
    [lra | lra | assumption |].
  unfold hub_positions. rewrite Hn, Hp. cbn [rbind].
  eexists. split; [reflexivity|]. split; reflexivity.
Qed.











(** ** central_edge without permutations *)

Lemma set_edge_attributes_hub_relabel (graph : Graph)
      (values : list (node * node * hub_label)) :
  set_edge_attributes_hub graph values
  = with_edges graph (map (relabel values) (edges graph)).
Proof.
  unfold set_edge_attributes_hub. revert graph.
  induction values as [|kv values IH]; intro graph.
  - simpl. destruct graph as [ns es attrs]. unfold with_edges. simpl.
    f_equal. rewrite <- (map_id es) at 1. apply map_ext.
    intros [u v wt h r]. reflexivity.
  - cbn [fold_left]. rewrite IH. unfold with_edges. cbn [nodes edges cluster_attr].
    f_equal. rewrite map_map. apply map_ext. intro e.
    unfold relabel, final_hub, set_hub. cbn [fold_left].
    destruct kv as [[u v] value]. cbn [fst snd].
    unfold connects, edge_key.
    destruct (key_eqb (endpoint1 e, endpoint2 e) (u, v)
              || key_eqb (endpoint1 e, endpoint2 e) (v, u)) eqn:C;
      cbn [endpoint1 endpoint2 weight hub reliability_score];
      try rewrite C; reflexivity.
Qed.

Lemma final_hub_none (values : list (node * node * hub_label)) (e : edge)
      (h : option hub_label) :
  existsb (fun kv => connects (fst (fst kv)) (snd (fst kv)) e) values = false ->
  final_hub values e h = h.
Proof.
  unfold final_hub. revert h. induction values as [|kv values IH]; intros h H.
  - reflexivity.
  - simpl in H. apply orb_false_iff in H. destruct H as [Hkv H].
    cbn [fold_left]. rewrite Hkv. apply IH. assumption.
Qed.

Lemma final_hub_some (values : list (node * node * hub_label)) (e : edge)
      (h h' : option hub_label) :
  existsb (fun kv => connects (fst (fst kv)) (snd (fst kv)) e) values = true ->
  final_hub values e h = final_hub values e h'.
Proof.
  unfold final_hub. revert h h'.
  induction values as [|kv values IH]; intros h h' H.
  - discriminate.
  - cbn [fold_left]. simpl in H.
    destruct (connects (fst (fst kv)) (snd (fst kv)) e) eqn:C.
    + reflexivity.
    + apply IH. exact H.
Qed.

Lemma relabel_idempotent (values : list (node * node * hub_label)) (e : edge) :
  relabel values (relabel values e) = relabel values e.
Proof.
  unfold relabel. cbn [endpoint1 endpoint2 weight hub reliability_score].
  f_equal.
  assert (Hsame : forall h,
             final_hub values
                       (mkEdge (endpoint1 e) (endpoint2 e) (weight e)
                               (final_hub values e (hub e))
                               (reliability_score e)) h
             = final_hub values e h).
  { intro h. unfold final_hub. f_equal. }
  rewrite Hsame.
  destruct (existsb (fun kv => connects (fst (fst kv)) (snd (fst kv)) e) values)
    eqn:E.
  - apply final_hub_some. assumption.
  - rewrite !(final_hub_none _ _ _ E). reflexivity.
Qed.

Lemma relabel_weighted (values : list (node * node * hub_label))
      (es : list edge) :
  map (fun e => (endpoint1 e, endpoint2 e, weight e)) (map (relabel values) es)
  = map (fun e => (endpoint1 e, endpoint2 e, weight e)) es.
Proof. rewrite map_map. apply map_ext. intro e. reflexivity. Qed.

Lemma label_hubs_nodes (g g' : Graph) (adj adj' : list (node * nat))
      (value : hub_label) (hubs : list (nat * nat))
      (edge_vals : list (node * node * hub_label))
      (edge_scores : list (node * node * Q)) :
  nodes g = nodes g' ->
  label_hubs g adj None value hubs edge_vals edge_scores
  = label_hubs g' adj' None value hubs edge_vals edge_scores.
Proof.
  intro Hn. revert edge_vals edge_scores.
  induction hubs as [|edge hubs IH]; intros edge_vals edge_scores.
  - reflexivity.
  - cbn [label_hubs]. rewrite Hn.
    destruct (py_index (nodes g') (fst edge)) as [node1|]; [|reflexivity].
    cbn [rbind].
    destruct (py_index (nodes g') (snd edge)) as [node2|]; [|reflexivity].
    cbn [rbind]. apply IH.
Qed.

Lemma hub_values_nodes (g g' : Graph) (scoremat : matrix) (percentile : Q) :
  nodes g = nodes g' ->
  hub_values g scoremat percentile = hub_values g' scoremat percentile.
Proof.
  intro Hn. unfold hub_values.
  destruct (hub_positions scoremat percentile) as [flagged|]; [|reflexivity].
  cbn [rbind].
  rewrite (label_hubs_nodes g g' (make_adj_index g) (make_adj_index g')
                            negative_hub _ [] [] Hn).
  destruct (label_hubs g' (make_adj_index g') None negative_hub
                       (snd (fst flagged)) [] []) as [labelled|];
    [|reflexivity].
  cbn [rbind].
  rewrite (label_hubs_nodes g g' (make_adj_index g) (make_adj_index g')
                            positive_hub _ _ _ Hn).
  reflexivity.
Qed.

Lemma central_edge_unpermuted diffusion perm_graph
      (graph : Graph) (percentile error : Q) (w : world) :
  central_edge diffusion perm_graph graph percentile 0 error w
  = (w, match hub_values graph (central_scoremat diffusion graph) percentile with
        | Ok values => Ok (set_edge_attributes_hub graph values)
        | Raise e => Raise e
        end).
Proof.
  unfold central_edge, hub_values. fold (central_scoremat diffusion graph).
  cbn [Z.ltb Z.compare]. unfold bind, ret, lift.
  destruct (hub_positions (central_scoremat diffusion graph) percentile)
    as [flagged|]; [|reflexivity].
  cbn [rbind].
  destruct (label_hubs graph (make_adj_index graph) None negative_hub
                       (snd (fst flagged)) [] []) as [labelled|];
    [|reflexivity].
  cbn [rbind].
  destruct (label_hubs graph (make_adj_index graph) None positive_hub
                       (snd flagged) (fst labelled) (snd labelled));
    reflexivity.
Qed.

Lemma label_hubs_total (graph : Graph) (adj : list (node * nat))
      (value : hub_label) (hubs : list (nat * nat))
      (edge_vals : list (node * node * hub_label))
      (edge_scores : list (node * node * Q)) :
  (forall i j, In (i, j) hubs ->
               (i < length (nodes graph))%nat /\ (j < length (nodes graph))%nat) ->
  exists labelled,
    label_hubs graph adj None value hubs edge_vals edge_scores = Ok labelled.
Proof.
  revert edge_vals edge_scores.
  induction hubs as [|[i j] hubs IH]; intros edge_vals edge_scores H.
  - eexists. reflexivity.
  - cbn [label_hubs fst snd].
    destruct (H i j (or_introl eq_refl)) as [Hi Hj].
    rewrite (py_index_nth (nodes graph) i 0%Z Hi).
    rewrite (py_index_nth (nodes graph) j 0%Z Hj).
    cbn [rbind]. apply IH. intros; apply H; right; assumption.
Qed.

Lemma argwhere_fits (graph : Graph) (scoremat : matrix) (p : Q -> bool)
      (i j : nat) :
  fits_nodes graph scoremat = true ->
  In (i, j) (np_argwhere p scoremat) ->
  (i < length (nodes graph))%nat /\ (j < length (nodes graph))%nat.
Proof.
  unfold fits_nodes. rewrite andb_true_iff, Nat.leb_le, forallb_forall.
  intros [Hrows Hcols] Hin. apply np_argwhere_In in Hin.
  destruct Hin as [x [Hx _]]. apply matrix_get_Ok in Hx.
  destruct Hx as [row [Hrow Hj]].
  assert (Hi' : (i < length scoremat)%nat)
    by (apply nth_error_Some; congruence).
  assert (Hj' : (j < length row)%nat) by (apply nth_error_Some; congruence).
  apply nth_error_In in Hrow. apply Hcols in Hrow. apply Nat.leb_le in Hrow.
  lia.
Qed.

Lemma hub_values_total (graph : Graph) (scoremat : matrix) (percentile : Q) :
  0 <= percentile -> percentile <= 100 -> concat scoremat <> [] ->
  fits_nodes graph scoremat = true ->
  exists values, hub_values graph scoremat percentile = Ok values.
Proof.
  intros L U Hne Hfits.
  destruct (flagged_positions_valid scoremat percentile L U Hne)
    as [flagged [Hflag [Hneg Hpos]]].
  unfold hub_values. rewrite Hflag. cbn [rbind].
  destruct (label_hubs_total graph (make_adj_index graph) negative_hub
                             (snd (fst flagged)) [] []) as [l1 H1].
  { rewrite Hneg. intros i j. apply argwhere_fits. assumption. }
  rewrite H1. cbn [rbind].
  destruct (label_hubs_total graph (make_adj_index graph) positive_hub
                             (snd flagged) (fst l1) (snd l1)) as [l2 H2].
  { rewrite Hpos. intros i j. apply argwhere_fits. assumption. }
  rewrite H2. cbn [rbind]. eexists. reflexivity.
Qed.

(** C8: with [permutations = 0], [central_edge] consumes no random draw
    and writes nothing, and its result depends neither on the state of the
    random generator nor on the permutation routine or the error fraction,
    which it never consults.  Called again on the graph it has labelled,
    in any state of the generator, it leaves every edge with the same
    ['hub'] label (the graph is unchanged).  For a percentile in [0, 100]
    and a score matrix with an entry and no position beyond the nodes of
    the graph the call returns, leaving nodes and weighted edges as they
    were.  [diffusion] is a function of the nodes and the weighted
    edges. *)
Theorem central_edge_deterministic
        diffusion perm_graph (graph : Graph) (percentile error : Q) :
  (forall perm_graph' error' w w',
      fst (central_edge diffusion perm_graph graph percentile 0 error w) = w
      /\ snd (central_edge diffusion perm_graph graph percentile 0 error w)
         = snd (central_edge diffusion perm_graph' graph percentile 0 error'
                             w'))
  /\ (forall w w' labelled,
         snd (central_edge diffusion perm_graph graph percentile 0 error w)
         = Ok labelled ->
         central_edge diffusion perm_graph labelled percentile 0 error w'
         = (w', Ok labelled))
  /\ (0 <= percentile -> percentile <= 100 ->
      concat (central_scoremat diffusion graph) <> [] ->
      fits_nodes graph (central_scoremat diffusion graph) = true ->
      forall w, exists labelled,
        central_edge diffusion perm_graph graph percentile 0 error w
        = (w, Ok labelled)
        /\ nodes labelled = nodes graph
        /\ weighted_edges labelled = weighted_edges graph).
Proof.
  split; [|split].
  - intros perm_graph' error' w w'. rewrite !central_edge_unpermuted.
    split; reflexivity.
  - intros w w' labelled H. rewrite central_edge_unpermuted in H |- *.
    cbn [snd] in H.
    destruct (hub_values graph (central_scoremat diffusion graph) percentile)
      as [values|] eqn:Hv; [|discriminate].
    injection H as Hl.
    rewrite set_edge_attributes_hub_relabel in Hl.
    assert (Hn : nodes labelled = nodes graph) by (rewrite <- Hl; reflexivity).
    assert (Hw : weighted_edges labelled = weighted_edges graph).
    { rewrite <- Hl. unfold weighted_edges, with_edges. cbn [edges].
      apply relabel_weighted. }
    assert (Hs : central_scoremat diffusion labelled
                 = central_scoremat diffusion graph).
    { unfold central_scoremat. rewrite Hn, Hw. reflexivity. }
    rewrite Hs, (hub_values_nodes labelled graph _ _ Hn), Hv.
    rewrite set_edge_attributes_hub_relabel. f_equal. f_equal.
    rewrite <- Hl. unfold with_edges. cbn [nodes edges cluster_attr].
    f_equal. rewrite map_map. apply map_ext. apply relabel_idempotent.
  - intros L U Hne Hfits w. rewrite central_edge_unpermuted.
    destruct (hub_values_total graph (central_scoremat diffusion graph)
                               percentile L U Hne Hfits) as [values Hv].
    rewrite Hv. eexists. split; [reflexivity|].
    rewrite set_edge_attributes_hub_relabel. split; [reflexivity|].
    unfold weighted_edges, with_edges. cbn [edges]. apply relabel_weighted.
Qed.

Lemma central_edge_deterministic_witness :
  exists labelled,
    central_edge (toy_diffusion hub_scoremat false []) no_perm_graph
                 hub_triangle 10 0 (1 # 10) world0 = (world0, Ok labelled)
    /\ map hub (edges labelled)
       = [Some positive_hub; None; Some negative_hub]
    /\ central_edge (toy_diffusion hub_scoremat false []) no_perm_graph
                    labelled 10 0 (1 # 10) (mkWorld 7 [])
       = (mkWorld 7 [], Ok labelled).
Proof.
  destruct (central_edge_deterministic
              (toy_diffusion hub_scoremat false []) no_perm_graph
              hub_triangle 10 (1 # 10)) as [_ [Hagain Htotal]].
  destruct (Htotal ltac:(unfold Qle; simpl; lia) ltac:(unfold Qle; simpl; lia)
                   ltac:(discriminate) eq_refl world0)
    as [labelled [Hrun _]].
  exists labelled. split; [exact Hrun|]. split.
  - assert (Hc : central_edge (toy_diffusion hub_scoremat false [])
                              no_perm_graph hub_triangle 10 0 (1 # 10) world0
                 = (world0,
                    Ok (set_edge_attributes_hub
                          hub_triangle
                          [(1%Z, 3%Z, negative_hub); (3%Z, 1%Z, negative_hub);
                           (1%Z, 2%Z, positive_hub); (2%Z, 1%Z, positive_hub)])))
      by reflexivity.
    rewrite Hc in Hrun. inversion Hrun. reflexivity.
  - apply (Hagain world0). rewrite Hrun. reflexivity.
Defined.

(** ** The centroid matching returns *)

Lemma dict_update_nth {A} (d : list A) (key : nat) (a dflt : A) (i : nat) :
  nth i (dict_update d key a) dflt
  = if Nat.eqb i key && (key <? length d)%nat then a else nth i d dflt.
Proof.
  revert key i. induction d as [|x d IH]; intros key i.
  - simpl. rewrite andb_false_r. destruct key; reflexivity.
  - destruct key as [|key], i as [|i]; simpl; try reflexivity.
    rewrite IH. reflexivity.
Qed.

(** ** cluster_fuzzy: labels and centroids from two fits *)

(** C5, at a failing input: five identical snapshots of the two triangles
    all separate, k-means finds the same two clusters in every fit, and
    with one numbering of the clusters in all fits the assignment of the
    last snapshot is returned unchanged.  The labels and the centroids of a
    snapshot come from two fits (lines 275 and 276): when the fits for the
    centroids of two of the three earlier snapshots number the same two
    clusters the other way round, the labels of those snapshots are looked
    up under the wrong centroids, every node is counted stable in one of
    three earlier snapshots only, and every label becomes 100, although no
    node ever changes its cluster. *)
Theorem cluster_fuzzy_independent_fits :
  Forall (fun d => exists centers,
              renumbering_KMeans_fit d 2 (snapshot [0; 0; 0; 1; 1; 1]%Z)
              = Ok ([0; 0; 0; 1; 1; 1]%Z, centers))
         [5; 7; 9; 11]%nat
  /\ snd (cluster_fuzzy no_swaps toy_KMeans_fit two_triangles
                        (make_rev_index two_triangles) stable_diffs 2 2
                        "KMeans" world0)
     = Ok [0; 0; 0; 1; 1; 1]%Z
  /\ snd (cluster_fuzzy no_swaps renumbering_KMeans_fit two_triangles
                        (make_rev_index two_triangles) stable_diffs 2 2
                        "KMeans" world0)
     = Ok [100; 100; 100; 100; 100; 100]%Z.
Proof.
  split; [|split].
  - repeat (apply Forall_cons; [eexists; vm_compute; reflexivity|]).
    apply Forall_nil.
  - vm_compute. reflexivity.
  - vm_compute. reflexivity.
Qed.

(** The sum of line 301 is rounded: for a node that is stable in six of
    twelve earlier snapshots, a fraction of exactly one half, the six
    additions of the binary64 quotient 1/12 give 0.49999999999999994, which
    is below 0.5, and line 305 marks the node with 100. *)
Example half_stable_node_below_half :
  binary64_clusprob 12 (repeat true 6 ++ repeat false 6)
  = SpecFloat.S754_finite false 9007199254740991 (-54)
  /\ Binary64.ltb (binary64_clusprob 12 (repeat true 6 ++ repeat false 6))
                  (Binary64.div (Binary64.of_nat 1) (Binary64.of_nat 2))
     = true.
Proof. vm_compute. split; reflexivity. Qed.

(** ** Evaluations on the test data *)

Example sparsity_score_edgeless_graph :
  sparsity_score no_swaps edgeless_graph [0; 1]%Z
                 (make_rev_index edgeless_graph)
  = Raise ZeroDivisionError.
Proof. reflexivity. Qed.

Example cluster_graph_edgeless_graph :
  snd (cluster_graph no_swaps toy_KMeans_fit split_bits
                     (toy_diffusion [[0; 0]; [0; 0]] false [])
                     edgeless_graph (1 # 100) 3 2 100 "KMeans" world0)
  = Raise ZeroDivisionError.
Proof. reflexivity. Qed.

Example sparsity_score_two_triangles :
  exists good bad,
    sparsity_score no_swaps two_triangles [0; 0; 0; 1; 1; 1]%Z
                   (make_rev_index two_triangles) = Ok good
    /\ sparsity_score all_swaps two_triangles [0; 1; 0; 1; 0; 1]%Z
                      (make_rev_index two_triangles) = Ok bad
    /\ good == - (1) /\ bad == 1 # 7.
Proof.
  eexists. eexists. split; [reflexivity|]. split; [reflexivity|].
  split; reflexivity.
Qed.

Example np_percentile_tenth :
  exists t,
    np_percentile [[1; 2; 3]; [4; 5; 6]; [7; 8; 9]] 10 = Ok (Some t)
    /\ t == 9 # 5.
Proof. eexists. split; reflexivity. Qed.

Example cluster_fuzzy_single_separating_snapshot :
  snd (cluster_fuzzy no_swaps toy_KMeans_fit pendant_graph
                     (make_rev_index pendant_graph)
                     [snapshot [0; 1; 0; 1; 0; 1; 1]%Z;
                      snapshot [0; 0; 0; 1; 1; 1; 0]%Z] 2 2 "KMeans" world0)
  = Raise IndexError.
Proof. reflexivity. Qed.

(** * Further properties *)

(** ** sparsity_score: orientation, cluster names and extreme values *)

(** The score does not depend on the orientation in which the subgraph
    views report their edges: the check of both [(u, v)] and [(v, u)] at
    line 218 makes the two enumerations agree. *)
Theorem sparsity_score_orientation_independent
        views views' (graph : Graph) (clusters : list Z) :
  wf_graph graph = true ->
  (0 < length (edges graph))%nat ->
  length clusters = length (nodes graph) ->
  exists s s',
    sparsity_score views graph clusters (make_rev_index graph) = Ok s
    /\ sparsity_score views' graph clusters (make_rev_index graph) = Ok s'
    /\ s == s'.
Proof.
  intros WF Hpos Hlen.
  destruct (sparsity_score_sum views graph clusters WF Hpos Hlen)
    as [s [Hs Es]].
  destruct (sparsity_score_sum views' graph clusters WF Hpos Hlen)
    as [s' [Hs' Es']].
  exists s, s'. split; [exact Hs|]. split; [exact Hs'|].
  rewrite Es, Es'. reflexivity.
Qed.

Lemma sparsity_score_orientation_independent_witness :
  exists s s',
    sparsity_score no_swaps pendant_graph [0; 0; 0; 1; 1; 1; 0]%Z
                   (make_rev_index pendant_graph) = Ok s
    /\ sparsity_score all_swaps pendant_graph [0; 0; 0; 1; 1; 1; 0]%Z
                      (make_rev_index pendant_graph) = Ok s'
    /\ s == s'.
Proof.
  apply (sparsity_score_orientation_independent
           no_swaps all_swaps pendant_graph [0; 0; 0; 1; 1; 1; 0]%Z).
  - reflexivity.
  - simpl. lia.
  - reflexivity.
Defined.

(** ** cluster_hard: the selected cluster count *)

Lemma argmin_from_spec (l : list Q) (best_i : nat) (best : Q) (i : nat) :
  (best_i < i)%nat ->
  let r := argmin_from best_i best i l in
  let m := fold_left (fun m y => if Qltb y m then y else m) l best in
  ((r = best_i /\ m = best)
   \/ ((i <= r < i + length l)%nat
       /\ nth (r - i) l 0 = m
       /\ m < best
       /\ forall j, (j < r - i)%nat -> m < nth j l 0))
  /\ m <= best
  /\ Forall (Qle m) l.
Proof.
  revert best_i best i. induction l as [|x l IH]; intros best_i best i Hlt.
  - simpl. split; [left; split; reflexivity|]. split; [lra | constructor].
  - cbn [argmin_from fold_left]. destruct (Qltb x best) eqn:E.
    + apply Qltb_lt in E.
      destruct (IH i x (S i) (Nat.lt_succ_diag_r i)) as [Hcase [Hle Hall]].
      cbv zeta in Hcase, Hle, Hall.
      set (r := argmin_from i x (S i) l) in *.
      set (m := fold_left (fun m y => if Qltb y m then y else m) l x) in *.
      split; [right|split].
      * destruct Hcase as [[Hr Hm]|[Hr [Hn [Hs Hf]]]].
        -- rewrite Hr, Hm. split; [simpl; lia|].
           rewrite Nat.sub_diag. split; [reflexivity|]. split; [assumption|].
           intros j Hj. lia.
        -- split; [simpl; lia|].
           replace (r - i)%nat with (S (r - S i)) by lia.
           split; [exact Hn|]. split; [lra|].
           intros [|j] Hj; simpl; [assumption | apply Hf; lia].
      * lra.
      * constructor; assumption.
    + apply Qltb_ge in E.
      destruct (IH best_i best (S i) (Nat.lt_lt_succ_r _ _ Hlt))
        as [Hcase [Hle Hall]].
      cbv zeta in Hcase, Hle, Hall.
      set (r := argmin_from best_i best (S i) l) in *.
      set (m := fold_left (fun m y => if Qltb y m then y else m) l best) in *.
      split; [|split].
      * destruct Hcase as [[Hr Hm]|[Hr [Hn [Hs Hf]]]].
        -- left. split; assumption.
        -- right. split; [simpl; lia|].
           replace (r - i)%nat with (S (r - S i)) by lia.
           split; [exact Hn|]. split; [assumption|].
           intros [|j] Hj; simpl; [lra | apply Hf; lia].
      * assumption.
      * constructor; [lra | assumption].
Qed.

Lemma np_argmin_spec (l : list Q) (r : nat) :
  np_argmin l = Ok r ->
  (r < length l)%nat
  /\ np_min l = Ok (nth r l 0)
  /\ Forall (Qle (nth r l 0)) l
  /\ forall j, (j < r)%nat -> nth r l 0 < nth j l 0.
Proof.
  destruct l as [|x l]; [discriminate|]. cbn [np_argmin np_min].
  intro H. injection H as Hr.
  destruct (argmin_from_spec l 0 x 1 Nat.lt_0_1) as [Hcase [Hle Hall]].
  cbv zeta in Hcase, Hle, Hall. rewrite Hr in Hcase. clear Hr.
  set (m := fold_left (fun m y => if Qltb y m then y else m) l x) in *.
  destruct Hcase as [[Hr0 Hm]|[Hrange [Hn [Hs Hf]]]].
  - subst r. cbn [nth length]. rewrite Hm in *.
    split; [lia|]. split; [reflexivity|].
    split; [constructor; [lra | assumption]|]. intros j Hj. lia.
  - destruct r as [|r]; [lia|]. cbn [nth length].
    replace (S r - 1)%nat with r in * by lia. rewrite Hn.
    split; [lia|]. split; [reflexivity|].
    split; [constructor; [lra | assumption]|].
    intros [|j] Hj; simpl; [assumption | apply Hf; lia].
Qed.

Lemma py_range_nth (lo hi : Z) (idx : nat) :
  (idx < Z.to_nat (hi - lo))%nat ->
  nth_error (py_range lo hi) idx = Some (lo + Z.of_nat idx)%Z.
Proof.
  intro H. unfold py_range.
  rewrite nth_error_map, nth_error_seq.
  destruct (Nat.ltb_spec idx (Z.to_nat (hi - lo))) as [_|Hge]; [|lia].
  reflexivity.
Qed.

Lemma py_range_length (lo hi : Z) :
  length (py_range lo hi) = Z.to_nat (hi - lo).
Proof. unfold py_range. rewrite length_map, length_seq. reflexivity. Qed.

Lemma hard_sweep_spec
      views KMeans_fit (graph : Graph) (rev_index : list (nat * node))
      (scoremat : matrix) (ks : list Z) (scores : list Q) (w w' : world)
      (scores' : list Q) :
  hard_sweep views KMeans_fit graph rev_index scoremat ks scores w
  = (w', Ok scores') ->
  exists rest,
    scores' = scores ++ rest
    /\ length rest = length ks
    /\ draws w' = (draws w + length ks)%nat
    /\ forall idx k,
         nth_error ks idx = Some k ->
         exists fitted,
           KMeans_fit (draws w + idx)%nat k scoremat = Ok fitted
           /\ sparsity_score views graph (fst fitted) rev_index
              = Ok (nth idx rest 0).
Proof.
  revert scores w. induction ks as [|k0 ks IH]; intros scores w H.
  - cbn [hard_sweep] in H. unfold ret in H. injection H as Hw Hs.
    exists []. rewrite app_nil_r. subst. repeat split; try lia; auto.
    intros [|idx] k Hk; discriminate.
  - cbn [hard_sweep] in H.
    unfold bind at 1 in H. unfold KMeans_fit_predict in H.
    unfold bind at 1 2 in H. unfold draw at 1 in H. unfold lift at 1 in H.
    cbn [draws stdout] in H.
    destruct (KMeans_fit (draws w) k0 scoremat) as [fitted|e] eqn:Ef;
      [|discriminate H].
    unfold ret at 1 in H. cbn [fst] in H.
    unfold bind at 1 in H. unfold lift at 1 in H.
    destruct (sparsity_score views graph (fst fitted) rev_index)
      as [score|e] eqn:Es; [|discriminate H].
    unfold bind at 1 in H. unfold write at 1 in H. cbn [draws stdout] in H.
    apply IH in H. destruct H as [rest [Hs [Hl [Hd Hall]]]].
    cbn [draws] in Hd, Hall.
    exists (score :: rest). split; [|split; [|split]].
    + rewrite Hs, <- app_assoc. reflexivity.
    + simpl. lia.
    + simpl. lia.
    + intros [|idx] k Hk; cbn [nth_error] in Hk.
      * injection Hk as <-. exists fitted. rewrite Nat.add_0_r.
        split; [exact Ef | exact Es].
      * destruct (Hall idx k Hk) as [f [Hf Hsc]]. exists f.
        replace (draws w + S idx)%nat with (S (draws w) + idx)%nat by lia.
        split; [exact Hf | exact Hsc].
Qed.

(** When a k-means candidate beats the random baseline, [cluster_hard]
    selects the first cluster count whose assignment had the lowest score
    in the sweep, a count within [[min_clusters, max_clusters]], writes it
    with that score, and returns a new fit with that count (line 343), made
    after all the fits of the sweep. *)
Theorem cluster_hard_selects_first_minimum
        views KMeans_fit random_bit
        (graph : Graph) (rev_index : list (nat * node)) (scoremat : matrix)
        (max_clusters min_clusters : Z) (w w2 : world) (score0 : Q)
        (scores : list Q) (i : nat) :
  sparsity_score views graph (randomclust_of random_bit w scoremat) rev_index
  = Ok score0 ->
  hard_sweep views KMeans_fit graph rev_index scoremat
             (py_range min_clusters (max_clusters + 1)) [score0]
             (after_baseline w score0) = (w2, Ok scores) ->
  np_argmin scores = Ok (S i) ->
  let k := (min_clusters + Z.of_nat i)%Z in
  cluster_hard views KMeans_fit random_bit graph rev_index scoremat
               max_clusters min_clusters "KMeans" w
  = (mkWorld (S (draws w2))
             (stdout w2 ++ [LowestScore k (nth (S i) scores 0)]),
     match KMeans_fit (draws w2) k scoremat with
     | Ok fitted => Ok (fst fitted)
     | Raise e => Raise e
     end)
  /\ (min_clusters <= k <= max_clusters)%Z
  /\ (exists fitted,
         KMeans_fit (S (draws w) + i)%nat k scoremat = Ok fitted
         /\ sparsity_score views graph (fst fitted) rev_index
            = Ok (nth (S i) scores 0))
  /\ (S (draws w) + i < draws w2)%nat
  /\ Forall (Qle (nth (S i) scores 0)) scores
  /\ forall j, (j < S i)%nat -> nth (S i) scores 0 < nth j scores 0.
Proof.
  intros Hbase Hsweep Hmin k.
  destruct (np_argmin_spec scores (S i) Hmin) as [Hlt [Hnpmin [Hall Hfirst]]].
  destruct (hard_sweep_spec _ _ _ _ _ _ _ _ _ _ Hsweep)
    as [rest [Hs [Hl [Hd Hfits]]]].
  rewrite py_range_length in Hl, Hd. cbn [after_baseline draws] in Hd, Hfits.
  assert (Hi : (i < Z.to_nat (max_clusters + 1 - min_clusters))%nat).
  { rewrite Hs in Hlt. simpl in Hlt. lia. }
  split; [|split; [|split; [|split; [|split]]]]; try assumption.
  - unfold cluster_hard, np_random_randint2.
    unfold bind at 1 2. unfold draw, ret. cbn [draws stdout].
    unfold bind at 1. unfold lift at 1.
    unfold randomclust_of in Hbase. rewrite Hbase.
    unfold bind at 1. unfold write at 1. cbn [draws stdout].
    cbn [String.eqb Ascii.eqb Bool.eqb].
    unfold bind at 1. unfold after_baseline in Hsweep. rewrite Hsweep.
    unfold bind at 1. unfold lift at 1. rewrite Hmin.
    replace (Z.of_nat (S i) + min_clusters - 1)%Z with k by (unfold k; lia).
    assert (T : (min_clusters <=? k)%Z = true)
      by (apply Z.leb_le; unfold k; lia).
    rewrite T. run_monad. rewrite Hnpmin. cbn [draws stdout].
    destruct (KMeans_fit (draws w2) k scoremat); reflexivity.
  - unfold k. lia.
  - destruct (Hfits i k) as [fitted [Hf Hsc]].
    { apply py_range_nth. assumption. }
    exists fitted. split; [exact Hf|].
    rewrite Hsc, Hs. reflexivity.
  - lia.
Qed.

Lemma cluster_hard_selects_first_minimum_witness :
  cluster_hard no_swaps toy_KMeans_fit (fun _ _ => true) pendant_graph
               (make_rev_index pendant_graph)
               (snapshot [0; 0; 0; 1; 1; 1; 1]%Z) 3 2 "KMeans" world0
  = (mkWorld 4 [RandomSparsity (-12582912 # 16777216);
                SparsityLevel 2 (-16777216 # 16777216);
                SparsityLevel 3 (-16777216 # 16777216);
                LowestScore 2 (-16777216 # 16777216)],
     Ok [0; 0; 0; 1; 1; 1; 1]%Z).
Proof.
  apply (cluster_hard_selects_first_minimum
           no_swaps toy_KMeans_fit (fun _ _ => true) pendant_graph
           (make_rev_index pendant_graph) (snapshot [0; 0; 0; 1; 1; 1; 1]%Z)
           3 2 world0
           (mkWorld 3 [RandomSparsity (-12582912 # 16777216);
                       SparsityLevel 2 (-16777216 # 16777216);
                       SparsityLevel 3 (-16777216 # 16777216)])
           (-12582912 # 16777216)
           [-12582912 # 16777216; -16777216 # 16777216;
            -16777216 # 16777216] 0%nat);
    reflexivity.
Defined.

(** ** cluster_fuzzy: edge cases and the selected cluster counts *)

(** With exactly one separating snapshot nothing is fitted (the loop at
    line 272 skips the first separating snapshot), [centroids] stays empty
    and [centroids[-1]] at line 285 raises [IndexError]. *)
Theorem cluster_fuzzy_one_separating_snapshot
        views KMeans_fit
        (graph : Graph) (rev_index : list (nat * node)) (diffs : list matrix)
        (max_clusters min_clusters : Z) (cluster : string) (w w1 : world)
        (difscores : list Q) (topscores : list Z) (a : nat) :
  score_snapshots views KMeans_fit graph rev_index diffs 0
                  max_clusters min_clusters cluster [] [] None w
  = (w1, Ok (difscores, topscores)) ->
  np_where_lt difscores (- (1 # 2)) = [a] ->
  cluster_fuzzy views KMeans_fit graph rev_index diffs
                max_clusters min_clusters cluster w
  = (mkWorld (draws w1) (stdout w1 ++ [UsingIterations [a]]),
     Raise IndexError).
Proof.
  intros Hscore Hsep.
  destruct (score_snapshots_lengths _ _ _ _ _ _ _ _ _ _ _ _ _ _ _ _ Hscore)
    as [Hd Ht].
  simpl in Hd, Ht.
  assert (Ha : (a < length difscores)%nat).
  { assert (H : In a (np_where_lt difscores (- (1 # 2))))
      by (rewrite Hsep; left; reflexivity).
    apply np_where_lt_from_In in H. lia. }
  unfold cluster_fuzzy. unfold bind at 1. rewrite Hscore. cbn [fst snd].
  unfold select_fuzzy. rewrite Hsep.
  unfold bind at 1. unfold write at 1.
  unfold bind at 1. unfold lift at 1. cbn [py_last rev app].
  unfold bind at 1. unfold lift at 1.
  rewrite (py_index_nth topscores a 0%Z) by lia.
  reflexivity.
Qed.

Lemma cluster_fuzzy_one_separating_snapshot_witness :
  cluster_fuzzy no_swaps toy_KMeans_fit pendant_graph
                (make_rev_index pendant_graph)
                [snapshot [0; 1; 0; 1; 0; 1; 1]%Z;
                 snapshot [0; 0; 0; 1; 1; 1; 0]%Z] 2 2 "KMeans" world0
  = (mkWorld 2 [IterationLowest 0 2 (0 # 16777216);
                IterationLowest 1 2 (-12582912 # 16777216);
                UsingIterations [1%nat]],
     Raise IndexError).
Proof.
  apply (cluster_fuzzy_one_separating_snapshot
           no_swaps toy_KMeans_fit pendant_graph (make_rev_index pendant_graph)
           [snapshot [0; 1; 0; 1; 0; 1; 1]%Z; snapshot [0; 0; 0; 1; 1; 1; 0]%Z]
           2 2 "KMeans" world0
           (mkWorld 2 [IterationLowest 0 2 (0 # 16777216);
                       IterationLowest 1 2 (-12582912 # 16777216)])
           [0 # 16777216; -12582912 # 16777216] [2; 2]%Z 1%nat);
    reflexivity.
Defined.

Lemma cluster_hard_unsupported_raises
      views KMeans_fit random_bit
      (graph : Graph) (rev_index : list (nat * node)) (scoremat : matrix)
      (max_clusters min_clusters : Z) (cluster : string) (w : world) :
  String.eqb cluster "KMeans" = false ->
  raises (cluster_hard views KMeans_fit random_bit graph rev_index scoremat
                       max_clusters min_clusters cluster w).
Proof.
  intro Hm. unfold cluster_hard. rewrite Hm. run_monad.
  destruct (sparsity_score views graph _ rev_index) as [s|e].
  - exists UnboundLocalError. reflexivity.
  - exists e. reflexivity.
Qed.

(** With a [cluster] argument other than ['KMeans'], [cluster_fuzzy] never
    returns: [np.argmin] of the empty list of scores raises [ValueError]
    at line 258 for the first snapshot, before anything is written, and
    an empty list of snapshots ends in the [IndexError] of line 266.
    [cluster_graph] therefore never returns a result either, in its hard
    as in its fuzzy path. *)
Theorem unsupported_method_never_returns
        views KMeans_fit random_bit diffusion
        (graph : Graph) (rev_index : list (nat * node)) (diffs : list matrix)
        (limit : Q) (max_clusters min_clusters iterations : Z)
        (cluster : string) (w : world) :
  String.eqb cluster "KMeans" = false ->
  cluster_fuzzy views KMeans_fit graph rev_index diffs
                max_clusters min_clusters cluster w
  = match diffs with
    | [] => (mkWorld (draws w) (stdout w ++ [UsingIterations []]),
             Raise IndexError)
    | _ :: _ => (w, Raise ValueError)
    end
  /\ raises (cluster_graph views KMeans_fit random_bit diffusion graph limit
                           max_clusters min_clusters iterations cluster w).
Proof.
  intro Hm.
  assert (Hfuzzy : forall rev ds,
             cluster_fuzzy views KMeans_fit graph rev ds
                           max_clusters min_clusters cluster w
             = match ds with
               | [] => (mkWorld (draws w) (stdout w ++ [UsingIterations []]),
                        Raise IndexError)
               | _ :: _ => (w, Raise ValueError)
               end).
  { intros rev ds. unfold cluster_fuzzy. destruct ds as [|scoremat ds].
    - reflexivity.
    - cbn [score_snapshots]. rewrite Hm. reflexivity. }
  split; [apply Hfuzzy|].
  unfold cluster_graph. apply bind_raises. destruct (negb _).
  - apply cluster_hard_unsupported_raises. assumption.
  - rewrite Hfuzzy. destruct (snd _); [exists IndexError | exists ValueError];
      reflexivity.
Qed.

Lemma unsupported_method_never_returns_witness :
  cluster_fuzzy no_swaps toy_KMeans_fit pendant_graph
                (make_rev_index pendant_graph) fuzzy_diffs 3 2 "DBSCAN" world0
  = (world0, Raise ValueError)
  /\ raises (cluster_graph no_swaps toy_KMeans_fit split_bits
                           (toy_diffusion (snapshot [0; 0; 0; 1; 1; 1; 1]%Z)
                                          true fuzzy_diffs)
                           pendant_graph (1 # 100) 3 2 100 "DBSCAN" world0).
Proof.
  apply (unsupported_method_never_returns
           no_swaps toy_KMeans_fit split_bits
           (toy_diffusion (snapshot [0; 0; 0; 1; 1; 1; 1]%Z) true fuzzy_diffs)
           pendant_graph (make_rev_index pendant_graph) fuzzy_diffs
           (1 # 100) 3 2 100 "DBSCAN" world0).
  reflexivity.
Defined.

Lemma fuzzy_sweep_length
      views KMeans_fit (graph : Graph) (rev_index : list (nat * node))
      (scoremat : matrix) (ks : list Z) (scores : list Q) (w w' : world)
      (scores' : list Q) :
  fuzzy_sweep views KMeans_fit graph rev_index scoremat ks scores w
  = (w', Ok scores') ->
  length scores' = (length scores + length ks)%nat
  /\ draws w' = (draws w + length ks)%nat.
Proof.
  revert scores w. induction ks as [|k ks IH]; intros scores w H.
  - cbn [fuzzy_sweep] in H. unfold ret in H. injection H as Hw Hs.
    subst. simpl. lia.
  - cbn [fuzzy_sweep] in H.
    unfold bind at 1 in H. unfold KMeans_fit_predict in H.
    unfold bind at 1 2 in H. unfold draw at 1 in H. unfold lift at 1 in H.
    cbn [draws stdout] in H.
    destruct (KMeans_fit (draws w) k scoremat) as [fitted|e];
      [|discriminate H].
    unfold ret at 1 in H. cbn [fst] in H.
    unfold bind at 1 in H. unfold lift at 1 in H.
    destruct (sparsity_score views graph (fst fitted) rev_index)
      as [score|e]; [|discriminate H].
    apply IH in H. rewrite length_app in H. cbn [draws length] in H |- *. lia.
Qed.

Lemma score_snapshots_invariant
      views KMeans_fit (graph : Graph) (rev_index : list (nat * node))
      (snapshots : list matrix) (j : nat) (max_clusters min_clusters : Z)
      (cluster : string) (difscores : list Q) (topscores : list Z)
      (topscore : option Z) (w w' : world) (ds : list Q) (ts : list Z) :
  score_snapshots views KMeans_fit graph rev_index snapshots j
                  max_clusters min_clusters cluster difscores topscores
                  topscore w = (w', Ok (ds, ts)) ->
  Forall (fun k => (min_clusters <= k <= max_clusters)%Z) topscores ->
  Forall (fun k => (min_clusters <= k <= max_clusters)%Z) ts
  /\ draws w'
     = (draws w
        + length snapshots * Z.to_nat (max_clusters + 1 - min_clusters))%nat
  /\ (snapshots <> [] -> String.eqb cluster "KMeans" = true).
Proof.
  revert j difscores topscores topscore w.
  induction snapshots as [|scoremat rest IH];
    intros j difscores topscores topscore w H Hts.
  - cbn [score_snapshots] in H. unfold ret in H. injection H as Hw Hd Ht.
    subst. split; [assumption|]. split; [simpl; lia | congruence].
  - cbn [score_snapshots] in H.
    destruct (String.eqb cluster "KMeans") eqn:Hm.
    2:{ unfold bind at 1 in H. unfold ret at 1 in H. cbn [fst snd] in H.
        unfold bind at 1 in H. unfold lift at 1 in H. simpl in H.
        discriminate H. }
    bind_inv H.
    (* the sweep of this snapshot *)
    bind_inv E. bind_inv E. bind_inv E. bind_inv E.
    unfold lift in E1, E2. unfold write in E3. unfold ret in E.
    injection E1 as Hw1 Hbest. injection E2 as Hw2 Hlow.
    injection E3 as Hw3 _. injection E as Hw4 Ha.
    destruct (fuzzy_sweep_length _ _ _ _ _ _ _ _ _ _ E0) as [Hlen Hdraws].
    rewrite py_range_length in Hlen, Hdraws. simpl in Hlen.
    destruct (np_argmin_spec _ _ Hbest) as [Hlt _].
    subst a. cbn [fst snd] in H.
    bind_inv H. bind_inv H. bind_inv H.
    unfold lift in E, E1. unfold ret in E2.
    injection E as Hw5 _. injection E1 as Hw6 _. injection E2 as Hw7 Hbound.
    apply IH in H.
    + destruct H as [Hall [Hd _]]. split; [assumption|]. split; [|reflexivity].
      rewrite Hd. subst. cbn [draws length]. lia.
    + apply Forall_app. split; [assumption|]. constructor; [|constructor].
      rewrite <- Hbound. lia.
Qed.

(** Every snapshot gets one score and one cluster count, the count lies
    within [[min_clusters, max_clusters]], and the sweep makes one k-means
    fit per snapshot and candidate count. *)
Theorem score_snapshots_counts_in_range
        views KMeans_fit
        (graph : Graph) (rev_index : list (nat * node)) (diffs : list matrix)
        (max_clusters min_clusters : Z) (cluster : string) (w w1 : world)
        (difscores : list Q) (topscores : list Z) :
  score_snapshots views KMeans_fit graph rev_index diffs 0
                  max_clusters min_clusters cluster [] [] None w
  = (w1, Ok (difscores, topscores)) ->
  length difscores = length diffs
  /\ length topscores = length diffs
  /\ Forall (fun k => (min_clusters <= k <= max_clusters)%Z) topscores
  /\ draws w1
     = (draws w
        + length diffs * Z.to_nat (max_clusters + 1 - min_clusters))%nat.
Proof.
  intro H.
  destruct (score_snapshots_lengths _ _ _ _ _ _ _ _ _ _ _ _ _ _ _ _ H)
    as [Hd Ht].
  destruct (score_snapshots_invariant _ _ _ _ _ _ _ _ _ _ _ _ _ _ _ _ H
                                      (Forall_nil _)) as [Hall [Hdraws _]].
  simpl in Hd, Ht. repeat split; assumption.
Qed.

Lemma score_snapshots_counts_in_range_witness :
  length fuzzy_difscores = 5%nat
  /\ length fuzzy_topscores = 5%nat
  /\ Forall (fun k => (2 <= k <= 2)%Z) fuzzy_topscores
  /\ draws fuzzy_world1 = 5%nat.
Proof.
  apply (score_snapshots_counts_in_range
           no_swaps toy_KMeans_fit pendant_graph (make_rev_index pendant_graph)
           fuzzy_diffs 2 2 "KMeans" world0
           fuzzy_world1 fuzzy_difscores fuzzy_topscores).
  reflexivity.
Defined.

(** ** Centroid matching: the contents of clusdict *)

Lemma clusdict_append_cells (clusdict clusdict' : clusdict_t) (c j m : nat) :
  clusdict_append clusdict c j m = Ok clusdict' ->
  forall c' j',
    nth j' (nth c' clusdict' []) []
    = if Nat.eqb c' c && Nat.eqb j' j
      then nth j (nth c clusdict []) [] ++ [m]
      else nth j' (nth c' clusdict []) [].
Proof.
  unfold clusdict_append, dict_lookup.
  destruct (nth_error clusdict c) as [row|] eqn:Er; [|discriminate].
  cbn [rbind]. destruct (nth_error row j) as [cell|] eqn:Ec; [|discriminate].
  cbn [rbind]. intro H. injection H as <-. intros c' j'.
  assert (Hc : (c < length clusdict)%nat)
    by (apply nth_error_Some; congruence).
  assert (Hj : (j < length row)%nat) by (apply nth_error_Some; congruence).
  assert (Hrow : nth c clusdict [] = row) by (apply nth_error_nth; assumption).
  assert (Hcell : nth j row [] = cell) by (apply nth_error_nth; assumption).
  rewrite dict_update_nth.
  assert (T1 : (c <? length clusdict)%nat = true) by (apply Nat.ltb_lt; lia).
  assert (T2 : (j <? length row)%nat = true) by (apply Nat.ltb_lt; lia).
  rewrite T1, andb_true_r.
  destruct (Nat.eqb_spec c' c) as [->|Hne]; cbn [andb]; [|reflexivity].
  rewrite dict_update_nth, T2, andb_true_r, Hrow, Hcell.
  destruct (Nat.eqb j' j); reflexivity.
Qed.

Lemma match_centers_cells (core_centers iter_centers : list (list Q))
      (j m0 : nat) (clusdict clusdict' : clusdict_t) :
  match_centers core_centers iter_centers j m0 clusdict = Ok clusdict' ->
  forall c j' m,
    In m (nth j' (nth c clusdict' []) []) <->
    In m (nth j' (nth c clusdict []) [])
    \/ (j' = j /\ (m0 <= m)%nat
        /\ exists iter, nth_error iter_centers (m - m0) = Some iter
                        /\ nearest_core core_centers iter = Ok c).
Proof.
  revert m0 clusdict. induction iter_centers as [|iter rest IH];
    intros m0 clusdict H c j' m.
  - cbn [match_centers] in H. injection H as <-. split; [tauto|].
    intros [H|[_ [_ [it [Hit _]]]]]; [assumption|].
    destruct (m - m0)%nat; discriminate.
  - cbn [match_centers] in H.
    assert (Hnear : exists c0 cd1,
               nearest_core core_centers iter = Ok c0
               /\ clusdict_append clusdict c0 j m0 = Ok cd1
               /\ match_centers core_centers rest j (S m0) cd1 = Ok clusdict').
    { unfold nearest_core.
      destruct (center_diffs iter core_centers) as [diff|]; [|discriminate].
      cbn [rbind] in H |- *.
      destruct (py_min diff) as [lowest|]; [|discriminate].
      cbn [rbind] in H |- *.
      destruct (list_index lowest diff) as [c0|]; [|discriminate].
      cbn [rbind] in H.
      destruct (clusdict_append clusdict c0 j m0) as [cd1|] eqn:Ea;
        [|discriminate].
      cbn [rbind] in H. exists c0, cd1.
      split; [reflexivity|]. split; assumption. }
    destruct Hnear as [c0 [cd1 [Hc0 [Happ Hrest]]]]. clear H.
    rewrite (IH (S m0) cd1 Hrest c j' m).
    rewrite (clusdict_append_cells _ _ _ _ _ Happ c j').
    destruct (Nat.eqb_spec c c0) as [->|Hc];
      destruct (Nat.eqb_spec j' j) as [->|Hj]; cbn [andb].
    + rewrite in_app_iff. split.
      * intros [[H|[<-|[]]]|[_ [Hm [it [Hit Hn]]]]].
        -- left. assumption.
        -- right. split; [reflexivity|]. split; [lia|]. exists iter.
           rewrite Nat.sub_diag. split; [reflexivity | assumption].
        -- right. split; [reflexivity|]. split; [lia|]. exists it.
           replace (m - m0)%nat with (S (m - S m0)) by lia.
           split; assumption.
      * intros [H|[_ [Hm [it [Hit Hn]]]]].
        -- left. left. assumption.
        -- destruct (Nat.eq_dec m m0) as [->|Hne].
           ++ left. right. left. reflexivity.
           ++ right. split; [reflexivity|]. split; [lia|]. exists it.
              replace (m - m0)%nat with (S (m - S m0)) in Hit by lia.
              split; assumption.
    + split.
      * intros [H|[Hj' _]]; [left; assumption | contradiction].
      * intros [H|[Hj' _]]; [left; assumption | contradiction].
    + split.
      * intros [H|[Hj' [Hm [it [Hit Hn]]]]]; [left; assumption|].
        right. split; [assumption|]. split; [lia|]. exists it.
        replace (m - m0)%nat with (S (m - S m0)) by lia. split; assumption.
      * intros [H|[Hj' [Hm [it [Hit Hn]]]]]; [left; assumption|].
        destruct (Nat.eq_dec m m0) as [->|Hne].
        -- rewrite Nat.sub_diag in Hit. simpl in Hit. injection Hit as <-.
           rewrite Hc0 in Hn. injection Hn as Hn. congruence.
        -- right. split; [assumption|]. split; [lia|]. exists it.
           replace (m - m0)%nat with (S (m - S m0)) in Hit by lia.
           split; assumption.
    + split.
      * intros [H|[Hj' _]]; [left; assumption | contradiction].
      * intros [H|[Hj' _]]; [left; assumption | contradiction].
Qed.

Lemma match_iterations_cells (core_centers : list (list Q))
      (earlier : list (list (list Q))) (j0 : nat)
      (clusdict clusdict' : clusdict_t) :
  match_iterations core_centers earlier j0 clusdict = Ok clusdict' ->
  forall c j m,
    In m (nth j (nth c clusdict' []) []) <->
    In m (nth j (nth c clusdict []) [])
    \/ ((j0 <= j)%nat
        /\ exists iter_centers iter,
             nth_error earlier (j - j0) = Some iter_centers
             /\ nth_error iter_centers m = Some iter
             /\ nearest_core core_centers iter = Ok c).
Proof.
  revert j0 clusdict. induction earlier as [|ic rest IH];
    intros j0 clusdict H c j m.
  - cbn [match_iterations] in H. injection H as <-. split; [tauto|].
    intros [H|[_ [ics [it [Hics _]]]]]; [assumption|].
    destruct (j - j0)%nat; discriminate.
  - cbn [match_iterations] in H.
    destruct (match_centers core_centers ic j0 0 clusdict) as [cd1|] eqn:E1;
      [|discriminate].
    cbn [rbind] in H.
    rewrite (IH (S j0) cd1 H c j m).
    rewrite (match_centers_cells _ _ _ _ _ _ E1 c j m).
    split.
    + intros [[H0|[Hj [_ [it [Hit Hn]]]]]|[Hj [ics [it [Hics [Hit Hn]]]]]].
      * left. assumption.
      * right. split; [lia|]. exists ic, it. subst j.
        rewrite Nat.sub_diag. rewrite Nat.sub_0_r in Hit.
        repeat split; assumption.
      * right. split; [lia|]. exists ics, it.
        replace (j - j0)%nat with (S (j - S j0)) by lia.
        repeat split; assumption.
    + intros [H0|[Hj [ics [it [Hics [Hit Hn]]]]]].
      * left. left. assumption.
      * destruct (Nat.eq_dec j j0) as [->|Hne].
        -- rewrite Nat.sub_diag in Hics. simpl in Hics. injection Hics as <-.
           left. right. split; [reflexivity|]. split; [lia|]. exists it.
           rewrite Nat.sub_0_r. split; assumption.
        -- right. split; [lia|]. exists ics, it.
           replace (j - j0)%nat with (S (j - S j0)) in Hics by lia.
           repeat split; assumption.
Qed.

Lemma make_clusdict_cells (topscore : Z) (cols c j : nat) :
  nth j (nth c (make_clusdict topscore cols) []) [] = [].
Proof.
  unfold make_clusdict.
  destruct (Nat.lt_ge_cases c (Z.to_nat topscore)) as [H|H].
  - rewrite (nth_indep _ [] (repeat [] cols))
      by (rewrite repeat_length; assumption).
    rewrite nth_repeat.
    destruct (Nat.lt_ge_cases j cols) as [Hj|Hj].
    + apply (@repeat_spec _ cols []). apply nth_In.
      rewrite repeat_length. assumption.
    + apply nth_overflow. rewrite repeat_length. assumption.
  - rewrite (nth_overflow (repeat (repeat [] cols) (Z.to_nat topscore)))
      by (rewrite repeat_length; assumption).
    destruct j; reflexivity.
Qed.

(** The dictionary built at lines 280-294 lists, under final cluster [c]
    and earlier snapshot [j], exactly the clusters [m] of that snapshot
    whose centroid is matched to [c]; every cluster of an earlier snapshot
    is therefore listed under one final cluster only. *)
Theorem match_iterations_nearest
        (core_centers : list (list Q)) (earlier : list (list (list Q)))
        (topscore : Z) (cols : nat) (clusdict : clusdict_t) :
  match_iterations core_centers earlier 0 (make_clusdict topscore cols)
  = Ok clusdict ->
  (forall c j m,
      In m (nth j (nth c clusdict []) []) <->
      exists iter_centers iter,
        nth_error earlier j = Some iter_centers
        /\ nth_error iter_centers m = Some iter
        /\ nearest_core core_centers iter = Ok c)
  /\ (forall c c' j m,
         In m (nth j (nth c clusdict []) []) ->
         In m (nth j (nth c' clusdict []) []) -> c = c').
Proof.
  intro H.
  assert (Hchar : forall c j m,
             In m (nth j (nth c clusdict []) []) <->
             exists iter_centers iter,
               nth_error earlier j = Some iter_centers
               /\ nth_error iter_centers m = Some iter
               /\ nearest_core core_centers iter = Ok c).
  { intros c j m. rewrite (match_iterations_cells _ _ _ _ _ H c j m).
    rewrite make_clusdict_cells, Nat.sub_0_r. split.
    - intros [[]|[_ Hex]]. exact Hex.
    - intro Hex. right. split; [lia | exact Hex]. }
  split; [exact Hchar|].
  intros c c' j m Hc Hc'.
  apply Hchar in Hc. apply Hchar in Hc'.
  destruct Hc as [ics [it [H1 [H2 H3]]]].
  destruct Hc' as [ics' [it' [H1' [H2' H3']]]].
  congruence.
Qed.

Lemma match_iterations_nearest_witness :
  In 1%nat (nth 0 (nth 1 [[[0%nat]]; [[1%nat]]] []) []) <->
  exists iter_centers iter,
    nth_error [[[1; -1]; [4; 2]]] 0 = Some iter_centers
    /\ nth_error iter_centers 1 = Some iter
    /\ nearest_core [[0; 0]; [3; 3]] iter = Ok 1%nat.
Proof.
  apply (match_iterations_nearest
           [[0; 0]; [3; 3]] [[[1; -1]; [4; 2]]] 2 1 [[[0%nat]]; [[1%nat]]]).
  reflexivity.
Defined.

(** ** central_edge: percentiles out of range *)





(** ** central_edge: the labels of the edges *)

Lemma dict_set_keys {V} (d : list (node * node * V)) (k0 : node * node)
      (v0 : V) (k : node * node) :
  In k (map fst (dict_set key_eqb d k0 v0)) <-> k = k0 \/ In k (map fst d).
Proof.
  induction d as [|kv d IH]; simpl.
  - split; [intros [H|[]]; left; congruence | intros [H|[]]; left; congruence].
  - destruct (key_eqb (fst kv) k0) eqn:E; simpl.
    + apply key_eqb_eq in E. intuition congruence.
    + rewrite IH. tauto.
Qed.

Lemma dict_set_NoDup {V} (d : list (node * node * V)) (k0 : node * node)
      (v0 : V) :
  NoDup (map fst d) -> NoDup (map fst (dict_set key_eqb d k0 v0)).
Proof.
  induction d as [|kv d IH]; intro H; simpl.
  - constructor; [intros [] | constructor].
  - inversion H as [|? ? Hnotin Hd]; subst.
    destruct (key_eqb (fst kv) k0) eqn:E; simpl.
    + constructor; assumption.
    + constructor; [|apply IH; assumption].
      rewrite dict_set_keys. intros [Hk|Hk]; [|contradiction].
      rewrite Hk in E. rewrite (proj2 (key_eqb_eq k0 k0) eq_refl) in E.
      discriminate.
Qed.

Lemma dict_set_In {V} (d : list (node * node * V)) (k0 : node * node)
      (v0 : V) (k : node * node) (v : V) :
  NoDup (map fst d) ->
  In (k, v) (dict_set key_eqb d k0 v0) <->
  (k = k0 /\ v = v0) \/ (k <> k0 /\ In (k, v) d).
Proof.
  induction d as [|kv d IH]; intro H; simpl.
  - split.
    + intros [Heq|[]]. injection Heq as <- <-. left. split; reflexivity.
    + intros [[-> ->]|[_ []]]. left. reflexivity.
  - inversion H as [|? ? Hnotin Hd]; subst.
    destruct (key_eqb (fst kv) k0) eqn:E; simpl.
    + apply key_eqb_eq in E. split.
      * intros [Heq|Hin].
        -- injection Heq as Hk Hv. left. split; congruence.
        -- right. split; [|right; assumption].
           intro Hk. apply Hnotin. rewrite E, <- Hk.
           apply (in_map fst _ _ Hin).
      * intros [[-> ->]|[Hne [Hkv|Hin]]].
        -- left. rewrite E. reflexivity.
        -- exfalso. apply Hne. rewrite <- E, Hkv. reflexivity.
        -- right. assumption.
    + rewrite (IH Hd). split.
      * intros [Hkv|[[-> ->]|[Hne Hin]]].
        -- right. split; [|left; assumption]. intro Hk.
           rewrite Hkv in E. simpl in E. rewrite Hk in E.
           rewrite (proj2 (key_eqb_eq k0 k0) eq_refl) in E. discriminate.
        -- left. split; reflexivity.
        -- right. split; [assumption | right; assumption].
      * intros [[-> ->]|[Hne [Hkv|Hin]]].
        -- right. left. split; reflexivity.
        -- left. assumption.
        -- right. right. split; assumption.
Qed.

Lemma label_hubs_entries (graph : Graph) (adj : list (node * nat))
      (value : hub_label) (hubs : list (nat * nat))
      (edge_vals edge_vals' : list (node * node * hub_label))
      (edge_scores edge_scores' : list (node * node * Q)) :
  label_hubs graph adj None value hubs edge_vals edge_scores
  = Ok (edge_vals', edge_scores') ->
  NoDup (map fst edge_vals) ->
  NoDup (map fst edge_vals')
  /\ edge_scores' = edge_scores
  /\ forall key v,
       In (key, v) edge_vals' <->
       (v = value /\ in_keys (nodes graph) hubs key = true)
       \/ (In (key, v) edge_vals /\ in_keys (nodes graph) hubs key = false).
Proof.
  revert edge_vals. induction hubs as [|ab hubs IH]; intros edge_vals H Hnd.
  - cbn [label_hubs] in H. injection H as <- <-.
    split; [assumption|]. split; [reflexivity|].
    intros key v. simpl. split; [intro; right; split; auto|].
    intros [[_ F]|[Hin _]]; [discriminate | assumption].
  - cbn [label_hubs] in H. unfold py_index in H.
    destruct (nth_error (nodes graph) (fst ab)) as [node1|] eqn:E1;
      [|discriminate].
    cbn [rbind] in H.
    destruct (nth_error (nodes graph) (snd ab)) as [node2|] eqn:E2;
      [|discriminate].
    cbn [rbind] in H.
    destruct (IH _ H (dict_set_NoDup edge_vals (node1, node2) value Hnd))
      as [Hnd' [Hes Hchar]].
    split; [assumption|]. split; [assumption|].
    intros key v. rewrite Hchar, (dict_set_In _ _ _ _ _ Hnd).
    assert (Hcons : in_keys (nodes graph) (ab :: hubs) key
                    = key_eqb (node1, node2) key
                      || in_keys (nodes graph) hubs key).
    { unfold in_keys. cbn [existsb]. unfold hub_key at 1.
      rewrite E1, E2. reflexivity. }
    rewrite Hcons.
    destruct (key_eqb (node1, node2) key) eqn:Ek.
    + apply key_eqb_eq in Ek. subst key. cbn [orb].
      destruct (in_keys (nodes graph) hubs (node1, node2)); split.
      * intros [[Hv _]|[_ F]]; [left; split; auto | discriminate].
      * intros [[Hv _]|[_ F]]; [left; split; auto | discriminate].
      * intros [[_ F]|[[[_ Hv]|[Hne _]] _]];
          [discriminate | left; split; auto | congruence].
      * intros [[Hv _]|[_ F]]; [|discriminate].
        right. split; [left; split; auto | reflexivity].
    + assert (Hne : key <> (node1, node2)).
      { intro Hk. subst key.
        rewrite (proj2 (key_eqb_eq _ _) eq_refl) in Ek. discriminate. }
      cbn [orb].
      destruct (in_keys (nodes graph) hubs key); split.
      * intros [[Hv _]|[_ F]]; [left; split; auto | discriminate].
      * intros [[Hv _]|[_ F]]; [left; split; auto | discriminate].
      * intros [[_ F]|[[[Hk _]|[_ Hin]] _]];
          [discriminate | contradiction | right; split; auto].
      * intros [[_ F]|[Hin _]]; [discriminate|].
        right. split; [right; split; assumption | reflexivity].
Qed.

Lemma in_keys_position (graph_nodes : list node) (hubs : list (nat * nat))
      (u v : node) (i j : nat) :
  distinct_nodes graph_nodes = true ->
  position u graph_nodes = Some i -> position v graph_nodes = Some j ->
  in_keys graph_nodes hubs (u, v) = true <-> In (i, j) hubs.
Proof.
  intros D Hu Hv. unfold in_keys. rewrite existsb_exists. split.
  - intros [[a b] [Hin Hk]]. unfold hub_key in Hk. cbn [fst snd] in Hk.
    destruct (nth_error graph_nodes a) as [x|] eqn:Ea; [|discriminate].
    destruct (nth_error graph_nodes b) as [y|] eqn:Eb; [|discriminate].
    apply key_eqb_eq in Hk. injection Hk as -> ->.
    apply (nth_position _ _ _ D) in Ea. apply (nth_position _ _ _ D) in Eb.
    congruence.
  - intro Hin. exists (i, j). split; [assumption|].
    unfold hub_key. cbn [fst snd].
    rewrite (position_nth _ _ _ Hu), (position_nth _ _ _ Hv).
    apply key_eqb_eq. reflexivity.
Qed.

Lemma final_hub_all (values : list (node * node * hub_label)) (e : edge)
      (h : option hub_label) (v0 : hub_label) :
  (forall kv, In kv values ->
              connects (fst (fst kv)) (snd (fst kv)) e = true ->
              snd kv = v0) ->
  h = Some v0
  \/ existsb (fun kv => connects (fst (fst kv)) (snd (fst kv)) e) values
     = true ->
  final_hub values e h = Some v0.
Proof.
  unfold final_hub. revert h.
  induction values as [|kv values IH]; intros h Hall Hex.
  - simpl in *. destruct Hex as [Hh|F]; [assumption | discriminate].
  - cbn [fold_left]. apply IH.
    + intros; apply Hall; [right|]; assumption.
    + destruct (connects (fst (fst kv)) (snd (fst kv)) e) eqn:C.
      * left. f_equal. apply Hall; [left; reflexivity | assumption].
      * destruct Hex as [Hh|Hex]; [left; assumption|].
        right. simpl in Hex. rewrite C in Hex. exact Hex.
Qed.

Lemma central_edge_returns
      diffusion perm_graph (graph : Graph) (percentile error : Q) (w : world) :
  0 <= percentile -> percentile <= 100 ->
  concat (central_scoremat diffusion graph) <> [] ->
  fits_nodes graph (central_scoremat diffusion graph) = true ->
  exists labelled,
    central_edge diffusion perm_graph graph percentile 0 error w
    = (w, Ok labelled).
Proof.
  intros L U Hne Hfits. rewrite central_edge_unpermuted.
  destruct (hub_values_total graph (central_scoremat diffusion graph)
                             percentile L U Hne Hfits) as [values Hv].
  rewrite Hv. eexists. reflexivity.
Qed.

(** Without permutations [central_edge] changes nothing but ['hub']
    attributes.  For an edge between the nodes at positions [i] and [j]:
    if neither [(i, j)] nor [(j, i)] is flagged, the edge keeps the label
    it had (a label of an earlier call is not cleared); if a flagged
    orientation exists and every orientation flagged negative is also
    flagged positive, the label is ['positive hub'] (the loop at lines
    127-132 overwrites the entries of the loop at lines 121-126); if
    an orientation is flagged negative and none positive, the label is
    ['negative hub']. *)
Theorem central_edge_hub_labels
        diffusion perm_graph (graph labelled : Graph) (percentile error : Q)
        (w : world) (negthresh posthresh : option Q)
        (neghubs poshubs : list (nat * nat)) :
  distinct_nodes (nodes graph) = true ->
  hub_positions (central_scoremat diffusion graph) percentile
  = Ok (negthresh, posthresh, neghubs, poshubs) ->
  central_edge diffusion perm_graph graph percentile 0 error w
  = (w, Ok labelled) ->
  nodes labelled = nodes graph
  /\ cluster_attr labelled = cluster_attr graph
  /\ length (edges labelled) = length (edges graph)
  /\ forall k e i j,
       nth_error (edges graph) k = Some e ->
       position (endpoint1 e) (nodes graph) = Some i ->
       position (endpoint2 e) (nodes graph) = Some j ->
       exists e',
         nth_error (edges labelled) k = Some e'
         /\ endpoint1 e' = endpoint1 e /\ endpoint2 e' = endpoint2 e
         /\ weight e' = weight e
         /\ reliability_score e' = reliability_score e
         /\ (~ In (i, j) neghubs -> ~ In (j, i) neghubs ->
             ~ In (i, j) poshubs -> ~ In (j, i) poshubs ->
             hub e' = hub e)
         /\ (In (i, j) poshubs \/ In (j, i) poshubs ->
             (In (i, j) neghubs -> In (i, j) poshubs) ->
             (In (j, i) neghubs -> In (j, i) poshubs) ->
             hub e' = Some positive_hub)
         /\ (In (i, j) neghubs \/ In (j, i) neghubs ->
             ~ In (i, j) poshubs -> ~ In (j, i) poshubs ->
             hub e' = Some negative_hub).
Proof.
  intros D Hflag Hrun.
  rewrite central_edge_unpermuted in Hrun.
  destruct (hub_values graph (central_scoremat diffusion graph) percentile)
    as [values|] eqn:Hv; [|discriminate].
  injection Hrun as Hl. rewrite set_edge_attributes_hub_relabel in Hl.
  unfold hub_values in Hv. rewrite Hflag in Hv. cbn [rbind fst snd] in Hv.
  destruct (label_hubs graph (make_adj_index graph) None negative_hub
                       neghubs [] []) as [[ev1 es1]|] eqn:L1; [|discriminate].
  cbn [rbind fst snd] in Hv.
  destruct (label_hubs graph (make_adj_index graph) None positive_hub
                       poshubs ev1 es1) as [[ev2 es2]|] eqn:L2;
    [|discriminate].
  cbn [rbind fst] in Hv. injection Hv as ->.
  destruct (label_hubs_entries _ _ _ _ _ _ _ _ L1 (NoDup_nil _))
    as [Hnd1 [_ Hneg]].
  destruct (label_hubs_entries _ _ _ _ _ _ _ _ L2 Hnd1) as [_ [_ Hpos]].
  assert (Hchar : forall key v,
             In (key, v) values ->
             (v = positive_hub /\ in_keys (nodes graph) poshubs key = true)
             \/ (v = negative_hub
                 /\ in_keys (nodes graph) neghubs key = true
                 /\ in_keys (nodes graph) poshubs key = false)).
  { intros key v Hin. apply Hpos in Hin.
    destruct Hin as [[Hv Hk]|[Hin Hk]]; [left; split; assumption|].
    apply Hneg in Hin. destruct Hin as [[Hv Hk']|[[] _]].
    right. repeat split; assumption. }
  assert (Hposin : forall key, in_keys (nodes graph) poshubs key = true ->
                               In (key, positive_hub) values).
  { intros key Hk. apply Hpos. left. split; [reflexivity | assumption]. }
  assert (Hnegin : forall key, in_keys (nodes graph) neghubs key = true ->
                               in_keys (nodes graph) poshubs key = false ->
                               In (key, negative_hub) values).
  { intros key Hk Hk'. apply Hpos. right. split; [|assumption].
    apply Hneg. left. split; [reflexivity | assumption]. }
  rewrite <- Hl. unfold with_edges. cbn [nodes edges cluster_attr].
  split; [reflexivity|]. split; [reflexivity|].
  split; [apply length_map|].
  intros k e i j Hk Hi Hj. exists (relabel values e).
  split; [rewrite nth_error_map, Hk; reflexivity|].
  unfold relabel. cbn [endpoint1 endpoint2 weight hub reliability_score].
  repeat (split; [reflexivity|]).
  pose proof (in_keys_position (nodes graph) neghubs _ _ i j D Hi Hj) as N1.
  pose proof (in_keys_position (nodes graph) neghubs _ _ j i D Hj Hi) as N2.
  pose proof (in_keys_position (nodes graph) poshubs _ _ i j D Hi Hj) as P1.
  pose proof (in_keys_position (nodes graph) poshubs _ _ j i D Hj Hi) as P2.
  assert (Hconn : forall kv : node * node * hub_label,
             connects (fst (fst kv)) (snd (fst kv)) e = true ->
             fst kv = (endpoint1 e, endpoint2 e)
             \/ fst kv = (endpoint2 e, endpoint1 e)).
  { intros [[a b] v] C. cbn [fst snd] in *. apply connects_iff in C.
    unfold edge_key in C. destruct C as [C|C]; injection C as -> ->;
      [left | right]; reflexivity. }
  assert (Hself : forall v, In (endpoint1 e, endpoint2 e, v) values ->
             existsb (fun kv => connects (fst (fst kv)) (snd (fst kv)) e)
                     values = true).
  { intros v Hin. apply existsb_exists. eexists. split; [exact Hin|].
    cbn [fst snd]. apply connects_self. }
  assert (Hswap : forall v, In (endpoint2 e, endpoint1 e, v) values ->
             existsb (fun kv => connects (fst (fst kv)) (snd (fst kv)) e)
                     values = true).
  { intros v Hin. apply existsb_exists. eexists. split; [exact Hin|].
    cbn [fst snd]. apply connects_iff. right. reflexivity. }
  split; [|split].
  - intros HN1 HN2 HP1 HP2. apply final_hub_none.
    apply not_true_is_false. intro Hex. apply existsb_exists in Hex.
    destruct Hex as [[key v] [Hin C]].
    destruct (Hchar key v Hin) as [[_ Hp]|[_ [Hn _]]];
      destruct (Hconn _ C) as [Hkey|Hkey]; cbn [fst] in Hkey; subst key.
    + apply HP1, P1, Hp.
    + apply HP2, P2, Hp.
    + apply HN1, N1, Hn.
    + apply HN2, N2, Hn.
  - intros Hsome H1 H2. apply final_hub_all.
    + intros [key v] Hin C. cbn [snd].
      destruct (Hchar key v Hin) as [[Hv _]|[_ [Hn Hp]]]; [assumption|].
      exfalso.
      destruct (Hconn _ C) as [Hkey|Hkey]; cbn [fst] in Hkey; subst key.
      * apply N1, H1, P1 in Hn. congruence.
      * apply N2, H2, P2 in Hn. congruence.
    + right. destruct Hsome as [Hp|Hp].
      * apply (Hself positive_hub). apply Hposin, P1, Hp.
      * apply (Hswap positive_hub). apply Hposin, P2, Hp.
  - intros Hsome HP1 HP2. apply final_hub_all.
    + intros [key v] Hin C. cbn [snd].
      destruct (Hchar key v Hin) as [[_ Hp]|[Hv _]]; [|assumption].
      exfalso.
      destruct (Hconn _ C) as [Hkey|Hkey]; cbn [fst] in Hkey; subst key.
      * apply HP1, P1, Hp.
      * apply HP2, P2, Hp.
    + right. destruct Hsome as [Hn|Hn].
      * apply (Hself negative_hub). apply Hnegin; [apply N1, Hn|].
        apply not_true_is_false. intro Hp. apply HP1, P1, Hp.
      * apply (Hswap negative_hub). apply Hnegin; [apply N2, Hn|].
        apply not_true_is_false. intro Hp. apply HP2, P2, Hp.
Qed.

Lemma central_edge_hub_labels_witness :
  exists labelled e',
    central_edge (toy_diffusion hub_scoremat false []) no_perm_graph
                 hub_triangle 10 0 (1 # 10) world0 = (world0, Ok labelled)
    /\ nth_error (edges labelled) 2 = Some e'
    /\ hub e' = Some negative_hub.
Proof.
  destruct (central_edge_returns
              (toy_diffusion hub_scoremat false []) no_perm_graph
              hub_triangle 10 (1 # 10) world0) as [labelled Hrun];
    [unfold Qle; simpl; lia | unfold Qle; simpl; lia | discriminate
     | reflexivity |].
  assert (Hflag : exists nt pt,
             hub_positions (central_scoremat
                              (toy_diffusion hub_scoremat false [])
                              hub_triangle) 10
             = Ok (nt, pt, [(0, 2); (2, 0)]%nat, [(0, 1); (1, 0)]%nat))
    by (eexists; eexists; reflexivity).
  destruct Hflag as [nt [pt Hflag]].
  destruct (central_edge_hub_labels
              (toy_diffusion hub_scoremat false []) no_perm_graph
              hub_triangle labelled 10 (1 # 10) world0 nt pt _ _
              eq_refl Hflag Hrun) as [_ [_ [_ Hedges]]].
  destruct (Hedges 2%nat (wedge 1 3 (-1)) 0%nat 2%nat eq_refl eq_refl eq_refl)
    as [e' [He' [_ [_ [_ [_ [_ [_ Hneg]]]]]]]].
  exists labelled, e'. split; [exact Hrun|]. split; [exact He'|].
  apply Hneg.
  - left. left. reflexivity.
  - intros [H|[H|[]]]; discriminate.
  - intros [H|[H|[]]]; discriminate.
Defined.

(** ** Percentile thresholds: the extreme entries *)

(** For a percentile within [0, 100] and a score matrix with an entry,
    both thresholds lie between the smallest and the largest entry; the
    position of a smallest entry is therefore always flagged as a negative
    hub and that of a largest entry as a positive hub, even at percentile
    0: neither list of hub positions is empty. *)
Theorem hub_positions_flag_extremes (scoremat : matrix) (percentile : Q) :
  0 <= percentile -> percentile <= 100 -> concat scoremat <> [] ->
  exists negthresh posthresh neghubs poshubs lo hi,
    hub_positions scoremat percentile
    = Ok (Some negthresh, Some posthresh, neghubs, poshubs)
    /\ (forall x, In x (concat scoremat) -> lo <= x /\ x <= hi)
    /\ lo <= negthresh /\ negthresh <= hi
    /\ lo <= posthresh /\ posthresh <= hi
    /\ (exists i j, In (i, j) neghubs /\ matrix_get scoremat i j = Ok lo)
    /\ (exists i j, In (i, j) poshubs /\ matrix_get scoremat i j = Ok hi).
Proof.
  intros L U Hne.
  destruct (np_percentile_between scoremat percentile L U Hne)
    as [nt [lo [hi [Hnt [Hlo [Hhi [Hn1 [Hn2 Hall]]]]]]]].
  destruct (np_percentile_between scoremat (100 - percentile)) as
      [pt [lo' [hi' [Hpt [Hlo' [Hhi' [Hp1 [Hp2 Hall']]]]]]]];
    [lra | lra | assumption |].
  assert (Hpl : lo <= pt).
  { apply Qle_trans with lo'; [apply (Hall lo' Hlo') | assumption]. }
  assert (Hph : pt <= hi).
  { apply Qle_trans with hi'; [assumption | apply (Hall hi' Hhi')]. }
  exists nt, pt, (np_argwhere (le_thresh (Some nt)) scoremat),
    (np_argwhere (ge_thresh (Some pt)) scoremat), lo, hi.
  split; [unfold hub_positions; rewrite Hnt, Hpt; reflexivity|].
  split; [exact Hall|].
  repeat (split; [assumption|]).
  split.
  - destruct (In_concat_matrix_get scoremat lo Hlo) as [i [j Hij]].
    exists i, j. split; [|exact Hij]. apply np_argwhere_In. exists lo.
    split; [exact Hij|]. simpl. apply Qle_bool_iff. assumption.
  - destruct (In_concat_matrix_get scoremat hi Hhi) as [i [j Hij]].
    exists i, j. split; [|exact Hij]. apply np_argwhere_In. exists hi.
    split; [exact Hij|]. simpl. apply Qle_bool_iff. assumption.
Qed.

Lemma hub_positions_flag_extremes_witness :
  exists negthresh posthresh neghubs poshubs,
    hub_positions hub_scoremat 0
    = Ok (Some negthresh, Some posthresh, neghubs, poshubs)
    /\ neghubs <> [] /\ poshubs <> [].
Proof.
  destruct (hub_positions_flag_extremes hub_scoremat 0)
    as [nt [pt [neg [pos [lo [hi [Hrun [_ [_ [_ [_ [_ [Hn Hp]]]]]]]]]]]]].
  - unfold Qle. simpl. lia.
  - unfold Qle. simpl. lia.
  - discriminate.
  - exists nt, pt, neg, pos. split; [exact Hrun|].
    destruct Hn as [i [j [Hn _]]]. destruct Hp as [i' [j' [Hp _]]].
    split; intro E; [rewrite E in Hn | rewrite E in Hp]; contradiction.
Defined.

(** ** Dictionaries: insertion and lookup *)

Section Dictionaries.

Context {K V : Type} (eqb : K -> K -> bool).
Hypothesis eqb_eq : forall a b, eqb a b = true <-> a = b.

Lemma dict_find_set_same (d : list (K * V)) (k : K) (v : V) :
  dict_find eqb (dict_set eqb d k v) k = Ok v.
Proof.
  unfold dict_find. induction d as [|kv d IH]; simpl.
  - rewrite (proj2 (eqb_eq k k) eq_refl). reflexivity.
  - destruct (eqb (fst kv) k) eqn:E; simpl; rewrite E; [reflexivity|].
    exact IH.
Qed.

Lemma dict_find_set_other (d : list (K * V)) (k k' : K) (v : V) :
  k' <> k -> dict_find eqb (dict_set eqb d k v) k' = dict_find eqb d k'.
Proof.
  intro Hne. unfold dict_find. induction d as [|kv d IH]; simpl.
  - destruct (eqb k k') eqn:E; [|reflexivity].
    apply eqb_eq in E. congruence.
  - destruct (eqb (fst kv) k) eqn:E; simpl.
    + apply eqb_eq in E. destruct (eqb (fst kv) k') eqn:E'; [|reflexivity].
      apply eqb_eq in E'. congruence.
    + destruct (eqb (fst kv) k'); [reflexivity|]. exact IH.
Qed.

Lemma dict_find_missing (d : list (K * V)) (k : K) :
  ~ In k (map fst d) -> dict_find eqb d k = Raise KeyError.
Proof.
  intro H. unfold dict_find. induction d as [|kv d IH]; simpl; [reflexivity|].
  destruct (eqb (fst kv) k) eqn:E.
  - apply eqb_eq in E. exfalso. apply H. left. exact E.
  - apply IH. intro Hin. apply H. right. exact Hin.
Qed.

Lemma dict_set_fresh (d : list (K * V)) (k : K) (v : V) :
  ~ In k (map fst d) -> dict_set eqb d k v = d ++ [(k, v)].
Proof.
  intro H. induction d as [|kv d IH]; simpl; [reflexivity|].
  destruct (eqb (fst kv) k) eqn:E.
  - apply eqb_eq in E. exfalso. apply H. left. exact E.
  - rewrite IH; [reflexivity|]. intro Hin. apply H. right. exact Hin.
Qed.

Lemma dict_set_key_set (d : list (K * V)) (k0 : K) (v0 : V) (k : K) :
  In k (map fst (dict_set eqb d k0 v0)) <-> k = k0 \/ In k (map fst d).
Proof.
  induction d as [|kv d IH]; simpl.
  - split; [intros [H|[]]; left; congruence | intros [H|[]]; left; congruence].
  - destruct (eqb (fst kv) k0) eqn:E; simpl.
    + apply eqb_eq in E. intuition congruence.
    + rewrite IH. tauto.
Qed.

Lemma dict_set_distinct_keys (d : list (K * V)) (k0 : K) (v0 : V) :
  NoDup (map fst d) -> NoDup (map fst (dict_set eqb d k0 v0)).
Proof.
  induction d as [|kv d IH]; intro H; simpl.
  - constructor; [intros [] | constructor].
  - inversion H as [|? ? Hnotin Hd]; subst.
    destruct (eqb (fst kv) k0) eqn:E; simpl.
    + constructor; assumption.
    + constructor; [|apply IH; assumption].
      rewrite dict_set_key_set. intros [Hk|Hk]; [|contradiction].
      rewrite Hk in E. rewrite (proj2 (eqb_eq k0 k0) eq_refl) in E.
      discriminate.
Qed.

End Dictionaries.

Lemma Z_eqb_eq (a b : Z) : (a =? b)%Z = true <-> a = b.
Proof. apply Z.eqb_eq. Qed.

Lemma Nat_eqb_eq (a b : nat) : Nat.eqb a b = true <-> a = b.
Proof. apply Nat.eqb_eq. Qed.

Lemma distinct_nodes_NoDup (l : list node) :
  distinct_nodes l = true <-> NoDup l.
Proof.
  induction l as [|n l IH]; simpl.
  - split; [constructor | reflexivity].
  - rewrite andb_true_iff, negb_true_iff, IH. split.
    + intros [Hn Hl]. constructor; [|assumption].
      intro Hin. apply mem_node_In in Hin. congruence.
    + intro H. inversion H as [|? ? Hn Hl]; subst. split; [|assumption].
      destruct (mem_node n l) eqn:E; [|reflexivity].
      apply mem_node_In in E. contradiction.
Qed.

(** ** The two indexes of the nodes (lines 60-63 and 109-111) *)

Lemma combine_snoc {A B} (l : list A) (l' : list B) (a : A) (b : B) :
  length l = length l' ->
  combine (l ++ [a]) (l' ++ [b]) = combine l l' ++ [(a, b)].
Proof.
  revert l'. induction l as [|x l IH]; intros [|y l'] H; simpl in *;
    try discriminate; [reflexivity|].
  rewrite IH by lia. reflexivity.
Qed.

Lemma adj_index_loop (pre rest : list node) :
  NoDup (pre ++ rest) ->
  fold_left (fun adj_index i =>
               match nth_error (pre ++ rest) i with
               | Some n => dict_set Z.eqb adj_index n i
               | None => adj_index
               end)
            (seq (length pre) (length rest))
            (combine pre (seq 0 (length pre)))
  = combine (pre ++ rest) (seq 0 (length (pre ++ rest))).
Proof.
  revert pre. induction rest as [|n rest IH]; intros pre D.
  - simpl. rewrite app_nil_r. reflexivity.
  - cbn [length seq fold_left].
    rewrite nth_error_app2 by lia. rewrite Nat.sub_diag. cbn [nth_error].
    assert (Hfresh : ~ In n (map fst (combine pre (seq 0 (length pre))))).
    { intro Hin. apply in_map_iff in Hin. destruct Hin as [[a b] [Ha Hin]].
      simpl in Ha. subst a. apply in_combine_l in Hin.
      apply NoDup_remove_2 in D. apply D. apply in_or_app. left. exact Hin. }
    rewrite (dict_set_fresh Z.eqb Z_eqb_eq _ _ _ Hfresh).
    assert (Hstep : combine pre (seq 0 (length pre)) ++ [(n, length pre)]
                    = combine (pre ++ [n]) (seq 0 (length (pre ++ [n])))).
    { rewrite length_app. cbn [length]. rewrite seq_app. cbn [seq Nat.add].
      rewrite combine_snoc by (rewrite length_seq; reflexivity).
      reflexivity. }
    unfold node in *. rewrite Hstep.
    replace (S (length pre)) with (length (pre ++ [n]))
      by (rewrite length_app; simpl; lia).
    replace (pre ++ n :: rest) with ((pre ++ [n]) ++ rest)
      by (rewrite <- app_assoc; reflexivity).
    apply IH. rewrite <- app_assoc. exact D.
Qed.

Lemma make_adj_index_combine (graph : Graph) :
  distinct_nodes (nodes graph) = true ->
  make_adj_index graph
  = combine (nodes graph) (seq 0 (length (nodes graph))).
Proof.
  intro D. apply distinct_nodes_NoDup in D.
  apply (adj_index_loop [] (nodes graph) D).
Qed.

Lemma invert_index_loop (ns : list node) (k : nat) (acc : list (nat * node)) :
  (forall i, In i (map fst acc) -> (i < k)%nat) ->
  fold_left (fun rev_index kv => dict_set Nat.eqb rev_index (snd kv) (fst kv))
            (combine ns (seq k (length ns))) acc
  = acc ++ combine (seq k (length ns)) ns.
Proof.
  revert k acc. induction ns as [|n ns IH]; intros k acc Hacc.
  - simpl. rewrite app_nil_r. reflexivity.
  - cbn [length seq combine fold_left fst snd].
    rewrite (dict_set_fresh Nat.eqb Nat_eqb_eq).
    + rewrite IH.
      * rewrite <- app_assoc. reflexivity.
      * intros i Hi. rewrite map_app, in_app_iff in Hi.
        destruct Hi as [Hi|[<-|[]]]; [apply Hacc in Hi; lia | simpl; lia].
    + intro Hin. apply Hacc in Hin. lia.
Qed.

Lemma combine_lookup (ns : list node) (k i : nat) (n : node) :
  NoDup ns -> nth_error ns i = Some n ->
  dict_find Z.eqb (combine ns (seq k (length ns))) n = Ok (k + i)%nat.
Proof.
  revert k i. induction ns as [|m ns IH]; intros k i D H.
  - destruct i; discriminate.
  - inversion D as [|? ? Hm Hns]; subst.
    unfold dict_find. cbn [length seq combine find fst].
    destruct i as [|i]; simpl in H.
    + injection H as ->. rewrite Z.eqb_refl. simpl.
      rewrite Nat.add_0_r. reflexivity.
    + destruct (Z.eqb_spec m n) as [->|_].
      * exfalso. apply Hm. apply (nth_error_In _ _ H).
      * replace (k + S i)%nat with (S k + i)%nat by lia.
        apply (IH (S k) i Hns H).
Qed.

(** The two indexes of [cluster_graph] and [central_edge] are inverse to
    each other when the nodes are distinct: [adj_index] sends the node at
    position [i] to [i] and has no other key, and inverting it gives the
    dictionary that pairs each position with its node, in the order of the
    nodes, which sends [i] back to the node. *)
Theorem index_round_trip (graph : Graph) :
  distinct_nodes (nodes graph) = true ->
  invert_index (make_adj_index graph) = make_rev_index graph
  /\ (forall i n,
        nth_error (nodes graph) i = Some n ->
        dict_find Z.eqb (make_adj_index graph) n = Ok i
        /\ rev_index_get (invert_index (make_adj_index graph)) i = n)
  /\ (forall n,
        ~ In n (nodes graph) ->
        dict_find Z.eqb (make_adj_index graph) n = Raise KeyError).
Proof.
  intro D. pose proof (make_adj_index_combine graph D) as Hadj.
  assert (Hinv : invert_index (make_adj_index graph) = make_rev_index graph).
  { unfold invert_index. rewrite Hadj.
    rewrite (invert_index_loop (nodes graph) 0 []); [reflexivity|].
    intros i []. }
  split; [exact Hinv|]. split.
  - intros i n H. split.
    + rewrite Hadj. apply distinct_nodes_NoDup in D.
      apply (combine_lookup (nodes graph) 0 i n D H).
    + rewrite Hinv. unfold make_rev_index.
      apply (rev_index_get_combine (nodes graph) 0 i n H).
  - intros n Hn. rewrite Hadj. apply (dict_find_missing Z.eqb Z_eqb_eq).
    intro Hin. apply in_map_iff in Hin. destruct Hin as [[a b] [Ha Hin]].
    simpl in Ha. subst a. apply in_combine_l in Hin. contradiction.
Qed.

Lemma index_round_trip_witness :
  invert_index (make_adj_index pendant_graph) = make_rev_index pendant_graph
  /\ dict_find Z.eqb (make_adj_index pendant_graph) 13%Z = Ok 3%nat
  /\ rev_index_get (invert_index (make_adj_index pendant_graph)) 3 = 13%Z.
Proof.
  destruct (index_round_trip pendant_graph eq_refl) as [Hinv [Hpos _]].
  split; [exact Hinv|]. exact (Hpos 3%nat 13%Z eq_refl).
Defined.

(** ** cluster_graph: the cluster attribute of the nodes *)

Lemma py_index_out_of_range {A} (l : list A) (i : nat) :
  (length l <= i)%nat -> py_index l i = Raise IndexError.
Proof.
  intro H. unfold py_index.
  rewrite (proj2 (nth_error_None l i) H). reflexivity.
Qed.

Lemma assign_clusters_short (rest : list node) (i : nat)
      (bestcluster : list Z) (clusdict : list (node * Z)) :
  (i <= length bestcluster)%nat ->
  (length bestcluster < i + length rest)%nat ->
  assign_clusters rest i bestcluster clusdict = Raise IndexError.
Proof.
  revert i clusdict. induction rest as [|n rest IH]; intros i d L H.
  - simpl in H. lia.
  - cbn [assign_clusters]. simpl in H.
    destruct (Nat.eq_dec i (length bestcluster)) as [E|E].
    + rewrite py_index_out_of_range by lia. reflexivity.
    + rewrite (py_index_nth bestcluster i 0%Z) by lia. cbn [rbind].
      apply IH; lia.
Qed.

Lemma assign_clusters_spec (rest : list node) (i : nat)
      (bestcluster : list Z) (clusdict : list (node * Z)) :
  NoDup rest -> (i + length rest <= length bestcluster)%nat ->
  exists clusdict',
    assign_clusters rest i bestcluster clusdict = Ok clusdict'
    /\ (forall j n, nth_error rest j = Some n ->
                    dict_find Z.eqb clusdict' n
                    = py_index bestcluster (i + j))
    /\ (forall n, ~ In n rest ->
                  dict_find Z.eqb clusdict' n = dict_find Z.eqb clusdict n)
    /\ (forall n, In n (map fst clusdict') ->
                  In n (map fst clusdict) \/ In n rest)
    /\ (NoDup (map fst clusdict) -> NoDup (map fst clusdict')).
Proof.
  revert i clusdict. induction rest as [|m rest IH]; intros i d D L.
  - exists d. simpl. split; [reflexivity|]. split.
    + intros [|j] n H; discriminate.
    + repeat split; auto.
  - inversion D as [|? ? Hm Hrest]; subst. simpl in L.
    cbn [assign_clusters].
    rewrite (py_index_nth bestcluster i 0%Z) by lia. cbn [rbind].
    destruct (IH (S i) (dict_set Z.eqb d m (nth i bestcluster 0%Z)) Hrest)
      as [d' [Hrun [Hpos [Hout [Hkeys Hnodup]]]]]; [lia|].
    exists d'. split; [exact Hrun|]. split; [|split; [|split]].
    + intros [|j] n H; simpl in H.
      * injection H as <-. rewrite (Hout m Hm).
        rewrite (dict_find_set_same Z.eqb Z_eqb_eq).
        rewrite Nat.add_0_r.
        rewrite (py_index_nth bestcluster i 0%Z) by lia. reflexivity.
      * rewrite (Hpos j n H). f_equal. lia.
    + intros n Hn. rewrite Hout by (intro Hin; apply Hn; right; exact Hin).
      apply (dict_find_set_other Z.eqb Z_eqb_eq).
      intro E. apply Hn. left. congruence.
    + intros n Hn. apply Hkeys in Hn. destruct Hn as [Hn|Hn].
      * apply (dict_set_key_set Z.eqb Z_eqb_eq) in Hn.
        destruct Hn as [->|Hn]; [right; left; reflexivity | left; exact Hn].
      * right. right. exact Hn.
    + intro Hd. apply Hnodup.
      apply (dict_set_distinct_keys Z.eqb Z_eqb_eq). exact Hd.
Qed.

Lemma set_node_attributes_lookup {V} (graph : Graph)
      (values attrs : list (node * V)) (k : node) :
  NoDup (map fst values) ->
  dict_find Z.eqb (set_node_attributes graph values attrs) k
  = match dict_find Z.eqb values k with
    | Ok v => if mem_node k (nodes graph) then Ok v
              else dict_find Z.eqb attrs k
    | Raise _ => dict_find Z.eqb attrs k
    end.
Proof.
  unfold set_node_attributes. intro D. revert attrs D.
  induction values as [|[k0 v0] values IH]; intros attrs D.
  - reflexivity.
  - inversion D as [|? ? Hfresh Hd]; subst. cbn [fold_left fst snd].
    rewrite (IH _ Hd).
    destruct (Z.eqb_spec k0 k) as [->|Hne].
    + rewrite (dict_find_missing Z.eqb Z_eqb_eq values k Hfresh).
      assert (Hhead : dict_find Z.eqb ((k, v0) :: values) k = Ok v0).
      { unfold dict_find. cbn [find fst snd]. rewrite Z.eqb_refl.
        reflexivity. }
      rewrite Hhead. destruct (mem_node k (nodes graph)); [|reflexivity].
      apply (dict_find_set_same Z.eqb Z_eqb_eq).
    + assert (Hhead : dict_find Z.eqb ((k0, v0) :: values) k
                      = dict_find Z.eqb values k).
      { unfold dict_find. cbn [find fst].
        destruct (Z.eqb_spec k0 k) as [E|_]; [contradiction | reflexivity]. }
      rewrite Hhead.
      assert (Hattrs : dict_find Z.eqb
                         (if mem_node k0 (nodes graph)
                          then dict_set Z.eqb attrs k0 v0 else attrs) k
                       = dict_find Z.eqb attrs k).
      { destruct (mem_node k0 (nodes graph)); [|reflexivity].
        apply (dict_find_set_other Z.eqb Z_eqb_eq). congruence. }
      rewrite Hattrs. reflexivity.
Qed.

(** [cluster_graph] hands the assignment over by position: when the
    selected strategy returns [bestcluster], a graph with distinct nodes
    comes back with the same nodes and edges and the score matrix of the
    diffusion, and the node at position [i] carries the cluster
    [bestcluster[i]], whatever cluster attribute it had before; an
    assignment shorter than the list of nodes raises [IndexError]. *)
Theorem cluster_graph_assigns_by_position
        (view_swaps : list node -> node -> node -> bool)
        (KMeans_fit : nat -> Z -> matrix -> result (list Z * list (list Q)))
        (random_bit : nat -> nat -> bool)
        (diffusion : list node -> list (node * node * Q) -> option Q -> Z ->
                     option bool -> matrix * bool * list matrix)
        (graph : Graph) (limit : Q)
        (max_clusters min_clusters iterations : Z) (cluster : string)
        (w w' : world) (bestcluster : list Z) :
  distinct_nodes (nodes graph) = true ->
  select_clusters view_swaps KMeans_fit random_bit diffusion graph limit
                  max_clusters min_clusters iterations cluster w
  = (w', Ok bestcluster) ->
  ((length bestcluster < length (nodes graph))%nat ->
   cluster_graph view_swaps KMeans_fit random_bit diffusion graph limit
                 max_clusters min_clusters iterations cluster w
   = (w', Raise IndexError))
  /\ ((length (nodes graph) <= length bestcluster)%nat ->
      exists g,
        cluster_graph view_swaps KMeans_fit random_bit diffusion graph limit
                      max_clusters min_clusters iterations cluster w
        = (w', Ok (g, fst (fst (diffusion (nodes graph) (weighted_edges graph)
                                          (Some limit) iterations None))))
        /\ nodes g = nodes graph
        /\ edges g = edges graph
        /\ forall i n,
            nth_error (nodes graph) i = Some n ->
            dict_find Z.eqb (cluster_attr g) n = py_index bestcluster i).
Proof.
  intros D Hsel.
  assert (Hrun : cluster_graph view_swaps KMeans_fit random_bit diffusion
                               graph limit max_clusters min_clusters
                               iterations cluster w
                 = bind (lift (assign_clusters (nodes graph) 0 bestcluster []))
                        (fun clusdict =>
                           ret (set_node_attributes_cluster graph clusdict,
                                fst (fst (diffusion (nodes graph)
                                                    (weighted_edges graph)
                                                    (Some limit) iterations
                                                    None)))) w').
  { unfold cluster_graph, select_clusters in *. cbv zeta in *.
    unfold bind at 1. rewrite Hsel. reflexivity. }
  rewrite Hrun. clear Hrun Hsel. split.
  - intro Hshort. unfold bind, lift.
    rewrite assign_clusters_short by (simpl; lia). reflexivity.
  - intro Hlong. pose proof (proj1 (distinct_nodes_NoDup _) D) as ND.
    destruct (assign_clusters_spec (nodes graph) 0 bestcluster [] ND)
      as [clusdict [Hassign [Hpos [_ [Hkeys Hnodup]]]]]; [simpl; lia|].
    exists (set_node_attributes_cluster graph clusdict).
    split; [unfold bind, lift, ret; rewrite Hassign; reflexivity|].
    split; [reflexivity|]. split; [reflexivity|].
    intros i n Hn. cbn [set_node_attributes_cluster cluster_attr].
    change (dict_find Z.eqb
              (set_node_attributes graph clusdict (cluster_attr graph)) n
            = py_index bestcluster i).
    rewrite set_node_attributes_lookup by (apply Hnodup; constructor).
    rewrite (Hpos i n Hn). cbn [Nat.add].
    assert (Hi : (i < length (nodes graph))%nat)
      by (apply nth_error_Some; congruence).
    rewrite (py_index_nth bestcluster i 0%Z) by lia.
    rewrite (proj2 (mem_node_In n (nodes graph)) (nth_error_In _ _ Hn)).
    reflexivity.
Qed.

Lemma cluster_graph_assigns_by_position_witness :
  exists g,
    snd (cluster_graph no_swaps toy_KMeans_fit (fun _ _ => false)
                       (toy_diffusion (snapshot [0; 0; 0; 1; 1; 1]%Z) false [])
                       two_triangles (1 # 100) 3 2 100 "KMeans" world0)
    = Ok (g, snapshot [0; 0; 0; 1; 1; 1]%Z)
    /\ dict_find Z.eqb (cluster_attr g) 13%Z = Ok 1%Z.
Proof.
  assert (Hsel : select_clusters no_swaps toy_KMeans_fit (fun _ _ => false)
                   (toy_diffusion (snapshot [0; 0; 0; 1; 1; 1]%Z) false [])
                   two_triangles (1 # 100) 3 2 100 "KMeans" world0
                 = (fst (select_clusters no_swaps toy_KMeans_fit (fun _ _ => false)
                           (toy_diffusion (snapshot [0; 0; 0; 1; 1; 1]%Z)
                                          false [])
                           two_triangles (1 # 100) 3 2 100 "KMeans" world0),
                    Ok [0; 0; 0; 1; 1; 1]%Z))
    by (vm_compute; reflexivity).
  destruct (cluster_graph_assigns_by_position
              no_swaps toy_KMeans_fit (fun _ _ => false)
              (toy_diffusion (snapshot [0; 0; 0; 1; 1; 1]%Z) false [])
              two_triangles (1 # 100) 3 2 100 "KMeans" world0 _ _
              eq_refl Hsel) as [_ Hlong].
  destruct Hlong as [g [Hrun [_ [_ Hattr]]]]; [simpl; lia|].
  exists g. split; [rewrite Hrun; reflexivity|].
  exact (Hattr 3%nat 13%Z eq_refl).
Defined.

(** ** central_node: the nodes labelled as hubs *)

Lemma count_hub_edges_length (adj : list edge) :
  count_hub_edges adj = length (filter has_hub adj).
Proof.
  unfold count_hub_edges.
  assert (H : forall c,
             fold_left (fun hub_edges e =>
                          if has_hub e then S hub_edges else hub_edges) adj c
             = (c + length (filter has_hub adj))%nat).
  { induction adj as [|e adj IH]; intro c; simpl; [lia|].
    rewrite IH. destruct (has_hub e); simpl; lia. }
  apply (H 0%nat).
Qed.

Lemma get_edge_attributes_hub_length (graph : Graph) :
  length (get_edge_attributes_hub graph)
  = length (filter has_hub (edges graph)).
Proof.
  unfold get_edge_attributes_hub, has_hub.
  induction (edges graph) as [|e es IH]; simpl; [reflexivity|].
  destruct (hub e); simpl; rewrite IH; reflexivity.
Qed.

Lemma touches_hub_edge_spec (graph : Graph) (n : node) :
  touches_hub_edge graph n = true <->
  exists e, In e (edges graph) /\ has_hub e = true /\ incident n e = true.
Proof.
  unfold touches_hub_edge. rewrite existsb_exists.
  split; intros [e [He H]]; exists e.
  - apply andb_true_iff in H. tauto.
  - split; [exact He|]. apply andb_true_iff. exact H.
Qed.

Lemma hub_endpoints_In (graph : Graph) (n : node) :
  In n (hub_endpoints (get_edge_attributes_hub graph)) <->
  touches_hub_edge graph n = true.
Proof.
  rewrite touches_hub_edge_spec.
  unfold hub_endpoints, get_edge_attributes_hub.
  rewrite nodup_In, in_flat_map. split.
  - intros [[[u v] h] [Hkv Hn]]. apply in_flat_map in Hkv.
    destruct Hkv as [e [He Hkv]]. exists e. split; [exact He|].
    unfold has_hub, incident. destruct (hub e) as [h'|]; [|destruct Hkv].
    destruct Hkv as [Hkv|[]]. unfold edge_key in Hkv.
    injection Hkv as Hu Hv _. split; [reflexivity|]. simpl in Hn.
    apply orb_true_iff.
    destruct Hn as [Hn|[Hn|[]]]; [left | right]; apply Z.eqb_eq; congruence.
  - intros [e [He [Hh Hi]]]. unfold has_hub in Hh.
    destruct (hub e) as [h|] eqn:Eh; [|discriminate].
    exists (edge_key e, h). split.
    + apply in_flat_map. exists e. split; [exact He|].
      rewrite Eh. left. reflexivity.
    + unfold incident in Hi. apply orb_true_iff in Hi. simpl.
      destruct Hi as [Hi|Hi]; apply Z.eqb_eq in Hi; [left | right; left];
        exact Hi.
Qed.

Lemma touches_hub_edge_degree (graph : Graph) (n : node) :
  touches_hub_edge graph n = true ->
  (1 <= hub_degree graph n <= degree graph n)%nat
  /\ (1 <= length (filter has_hub (edges graph)) <= length (edges graph))%nat.
Proof.
  intro H. apply touches_hub_edge_spec in H. destruct H as [e [He [Hh Hi]]].
  unfold hub_degree, degree.
  assert (H1 : In e (filter has_hub (filter (incident n) (edges graph)))).
  { apply filter_In. split; [|exact Hh]. apply filter_In. split; assumption. }
  assert (H2 : In e (filter has_hub (edges graph))).
  { apply filter_In. split; assumption. }
  pose proof (filter_length_le has_hub (filter (incident n) (edges graph))).
  pose proof (filter_length_le has_hub (edges graph)).
  destruct (filter has_hub (filter (incident n) (edges graph)));
    [destruct H1|].
  destruct (filter has_hub (edges graph)); [destruct H2|].
  simpl in *. lia.
Qed.

Lemma hub_ratio_range (graph : Graph) :
  (1 <= length (filter has_hub (edges graph)) <= length (edges graph))%nat ->
  len_div (length (filter has_hub (edges graph))) (length (edges graph))
  = Ok (hub_ratio graph)
  /\ 0 < hub_ratio graph /\ hub_ratio graph <= 1.
Proof.
  intro H. unfold hub_ratio, len_div.
  set (a := length (filter has_hub (edges graph))) in *.
  set (b := length (edges graph)) in *.
  assert (Ha : 0 < inject_Z (Z.of_nat a)).
  { change 0 with (inject_Z 0). rewrite <- Zlt_Qlt. lia. }
  assert (Hb : 0 < inject_Z (Z.of_nat b)).
  { change 0 with (inject_Z 0). rewrite <- Zlt_Qlt. lia. }
  assert (Hab : inject_Z (Z.of_nat a) <= inject_Z (Z.of_nat b)).
  { rewrite <- Zle_Qle. lia. }
  split; [destruct b; [lia | reflexivity]|]. split.
  - apply Qlt_shift_div_l; [exact Hb|]. lra.
  - apply Qle_shift_div_r; [exact Hb|]. lra.
Qed.

Lemma binom_test_valid (binom_sf : nat -> nat -> Q -> Q) (x n : nat) (p : Q) :
  (x <= n)%nat -> 0 <= p -> p <= 1 ->
  binom_test binom_sf x n p = Ok (binom_sf x n p).
Proof.
  intros Hx H0 H1. unfold binom_test.
  rewrite (proj2 (Nat.ltb_ge n x) Hx).
  rewrite (proj2 (Qltb_ge 1 p) H1), (proj2 (Qltb_ge p 0) H0). reflexivity.
Qed.

Lemma mem_node_cons (n m : node) (l : list node) :
  mem_node n (m :: l) = (n =? m)%Z || mem_node n l.
Proof. reflexivity. Qed.

Lemma test_hubs_spec (binom_sf : nat -> nat -> Q -> Q) (graph : Graph)
      (hubs : list node) (sighubs : list (node * string))
      (pvals : list (node * Q)) :
  NoDup hubs ->
  (forall n, In n hubs ->
             mem_node n (nodes graph) = true
             /\ touches_hub_edge graph n = true) ->
  exists sighubs' pvals',
    test_hubs binom_sf graph (length (filter has_hub (edges graph))) hubs
              sighubs pvals
    = Ok (sighubs', pvals')
    /\ (forall n,
          dict_find Z.eqb sighubs' n
          = if mem_node n hubs
               && Qltb (node_pvalue binom_sf graph n) (5 # 100)
            then Ok "hub"%string
            else dict_find Z.eqb sighubs n)
    /\ (forall n,
          dict_find Z.eqb pvals' n
          = if mem_node n hubs
               && Qltb (node_pvalue binom_sf graph n) (5 # 100)
            then Ok (node_pvalue binom_sf graph n)
            else dict_find Z.eqb pvals n)
    /\ (NoDup (map fst sighubs) -> NoDup (map fst sighubs'))
    /\ (NoDup (map fst pvals) -> NoDup (map fst pvals')).
Proof.
  revert sighubs pvals.
  induction hubs as [|m rest IH]; intros sig pv D Hin.
  - exists sig, pv. simpl. repeat split; auto.
  - inversion D as [|? ? Hm Hrest]; subst.
    destruct (Hin m (or_introl eq_refl)) as [Hnode Htouch].
    destruct (touches_hub_edge_degree graph m Htouch) as [Hdeg Hlen].
    destruct (hub_ratio_range graph Hlen) as [Hdiv [Hr0 Hr1]].
    assert (Hmrest : mem_node m rest = false).
    { destruct (mem_node m rest) eqn:E; [|reflexivity].
      apply mem_node_In in E. contradiction. }
    assert (Hin' : forall n, In n rest ->
                             mem_node n (nodes graph) = true
                             /\ touches_hub_edge graph n = true).
    { intros n Hn. apply Hin. right. exact Hn. }
    cbn [test_hubs]. unfold graph_getitem. rewrite Hnode. cbn [rbind].
    rewrite Hdiv. cbn [rbind]. rewrite count_hub_edges_length.
    change (length (filter has_hub (filter (incident m) (edges graph))))
      with (hub_degree graph m).
    change (length (filter (incident m) (edges graph)))
      with (degree graph m).
    rewrite binom_test_valid; [|lia | apply Qlt_le_weak; exact Hr0 | exact Hr1].
    cbn [rbind].
    change (binom_sf (hub_degree graph m) (degree graph m) (hub_ratio graph))
      with (node_pvalue binom_sf graph m).
    destruct (Qltb (node_pvalue binom_sf graph m) (5 # 100)) eqn:Esig.
    + destruct (IH (dict_set Z.eqb sig m "hub"%string)
                   (dict_set Z.eqb pv m (node_pvalue binom_sf graph m))
                   Hrest Hin')
        as [sig' [pv' [Hrun [Hs [Hp [Hns Hnp]]]]]].
      exists sig', pv'. split; [exact Hrun|].
      split; [|split; [|split]].
      * intro n. rewrite Hs, mem_node_cons.
        destruct (Z.eqb_spec n m) as [->|Hne].
        -- rewrite Hmrest, Esig. cbn [orb andb].
           apply (dict_find_set_same Z.eqb Z_eqb_eq).
        -- cbn [orb].
           destruct (mem_node n rest
                     && Qltb (node_pvalue binom_sf graph n) (5 # 100));
             [reflexivity|].
           apply (dict_find_set_other Z.eqb Z_eqb_eq). exact Hne.
      * intro n. rewrite Hp, mem_node_cons.
        destruct (Z.eqb_spec n m) as [->|Hne].
        -- rewrite Hmrest, Esig. cbn [orb andb].
           apply (dict_find_set_same Z.eqb Z_eqb_eq).
        -- cbn [orb].
           destruct (mem_node n rest
                     && Qltb (node_pvalue binom_sf graph n) (5 # 100));
             [reflexivity|].
           apply (dict_find_set_other Z.eqb Z_eqb_eq). exact Hne.
      * intro H. apply Hns.
        apply (dict_set_distinct_keys Z.eqb Z_eqb_eq). exact H.
      * intro H. apply Hnp.
        apply (dict_set_distinct_keys Z.eqb Z_eqb_eq). exact H.
    + destruct (IH sig pv Hrest Hin')
        as [sig' [pv' [Hrun [Hs [Hp [Hns Hnp]]]]]].
      exists sig', pv'. split; [exact Hrun|].
      split; [|split; [|split]]; try assumption.
      * intro n. rewrite Hs, mem_node_cons.
        destruct (Z.eqb_spec n m) as [->|Hne]; [|reflexivity].
        rewrite Hmrest, Esig. reflexivity.
      * intro n. rewrite Hp, mem_node_cons.
        destruct (Z.eqb_spec n m) as [->|Hne]; [|reflexivity].
        rewrite Hmrest, Esig. reflexivity.
Qed.

Lemma wf_graph_endpoints (graph : Graph) (e : edge) (n : node) :
  wf_graph graph = true -> In e (edges graph) -> incident n e = true ->
  mem_node n (nodes graph) = true.
Proof.
  unfold wf_graph. rewrite !andb_true_iff, forallb_forall.
  intros [[_ Hends] _] He Hi. specialize (Hends e He).
  apply andb_true_iff in Hends. unfold incident in Hi.
  apply orb_true_iff in Hi.
  destruct Hi as [Hi|Hi]; apply Z.eqb_eq in Hi; subst n; tauto.
Qed.

(** On a well-formed graph [central_node] never raises, also when the
    graph has no hub edge or no edge at all: the test is only run for the
    endpoints of hub edges, with at least one and at most degree-many
    successes and a probability above 0 and at most 1.  It labels exactly
    the endpoints of hub edges whose p-value is below 0.05 and records that
    p-value; every other node keeps the two attributes it had, so a label
    of an earlier call is never cleared. *)
Theorem central_node_labels_significant
        (binom_sf : nat -> nat -> Q -> Q) (graph : Graph) (attrs : node_hubs) :
  wf_graph graph = true ->
  exists attrs',
    central_node binom_sf graph attrs = Ok attrs'
    /\ forall n,
        if significant binom_sf graph n
        then dict_find Z.eqb (node_hub attrs') n = Ok "hub"%string
             /\ dict_find Z.eqb (node_hub_pvalue attrs') n
                = Ok (node_pvalue binom_sf graph n)
             /\ (1 <= hub_degree graph n <= degree graph n)%nat
             /\ 0 < hub_ratio graph /\ hub_ratio graph <= 1
        else dict_find Z.eqb (node_hub attrs') n
             = dict_find Z.eqb (node_hub attrs) n
             /\ dict_find Z.eqb (node_hub_pvalue attrs') n
                = dict_find Z.eqb (node_hub_pvalue attrs) n.
Proof.
  intro WF. unfold central_node. cbv zeta.
  rewrite get_edge_attributes_hub_length.
  set (hubs := hub_endpoints (get_edge_attributes_hub graph)).
  assert (Hhubs : forall n, mem_node n hubs = touches_hub_edge graph n).
  { intro n. apply eq_true_iff_eq. rewrite mem_node_In.
    apply hub_endpoints_In. }
  assert (Hin : forall n, In n hubs ->
                          mem_node n (nodes graph) = true
                          /\ touches_hub_edge graph n = true).
  { intros n Hn. apply mem_node_In in Hn. rewrite Hhubs in Hn.
    split; [|exact Hn]. apply touches_hub_edge_spec in Hn.
    destruct Hn as [e [He [_ Hi]]].
    apply (wf_graph_endpoints graph e n WF He Hi). }
  destruct (test_hubs_spec binom_sf graph hubs [] []
                           (NoDup_nodup Z.eq_dec _) Hin)
    as [sig [pv [Hrun [Hs [Hp [Hns Hnp]]]]]].
  rewrite Hrun. cbn [rbind fst snd].
  eexists. split; [reflexivity|]. intro n. cbn [node_hub node_hub_pvalue].
  rewrite !set_node_attributes_lookup
    by (first [apply Hns | apply Hnp]; constructor).
  rewrite Hs, Hp, Hhubs. fold (significant binom_sf graph n).
  destruct (significant binom_sf graph n) eqn:Esig.
  - unfold significant in Esig. apply andb_true_iff in Esig.
    destruct Esig as [Htouch _].
    destruct (touches_hub_edge_degree graph n Htouch) as [Hdeg Hlen].
    destruct (hub_ratio_range graph Hlen) as [_ [Hr0 Hr1]].
    assert (Hnode : mem_node n (nodes graph) = true).
    { apply Hin. apply mem_node_In. rewrite Hhubs. exact Htouch. }
    rewrite Hnode. repeat split; try assumption; apply Hdeg.
  - split; reflexivity.
Qed.

Lemma central_node_labels_significant_witness :
  exists attrs',
    central_node exact_binom_sf star_graph (mkNodeHubs [] []) = Ok attrs'
    /\ dict_find Z.eqb (node_hub attrs') 0%Z = Ok "hub"%string
    /\ dict_find Z.eqb (node_hub attrs') 1%Z = Raise KeyError.
Proof.
  destruct (central_node_labels_significant
              exact_binom_sf star_graph (mkNodeHubs [] []))
    as [attrs' [Hrun Hall]]; [vm_compute; reflexivity|].
  exists attrs'. split; [exact Hrun|]. split.
  - pose proof (Hall 0%Z) as H.
    assert (E : significant exact_binom_sf star_graph 0%Z = true)
      by (vm_compute; reflexivity).
    rewrite E in H. apply H.
  - pose proof (Hall 1%Z) as H.
    assert (E : significant exact_binom_sf star_graph 1%Z = false)
      by (vm_compute; reflexivity).
    rewrite E in H. destruct H as [H _]. rewrite H. reflexivity.
Defined.

(** ** central_edge: permutations add reliability scores only *)

Lemma label_hubs_values_unscored (graph : Graph) (adj : list (node * nat))
      (score : matrix) (value : hub_label) (hubs : list (nat * nat))
      (edge_vals edge_vals' : list (node * node * hub_label))
      (edge_scores edge_scores' edge_scores0 : list (node * node * Q)) :
  label_hubs graph adj (Some score) value hubs edge_vals edge_scores
  = Ok (edge_vals', edge_scores') ->
  label_hubs graph adj None value hubs edge_vals edge_scores0
  = Ok (edge_vals', edge_scores0).
Proof.
  revert edge_vals edge_scores.
  induction hubs as [|edge rest IH]; intros ev es H.
  - simpl in H. injection H as <- _. reflexivity.
  - cbn [label_hubs] in *.
    destruct (py_index (nodes graph) (fst edge)) as [node1|]; [|discriminate].
    destruct (py_index (nodes graph) (snd edge)) as [node2|]; [|discriminate].
    cbn [rbind] in *.
    destruct (dict_find Z.eqb adj node1) as [i1|]; [|discriminate].
    destruct (dict_find Z.eqb adj node2) as [i2|]; [|discriminate].
    cbn [rbind] in H.
    destruct (matrix_get score i1 i2) as [sc|]; [|discriminate].
    cbn [rbind] in H. apply (IH _ _ H).
Qed.

Lemma set_edge_attributes_reliability_keeps (graph : Graph)
      (values : list (node * node * Q)) :
  nodes (set_edge_attributes_reliability graph values) = nodes graph
  /\ cluster_attr (set_edge_attributes_reliability graph values)
     = cluster_attr graph
  /\ map labelled_edge (edges (set_edge_attributes_reliability graph values))
     = map labelled_edge (edges graph).
Proof.
  unfold set_edge_attributes_reliability. revert graph.
  induction values as [|kv values IH]; intro graph.
  - repeat split; reflexivity.
  - cbn [fold_left].
    destruct (IH (with_edges graph
                             (map (set_reliability (fst kv) (snd kv))
                                  (edges graph)))) as [Hn [Hc He]].
    rewrite Hn, Hc, He. unfold with_edges. cbn [nodes edges cluster_attr].
    repeat split. rewrite map_map. apply map_ext. intro e.
    unfold set_reliability, labelled_edge.
    destruct (connects (fst (fst kv)) (snd (fst kv)) e); reflexivity.
Qed.

(** With [permutations > 0] a call of [central_edge] that returns has
    drawn one random state and written nothing, the call without
    permutations returns as well, and the two graphs have the same nodes
    and edges with the same weights and the same ['hub'] labels: the
    permutations only add reliability scores. *)
Theorem central_edge_permutations_keep_hubs
        diffusion perm_graph (graph labelled : Graph)
        (percentile error : Q) (permutations : Z) (w w' : world) :
  (0 < permutations)%Z ->
  central_edge diffusion perm_graph graph percentile permutations error w
  = (w', Ok labelled) ->
  draws w' = S (draws w) /\ stdout w' = stdout w
  /\ exists unpermuted,
      central_edge diffusion perm_graph graph percentile 0 error w
      = (w, Ok unpermuted)
      /\ nodes labelled = nodes unpermuted
      /\ cluster_attr labelled = cluster_attr unpermuted
      /\ map labelled_edge (edges labelled)
         = map labelled_edge (edges unpermuted).
Proof.
  intros Hperm Hrun. rewrite central_edge_unpermuted.
  unfold central_edge in Hrun. fold (central_scoremat diffusion graph) in Hrun.
  rewrite (proj2 (Z.ltb_lt 0 permutations) Hperm) in Hrun.
  unfold hub_values.
  unfold bind, ret, lift, draw in Hrun. cbn [fst snd] in Hrun.
  destruct (hub_positions (central_scoremat diffusion graph) percentile)
    as [flagged|]; [|discriminate].
  cbn [rbind].
  destruct (perm_graph (draws w) graph (central_scoremat diffusion graph)
                       percentile permutations (snd flagged)
                       (snd (fst flagged)) error) as [score|];
    [|discriminate].
  destruct (label_hubs graph (make_adj_index graph) (Some score) negative_hub
                       (snd (fst flagged)) [] []) as [[ev1 es1]|] eqn:L1;
    [|discriminate].
  cbn [fst snd] in Hrun.
  destruct (label_hubs graph (make_adj_index graph) (Some score) positive_hub
                       (snd flagged) ev1 es1) as [[ev2 es2]|] eqn:L2;
    [|discriminate].
  cbn [fst snd] in Hrun. injection Hrun as Hw Hl.
  rewrite (label_hubs_values_unscored _ _ _ _ _ _ _ _ _ [] L1).
  cbn [rbind fst snd].
  rewrite (label_hubs_values_unscored _ _ _ _ _ _ _ _ _ [] L2).
  cbn [rbind fst snd].
  split; [rewrite <- Hw; reflexivity|].
  split; [rewrite <- Hw; reflexivity|].
  exists (set_edge_attributes_hub graph ev2). split; [reflexivity|].
  rewrite <- Hl.
  apply (set_edge_attributes_reliability_keeps
           (set_edge_attributes_hub graph ev2) es2).
Qed.

Lemma central_edge_permutations_keep_hubs_witness :
  exists labelled unpermuted,
    snd (central_edge (toy_diffusion hub_scoremat false []) no_perm_graph
                      hub_triangle 20 5 (1 # 10) world0) = Ok labelled
    /\ central_edge (toy_diffusion hub_scoremat false []) no_perm_graph
                    hub_triangle 20 0 (1 # 10) world0
       = (world0, Ok unpermuted)
    /\ map labelled_edge (edges labelled)
       = map labelled_edge (edges unpermuted).
Proof.
  destruct (central_edge (toy_diffusion hub_scoremat false []) no_perm_graph
                         hub_triangle 20 5 (1 # 10) world0)
    as [w' [labelled|]] eqn:Hrun; [|vm_compute in Hrun; discriminate].
  destruct (central_edge_permutations_keep_hubs
              (toy_diffusion hub_scoremat false []) no_perm_graph
              hub_triangle labelled 20 (1 # 10) 5 world0 w' eq_refl Hrun)
    as [_ [_ [unpermuted [H0 [_ [_ He]]]]]].
  exists labelled, unpermuted. split; [reflexivity|].
  split; assumption.
Defined.
